(** * powerwall_prometheus_exporter: codecs, projection and counter deltas

    A shallow embedding of the Go packages [powerwall] (scalar codecs and
    enumerations), [model] (projection of one poll into metrics), [view]
    (the Prometheus instruments and the cumulative-counter delta logic) and
    [controller] (one poll cycle), followed by the properties proved about
    them.

    Conventions of the embedding:
    - a Go [error] return value is an [option error] ([None] is [nil]); a
      Go pair [(T, error)] is a [result T];
    - a method with a pointer receiver takes the receiver's old value and
      returns the new one next to its error;
    - [int64] and [time.Duration] are [Z] with the two's-complement
      wrap-around written out ([int64]); [float64] is Rocq's primitive
      binary64 [float];
    - calls into instruments of the Prometheus client and into glog are
      recorded, in program order, in a list of [Event]s;
    - the functions of the Go standard library the code calls
      ([strconv.ParseInt], [fmt.Sprintf] with [%02d], [regexp], [time.Parse])
      are modelled in the modules [strconv], [fmt], [regexp] and [time]. *)

From Stdlib Require Import ZArith Floats String Ascii List Lia DecimalString.
From stdpp Require Import gmap strings list.

Set Default Proof Using "Type".

(* ================================================================= *)
(** * Part I: the embedding *)
(* ================================================================= *)

(** ** Errors and results *)

Inductive NumErrorKind : Type := ErrSyntax | ErrRange.

(** The error values the program can build or receive. [Errorf] keeps the
    format string of a [fmt.Errorf] call and the argument substituted for
    its single verb, so that the value the message names stays visible. *)
Inductive error : Type :=
| UnmarshalTypeError (value type : string)
| NumError (func num : string) (err : NumErrorKind)
| Errorf (format arg : string)
| ParseError (layout value : string)
| UnknownTimeZone (name : string)
| TransportError (msg : string)
| Panic (msg : string).

Inductive result (A : Type) : Type :=
| Ok (a : A)
| Err (e : error).
Arguments Ok {A} a.
Arguments Err {A} e.

#[global] Instance result_ret : MRet result := @Ok.
#[global] Instance result_bind : MBind result :=
  λ A B f m, match m with Ok a => f a | Err e => Err e end.

Definition is_Err {A} (r : result A) : Prop :=
  match r with Ok _ => False | Err _ => True end.

(** An error wrapped by [fmt.Errorf(format, err)] with the verb [%v]: the
    format strings of the wrappers around the error that caused the
    failure. *)
Inductive failure : Type :=
| Cause (e : error)
| Wrap (format : string) (inner : failure).

(** A Go pair [(T, error)] whose error may be wrapped. *)
Inductive attempt (A : Type) : Type :=
| Done (a : A)
| Failed (f : failure).
Arguments Done {A} a.
Arguments Failed {A} f.

(** [int64 z] is the value an [int64] variable holds after [z] is stored
    in it. *)
Definition int64 (z : Z) : Z := ((z + 2 ^ 63) mod 2 ^ 64 - 2 ^ 63)%Z.

(** [float64(v)] for an [int64] [v]: round to nearest, ties to even. *)
Definition float64_of_int64 (v : Z) : float :=
  if (v <? 0)%Z then
    if (v =? - 2 ^ 63)%Z then (-0x1p63)%float
    else PrimFloat.opp (PrimFloat.of_uint63 (Uint63.of_Z (- v)))
  else PrimFloat.of_uint63 (Uint63.of_Z v).

Definition boolToFloat (b : bool) : float := if b then 1%float else 0%float.

(** ** strconv *)

Module strconv.
Local Open Scope Z_scope.

Definition maxUint64 : Z := 2 ^ 64 - 1.

Definition digit_val (c : ascii) : option Z :=
  let n := Z.of_N (N_of_ascii c) in
  if (48 <=? n) && (n <=? 57) then Some (n - 48) else None.

(** The digit loop of [ParseUint(s, 10, 64)]; [s0] is the whole argument,
    [n] the value accumulated so far. *)
Fixpoint ParseUint_digits (s0 : string) (n : Z) (s : string) : result Z :=
  match s with
  | EmptyString => Ok n
  | String c s' =>
      match digit_val c with
      | None => Err (NumError "ParseUint" s0 ErrSyntax)
      | Some d =>
          let cutoff := maxUint64 / 10 + 1 in
          if cutoff <=? n then Err (NumError "ParseUint" s0 ErrRange)
          else
            let n10 := n * 10 in
            let n1 := (n10 + d) mod 2 ^ 64 in
            if (n1 <? n10) || (maxUint64 <? n1)
            then Err (NumError "ParseUint" s0 ErrRange)
            else ParseUint_digits s0 n1 s'
      end
  end.

Definition ParseUint (s : string) : result Z :=
  match s with
  | EmptyString => Err (NumError "ParseUint" s ErrSyntax)
  | _ => ParseUint_digits s 0 s
  end.

(** [strconv.ParseInt(s, 10, 64)]. *)
Definition ParseInt (s0 : string) : result Z :=
  match s0 with
  | EmptyString => Err (NumError "ParseInt" s0 ErrSyntax)
  | String c rest =>
      let '(neg, s) :=
        if Ascii.eqb c "+" then (false, rest)
        else if Ascii.eqb c "-" then (true, rest)
        else (false, s0) in
      match ParseUint s with
      | Err (NumError _ _ ErrSyntax) => Err (NumError "ParseInt" s0 ErrSyntax)
      | Err _ => Err (NumError "ParseInt" s0 ErrRange)
      | Ok un =>
          let cutoff := 2 ^ 63 in
          if negb neg && (cutoff <=? un) then Err (NumError "ParseInt" s0 ErrRange)
          else if neg && (cutoff <? un) then Err (NumError "ParseInt" s0 ErrRange)
          else
            let n := int64 un in
            Ok (if neg then int64 (- n) else n)
      end
  end.
End strconv.

(** ** fmt *)

Module fmt.
Local Open Scope Z_scope.

(** Decimal digits of a natural number. *)
Definition digits (n : Z) : string :=
  NilZero.string_of_uint (N.to_uint (Z.to_N n)).

Fixpoint zeros (n : nat) : string :=
  match n with O => EmptyString | S n' => String "0" (zeros n') end.

Definition pad (prec : nat) (s : string) : string :=
  (zeros (prec - String.length s) ++ s)%string.

(** The verb [%02d] applied to an [int64]: the zero flag turns the width
    into a digit count, one less when a sign is printed. *)
Definition verb_02d (v : Z) : string :=
  if v <? 0 then String "-" (pad 1 (digits (- v))) else pad 2 (digits v).

(** [fmt.Sprintf("%02d%02d%02d", a, b, c)]. *)
Definition Sprintf_02d_02d_02d (a b c : Z) : string :=
  (verb_02d a ++ verb_02d b ++ verb_02d c)%string.
End fmt.

(** ** encoding/json: the scalar handed to an [UnmarshalJSON] method *)

Module json.
(** The JSON value denoted by the bytes [b] that the decoder passes to
    [UnmarshalJSON]; only the kind matters for values that are not
    strings. *)
Inductive Value : Type :=
| JNull
| JBool (b : bool)
| JNumber (lit : string)
| JString (s : string)
| JArray
| JObject.

(** [var s string; json.Unmarshal(b, &s)]: the new value of [s]. A JSON
    [null] leaves [s] at its zero value. *)
Definition Unmarshal_string (b : Value) : result string :=
  match b with
  | JString s => Ok s
  | JNull => Ok EmptyString
  | JBool _ => Err (UnmarshalTypeError "bool" "string")
  | JNumber _ => Err (UnmarshalTypeError "number" "string")
  | JArray => Err (UnmarshalTypeError "array" "string")
  | JObject => Err (UnmarshalTypeError "object" "string")
  end.
End json.

(** ** regexp: a backtracking matcher with leftmost-first semantics

    Go's [regexp] returns the leftmost match and, among the matches that
    start there, the one a backtracking matcher finds first. The matcher
    walks the text character by character; a character of the strings
    here stands for one code point of the Go string. *)

Module regexp.

(** The syntax tree of a compiled pattern. A capture group carries its
    index (the rank of its opening parenthesis) and its name ([""] for
    an unnamed group). *)
Inductive Regexp : Type :=
| EmptyMatch
| CharClass (p : ascii → bool)
| Concat (r1 r2 : Regexp)
| Quest (greedy : bool) (r : Regexp)
| Star (greedy : bool) (r : Regexp)
| Plus (greedy : bool) (r : Regexp)
| Capture (idx : nat) (name : string) (r : Regexp)
| BeginText
| EndText.

(** [\d], [.] (any character but a newline) and a literal character. *)
Definition digit (c : ascii) : bool :=
  let n := N_of_ascii c in ((48 <=? n) && (n <=? 57))%N.
Definition anyCharNotNL (c : ascii) : bool := negb (Ascii.eqb c "010").
Definition lit (a : ascii) : Regexp := CharClass (Ascii.eqb a).

(** A thread of the matcher: the offset reached in the text, the text
    that remains from there, and the capture registers. *)
Record thread : Type := Thread {
  pos : nat;
  rest : string;
  cap : gmap nat (nat * nat)
}.

Notation "a <|> b" := (match a with Some x => Some x | None => b end)
  (at level 65, right associativity, only parsing).

(** Repetition of [body]: a greedy loop tries one more round before
    leaving, a lazy one leaves first. A round that consumes nothing is
    not repeated. *)
Fixpoint iterate {R} (body : thread → (thread → option R) → option R)
    (greedy : bool) (fuel : nat) (t : thread) (k : thread → option R)
    : option R :=
  match fuel with
  | O => k t
  | S fuel' =>
      if greedy then
        body t (λ t', if (String.length (rest t') <? String.length (rest t))%nat
                      then iterate body greedy fuel' t' k else None)
        <|> k t
      else
        k t
        <|> body t (λ t', if (String.length (rest t') <? String.length (rest t))%nat
                          then iterate body greedy fuel' t' k else None)
  end.

(** [exec r t k] runs [r] from thread [t] and hands every way of
    matching it, in priority order, to the continuation [k] until one
    succeeds. *)
Fixpoint exec {R} (r : Regexp) (t : thread) (k : thread → option R)
    : option R :=
  match r with
  | EmptyMatch => k t
  | CharClass p =>
      match rest t with
      | String c s' =>
          if p c then k (Thread (S (pos t)) s' (cap t)) else None
      | EmptyString => None
      end
  | Concat r1 r2 => exec r1 t (λ t', exec r2 t' k)
  | Quest greedy r1 =>
      if greedy then exec r1 t k <|> k t else k t <|> exec r1 t k
  | Star greedy r1 =>
      iterate (exec r1) greedy (S (String.length (rest t))) t k
  | Plus greedy r1 =>
      exec r1 t (λ t',
        iterate (exec r1) greedy (S (String.length (rest t'))) t' k)
  | Capture idx _ r1 =>
      exec r1 t (λ t',
        k (Thread (pos t') (rest t') (<[idx := (pos t, pos t')]> (cap t'))))
  | BeginText => if (pos t =? 0)%nat then k t else None
  | EndText => match rest t with EmptyString => k t | _ => None end
  end.

(** The leftmost match: the first start offset from which [re] matches.
    Returns the start offset and the final thread. *)
Fixpoint search (re : Regexp) (start : nat) (s : string)
    : option (nat * thread) :=
  match exec re (Thread start s ∅) Some with
  | Some t => Some (start, t)
  | None =>
      match s with
      | String _ s' => search re (S start) s'
      | EmptyString => None
      end
  end.

(** Capture groups in the order of their opening parentheses. *)
Fixpoint groups (r : Regexp) : list (nat * string) :=
  match r with
  | EmptyMatch | CharClass _ | BeginText | EndText => []
  | Concat r1 r2 => groups r1 ++ groups r2
  | Quest _ r1 | Star _ r1 | Plus _ r1 => groups r1
  | Capture idx name r1 => (idx, name) :: groups r1
  end.

Definition NumSubexp (re : Regexp) : nat := length (groups re).

(** [re.SubexpNames()]: the name of group [i] at index [i], [""] for
    the whole match and for unnamed groups. *)
Definition SubexpNames (re : Regexp) : list string :=
  EmptyString :: (snd <$> groups re).

(** [re.FindStringSubmatch(s)]: [nil] (the empty list) when nothing
    matches; otherwise the text of the match followed by the text of
    each group, [""] for a group that did not take part. *)
Definition FindStringSubmatch (re : Regexp) (s : string) : list string :=
  match search re 0 s with
  | None => []
  | Some (start, t) =>
      substring start (pos t - start) s ::
      ((λ g, match cap t !! g.1 with
             | Some (b, e) => substring b (e - b) s
             | None => EmptyString
             end) <$> groups re)
  end.

(** What a pattern denotes, without priorities: [matches r i w rem]
    holds when [r] can consume [w] starting at offset [i] of the text
    and leaving [rem] after it. *)
Inductive matches : Regexp → nat → string → string → Prop :=
| matches_empty i rem :
    matches EmptyMatch i "" rem
| matches_char p c i rem :
    p c = true → matches (CharClass p) i (String c "") rem
| matches_concat r1 r2 i w1 w2 rem :
    matches r1 i w1 (w2 ++ rem) →
    matches r2 (i + String.length w1) w2 rem →
    matches (Concat r1 r2) i (w1 ++ w2) rem
| matches_quest_none g r i rem :
    matches (Quest g r) i "" rem
| matches_quest_some g r i w rem :
    matches r i w rem → matches (Quest g r) i w rem
| matches_star_nil g r i rem :
    matches (Star g r) i "" rem
| matches_star_cons g r i w1 w2 rem :
    matches r i w1 (w2 ++ rem) →
    matches (Star g r) (i + String.length w1) w2 rem →
    matches (Star g r) i (w1 ++ w2) rem
| matches_plus g r i w1 w2 rem :
    matches r i w1 (w2 ++ rem) →
    matches (Star g r) (i + String.length w1) w2 rem →
    matches (Plus g r) i (w1 ++ w2) rem
| matches_capture idx name r i w rem :
    matches r i w rem → matches (Capture idx name r) i w rem
| matches_begin rem :
    matches BeginText 0 "" rem
| matches_end i :
    matches EndText i "" "".
(** The matcher is sound for [r] when a run from [t] that ends in [x]
    went through a thread [t'] that [k] accepted, after consuming a word
    [w] that [r] denotes. *)
Definition sound_at {R : Type} (r : Regexp)
    (run : thread → (thread → option R) → option R) : Prop :=
  ∀ t k x, run t k = Some x →
    ∃ w t', rest t = (w ++ rest t')%string
            ∧ pos t' = pos t + String.length w
            ∧ matches r (pos t) w (rest t')
            ∧ k t' = Some x.
End regexp.

(** ** time: durations, instants and [time.Parse] *)

Module time.
Local Open Scope Z_scope.

(** [time.Duration] is an [int64] count of nanoseconds. *)
Definition Nanosecond : Z := 1.
Definition Microsecond : Z := 1000 * Nanosecond.
Definition Millisecond : Z := 1000 * Microsecond.
Definition Second : Z := 1000 * Millisecond.
Definition Minute : Z := 60 * Second.
Definition Hour : Z := 60 * Minute.

(** A [*time.Location], known by its name only. *)
Record Location : Type := { locName : string }.

(** A [time.Time]: the instant (seconds since the Unix epoch and the
    nanoseconds within the second) and the offset east of UTC, in
    seconds, of the zone it is shown in ([None] for UTC). *)
Record Time : Type := {
  unixSec : Z;
  nsec : Z;
  zoneOffset : option Z
}.

(** The zero [time.Time]: January 1, year 1, 00:00:00 UTC. *)
Definition zero : Time :=
  {| unixSec := -62135596800; nsec := 0; zoneOffset := None |}.

(** The elements of a layout that occur in this program's layouts. *)
Inductive chunk : Type :=
| Literal (c : ascii)
| stdLongYear          (* 2006 *)
| stdZeroMonth         (* 01 *)
| stdZeroDay           (* 02 *)
| stdHour              (* 15 *)
| stdZeroMinute        (* 04 *)
| stdZeroSecond        (* 05 *)
| stdNumTZ             (* -0700 *)
| stdNumColonTZ.       (* -07:00 *)

Definition table : list (string * chunk) :=
  [ ("2006", stdLongYear); ("01", stdZeroMonth); ("02", stdZeroDay);
    ("15", stdHour); ("04", stdZeroMinute); ("05", stdZeroSecond);
    ("-07:00", stdNumColonTZ); ("-0700", stdNumTZ) ]%string.

Definition drop (n : nat) (s : string) : string :=
  substring n (String.length s - n) s.

Definition startsWith (layout : string)
    : option (chunk * nat) :=
  (λ e, (e.2, String.length e.1)) <$>
    List.find (λ e, String.prefix e.1 layout) table.

(** The layout cut into its elements, as repeated calls of
    [nextStdChunk] cut it; every character that starts none of the
    elements above stands for itself. *)
Fixpoint chunks_from (fuel : nat) (layout : string) : list chunk :=
  match fuel with
  | O => []
  | S fuel' =>
      match layout with
      | EmptyString => []
      | String c layout' =>
          match startsWith layout with
          | Some (std, n) => std :: chunks_from fuel' (drop n layout)
          | None => Literal c :: chunks_from fuel' layout'
          end
      end
  end.
Definition chunks (layout : string) : list chunk :=
  chunks_from (String.length layout) layout.

Definition isDigit (s : string) (i : nat) : bool :=
  match String.get i s with
  | Some c => regexp.digit c
  | None => false
  end.

Definition digitAt (s : string) (i : nat) : Z :=
  match String.get i s with
  | Some c => Z.of_N (N_of_ascii c) - 48
  | None => 0
  end.

(** [getnum(s, fixed)]: one or two digits, exactly two when [fixed]. *)
Definition getnum (s : string) (fixed : bool) : option (Z * string) :=
  if negb (isDigit s 0) then None
  else if negb (isDigit s 1) then
    if fixed then None else Some (digitAt s 0, drop 1 s)
  else Some (digitAt s 0 * 10 + digitAt s 1, drop 2 s).

(** The value of a string of decimal digits, [None] when some character
    is not a digit. *)
Fixpoint leadingInt (acc : Z) (s : string) : option Z :=
  match s with
  | EmptyString => Some acc
  | String c s' =>
      if regexp.digit c
      then leadingInt (acc * 10 + (Z.of_N (N_of_ascii c) - 48)) s'
      else None
  end.

Definition commaOrPeriod (c : ascii) : bool :=
  Ascii.eqb c "." || Ascii.eqb c ",".

(** Number of digits at the front of [s]. *)
Fixpoint digitRun (s : string) : nat :=
  match s with
  | String c s' => if regexp.digit c then S (digitRun s') else O
  | EmptyString => O
  end.

(** [parseNanoseconds(value, nbytes)]: [value] starts with the
    separator; at most nine digits after it count. *)
Definition parseNanoseconds (value : string) (nbytes : nat) : option Z :=
  let nbytes := Nat.min nbytes 10 in
  ns ← leadingInt 0 (substring 1 (nbytes - 1) value);
  Some (ns * 10 ^ Z.of_nat (10 - nbytes)).

(** The fields [Parse] fills in while it walks the layout. *)
Record fields : Type := {
  year : Z; month : Z; day : Z; hour : Z; min : Z; sec : Z; nanos : Z;
  zoff : Z
}.

Definition fields0 : fields :=
  {| year := 0; month := -1; day := -1; hour := 0; min := 0; sec := 0;
     nanos := 0; zoff := -1 |}.

(** [skip(value, prefix)] for a one-character prefix: a space in the
    layout stands for any run of spaces, every other character for
    itself. *)
Fixpoint cutspace (s : string) : string :=
  match s with
  | String " " s' => cutspace s'
  | _ => s
  end.

Definition skip (value : string) (c : ascii) : option string :=
  if Ascii.eqb c " " then
    match value with
    | EmptyString => Some value
    | String v _ => if Ascii.eqb v " " then Some (cutspace value) else None
    end
  else
    match value with
    | String v value' => if Ascii.eqb v c then Some value' else None
    | EmptyString => None
    end.

Definition inRange (lo v hi : Z) : bool := (lo <=? v) && (v <? hi).

(** The offset named by sign, hours and minutes. *)
Definition parseOffset (sign : string) (hh mm : string) : option Z :=
  '(hr, _) ← getnum hh true;
  '(mn, _) ← getnum mm true;
  if (24 <? hr) || (60 <? mn) then None
  else
    let off := (hr * 60 + mn) * 60 in
    if String.eqb sign "+" then Some off
    else if String.eqb sign "-" then Some (- off)
    else None.

(** One element of the layout consumed against the front of [value]. *)
Definition parseChunk (std : chunk) (f : fields) (value : string)
    : option (fields * string) :=
  match std with
  | Literal c => v ← skip value c; Some (f, v)
  | stdLongYear =>
      if (String.length value <? 4)%nat || negb (isDigit value 0) then None
      else
        y ← leadingInt 0 (substring 0 4 value);
        Some ({| year := y; month := month f; day := day f; hour := hour f;
                 min := min f; sec := sec f; nanos := nanos f; zoff := zoff f |},
              drop 4 value)
  | stdZeroMonth =>
      '(m, v) ← getnum value true;
      if (m <=? 0) || (12 <? m) then None
      else Some ({| year := year f; month := m; day := day f; hour := hour f;
                    min := min f; sec := sec f; nanos := nanos f; zoff := zoff f |}, v)
  | stdZeroDay =>
      '(d, v) ← getnum value true;
      Some ({| year := year f; month := month f; day := d; hour := hour f;
               min := min f; sec := sec f; nanos := nanos f; zoff := zoff f |}, v)
  | stdHour =>
      '(h, v) ← getnum value false;
      if inRange 0 h 24
      then Some ({| year := year f; month := month f; day := day f; hour := h;
                    min := min f; sec := sec f; nanos := nanos f; zoff := zoff f |}, v)
      else None
  | stdZeroMinute =>
      '(m, v) ← getnum value true;
      if inRange 0 m 60
      then Some ({| year := year f; month := month f; day := day f; hour := hour f;
                    min := m; sec := sec f; nanos := nanos f; zoff := zoff f |}, v)
      else None
  | stdZeroSecond =>
      '(s, v) ← getnum value true;
      if inRange 0 s 60 then
        let f' := {| year := year f; month := month f; day := day f; hour := hour f;
                     min := min f; sec := s; nanos := nanos f; zoff := zoff f |} in
        match v with
        | String c0 v1 =>
            if commaOrPeriod c0 && isDigit v 1 then
              (* a fractional second the layout does not mention *)
              let n := S (digitRun v1) in
              ns ← parseNanoseconds v n;
              Some ({| year := year f; month := month f; day := day f; hour := hour f;
                       min := min f; sec := s; nanos := ns; zoff := zoff f |},
                    drop n v)
            else Some (f', v)
        | EmptyString => Some (f', v)
        end
      else None
  | stdNumColonTZ =>
      if (String.length value <? 6)%nat then None
      else if negb (String.eqb (substring 3 1 value) ":") then None
      else
        off ← parseOffset (substring 0 1 value) (substring 1 2 value) (substring 4 2 value);
        Some ({| year := year f; month := month f; day := day f; hour := hour f;
                 min := min f; sec := sec f; nanos := nanos f; zoff := off |},
              drop 6 value)
  | stdNumTZ =>
      if (String.length value <? 5)%nat then None
      else
        off ← parseOffset (substring 0 1 value) (substring 1 2 value) (substring 3 2 value);
        Some ({| year := year f; month := month f; day := day f; hour := hour f;
                 min := min f; sec := sec f; nanos := nanos f; zoff := off |},
              drop 5 value)
  end.

Fixpoint parseChunks (l : list chunk) (f : fields) (value : string)
    : option fields :=
  match l with
  | [] => match value with EmptyString => Some f | _ => None end
  | std :: l' =>
      '(f', value') ← parseChunk std f value;
      parseChunks l' f' value'
  end.

Definition isLeap (y : Z) : bool :=
  (y mod 4 =? 0) && (negb (y mod 100 =? 0) || (y mod 400 =? 0)).

Definition daysIn (m y : Z) : Z :=
  if (m =? 2) && isLeap y then 29
  else nth (Z.to_nat (m - 1)) [31; 28; 31; 30; 31; 30; 31; 31; 30; 31; 30; 31] 0.

(** Days from 1970-01-01 to the given proleptic Gregorian date. *)
Definition daysSinceEpoch (y m d : Z) : Z :=
  let y' := if m <=? 2 then y - 1 else y in
  let era := y' / 400 in
  let yoe := y' - era * 400 in
  let mp := if 2 <? m then m - 3 else m + 9 in
  let doy := (153 * mp + 2) / 5 + d - 1 in
  let doe := yoe * 365 + yoe / 4 - yoe / 100 + doy in
  era * 146097 + doe - 719468.

(** [time.Parse(layout, value)], for layouts made of the elements of
    [chunk]: the value must be consumed whole, the day must exist in its
    month, and an offset read from the value moves the instant. *)
Definition Parse (layout value : string) : result Time :=
  match parseChunks (chunks layout) fields0 value with
  | None => Err (ParseError layout value)
  | Some f =>
      let m := if month f =? -1 then 1 else month f in
      let d := if day f =? -1 then 1 else day f in
      if (d <? 1) || (daysIn m (year f) <? d) then Err (ParseError layout value)
      else
        let utc := daysSinceEpoch (year f) m d * 86400
                   + hour f * 3600 + min f * 60 + sec f in
        if zoff f =? -1
        then Ok {| unixSec := utc; nsec := nanos f; zoneOffset := None |}
        else Ok {| unixSec := utc - zoff f; nsec := nanos f;
                   zoneOffset := Some (zoff f) |}
  end.
End time.

(** ** glog and the instruments of the Prometheus client *)

Inductive LogArg : Type :=
| ArgString (s : string)
| ArgError (e : error)
| ArgFloat (f : float).

(** The scalar gauges held by [view.PrometheusCounters]. *)
Inductive Gauge : Type :=
| powerwallChargePercent | nominalSystemEnergykWh | nominalSystemPowerkW
| numPowerwalls | totalSolarRatingWatts | backupMode | selfConsumptionMode
| backupReservePercent | uptimeSeconds | majorVersion | minorVersion
| releaseVersion | flattenedVersion | siteMasterRunning
| siteMasterConnectedToTesla | siteMasterSupplyingPower | gridConnected
| gridActive.

(** The labelled gauge families. *)
Inductive GaugeVec : Type :=
| networkActive | networkEnabled | networkPrimary | networkSignalStrength
| instantPower | instantAverageVoltage | instantTotalCurrent.

(** What the program does to its surroundings, in program order:
    messages handed to glog, [Set] on a gauge, [With(labels).Set] on a
    gauge family and [With(labels).Add] on the counter family
    [cumulativePower]. *)
Inductive Event : Type :=
| glog_Errorf (format : string) (args : list LogArg)
| glog_Warningf (format : string) (args : list LogArg)
| GaugeSet (g : Gauge) (v : float)
| GaugeVecSet (g : GaugeVec) (labels : gmap string string) (v : float)
| cumulativePowerAdd (labels : gmap string string) (v : float).

(** What the controller does to its surroundings: the events of the view,
    an informational message of glog with its one argument, the status
    code written to the response, the call of the Prometheus handler
    that renders the metrics, the creation of the ticker, the
    registration of a handler for a path and the start of the HTTP
    server. *)
Inductive Effect : Type :=
| Instrument (e : Event)
| glog_Infof (format : string) (arg : Z)
| WriteHeader (code : Z)
| promHandler_ServeHTTP
| NewTicker (interval : Z)
| Handle (pattern : string)
| ListenAndServe (port : Z).

(** ** package powerwall: enumerations and scalar codecs *)

Module powerwall.
Import json.

(** *** NetworkInterface *)

Inductive NetworkInterface : Type := Ethernet | Cellular | Wifi.

#[global] Instance NetworkInterface_eq_dec : EqDecision NetworkInterface.
Proof. solve_decision. Defined.
#[global] Instance NetworkInterface_countable : Countable NetworkInterface.
Proof.
  refine (inj_countable'
    (λ n, match n with Ethernet => 0 | Cellular => 1 | Wifi => 2 end)%nat
    (λ i, match i with 0 => Ethernet | 1 => Cellular | _ => Wifi end)%nat _).
  by intros [].
Defined.

Definition stringToInterface : gmap string NetworkInterface :=
  {[ "EthType" := Ethernet; "GsmType" := Cellular; "WifiType" := Wifi ]}.

(** The [default] arm of the source's switch answers for integers that
    are none of the declared constants; the type has none. *)
Definition NetworkInterface_String (n : NetworkInterface) : string :=
  match n with
  | Ethernet => "ethernet"
  | Cellular => "cellular"
  | Wifi => "wifi"
  end.

(** On a miss the two-value map read stores the zero value, [Ethernet],
    in the receiver before the error is returned. *)
Definition NetworkInterface_UnmarshalJSON (n : NetworkInterface) (b : Value)
    : option error * NetworkInterface :=
  match Unmarshal_string b with
  | Err err => (Some err, n)
  | Ok s =>
      match stringToInterface !! s with
      | Some v => (None, v)
      | None => (Some (Errorf "unknown NetworkInterface %q" s), Ethernet)
      end
  end.

(** *** OperatingMode *)

Inductive OperatingMode : Type :=
| Backup | SelfConsumption | Autonomous | Scheduler | SiteControl.

#[global] Instance OperatingMode_eq_dec : EqDecision OperatingMode.
Proof. solve_decision. Defined.

Definition OperatingMode_String (o : OperatingMode) : string :=
  match o with
  | Backup => "Backup"
  | SelfConsumption => "Self Consumption"
  | Autonomous => "Autonomous"
  | Scheduler => "Scheduler"
  | SiteControl => "SiteControl"
  end.

Definition stringToOperatingMode : gmap string OperatingMode :=
  {[ "backup" := Backup; "self_consumption" := SelfConsumption;
     "autonomous" := Autonomous; "scheduler" := Scheduler;
     "site_control" := SiteControl ]}.

Definition OperatingMode_UnmarshalJSON (n : OperatingMode) (b : Value)
    : option error * OperatingMode :=
  match Unmarshal_string b with
  | Err err => (Some err, n)
  | Ok s =>
      match stringToOperatingMode !! s with
      | Some v => (None, v)
      | None => (Some (Errorf "unknown OperatingMode %q" s), Backup)
      end
  end.

(** *** SystemStatus *)

Inductive SystemStatus : Type :=
| GridConnected | IslandedReady | IslandedActive | TransitionToGrid.

#[global] Instance SystemStatus_eq_dec : EqDecision SystemStatus.
Proof. solve_decision. Defined.

Definition SystemStatus_String (s : SystemStatus) : string :=
  match s with
  | GridConnected => "GridConnected"
  | IslandedReady => "IslandedReady"
  | IslandedActive => "IslandedActive"
  | TransitionToGrid => "TransitionToGrid"
  end.

Definition stringToSystemStatus : gmap string SystemStatus :=
  {[ "SystemGridConnected" := GridConnected;
     "SystemIslandedReady" := IslandedReady;
     "SystemIslandedActive" := IslandedActive;
     "SystemTransitionToGrid" := TransitionToGrid ]}.

Definition SystemStatus_UnmarshalJSON (s : SystemStatus) (b : Value)
    : option error * SystemStatus :=
  match Unmarshal_string b with
  | Err err => (Some err, s)
  | Ok j =>
      match stringToSystemStatus !! j with
      | Some v => (None, v)
      | None => (Some (Errorf "unknown SystemStatus %q" j), GridConnected)
      end
  end.

(** *** GridState *)

Inductive GridState : Type := Compliant | Qualifying | Uncompliant.

#[global] Instance GridState_eq_dec : EqDecision GridState.
Proof. solve_decision. Defined.

Definition stringToGridState : gmap string GridState :=
  {[ "Grid_Compliant" := Compliant; "Grid_Qualifying" := Qualifying;
     "Grid_Uncompliant" := Uncompliant ]}.

Definition GridState_String (g : GridState) : string :=
  match g with
  | Compliant => "Complaint"
  | Qualifying => "Qualifying"
  | Uncompliant => "Uncompliant"
  end.

Definition GridState_UnmarshalJSON (g : GridState) (b : Value)
    : option error * GridState :=
  match Unmarshal_string b with
  | Err err => (Some err, g)
  | Ok s =>
      match stringToGridState !! s with
      | Some v => (None, v)
      | None => (Some (Errorf "unknown GridState %q" s), Compliant)
      end
  end.

(** *** TimeZone *)

Record TimeZone : Type := { loc : option time.Location }.

Definition Location (t : TimeZone) : option time.Location := loc t.

Section TimeZone.
(** [time.LoadLocation] answers from the time zone database of the
    machine the program runs on. *)
Variable LoadLocation : string → result time.Location.

Definition TimeZone_UnmarshalJSON (t : TimeZone) (b : Value)
    : option error * TimeZone * list Event :=
  match Unmarshal_string b with
  | Err err => (Some err, t, [])
  | Ok s =>
      match LoadLocation s with
      | Err err =>
          (None, t,
           [glog_Errorf
              "The server reports timezone %q, but we can't decode it because: %v"
              [ArgString s; ArgError err]])
      | Ok ld => (None, {| loc := Some ld |}, [])
      end
  end.
End TimeZone.

(** *** Time *)

Record Time : Type := { t : time.Time }.

(** The pattern of [stripFractionalSeconds]: start of text; group 1, any
    characters, as many as possible; a period; one or more digits;
    group 2, any characters, as many as possible; end of text. *)
Definition stripFractionalSeconds : regexp.Regexp :=
  regexp.Concat regexp.BeginText
 (regexp.Concat (regexp.Capture 1 "" (regexp.Star true (regexp.CharClass regexp.anyCharNotNL)))
 (regexp.Concat (regexp.lit ".")
 (regexp.Concat (regexp.Plus true (regexp.CharClass regexp.digit))
 (regexp.Concat (regexp.Capture 2 "" (regexp.Star true (regexp.CharClass regexp.anyCharNotNL)))
  regexp.EndText)))).

Definition layouts : list string :=
  [ "2006-01-02T15:04:05-07:00";
    "2006-01-02 15:04:05 -0700";
    "2006-01-02T15:04:05Z" ]%string.

(** The string the layouts are tried on: [s] without its fractional
    seconds when [stripFractionalSeconds] matches. *)
Definition stripped (s : string) : string :=
  match regexp.FindStringSubmatch stripFractionalSeconds s with
  | [] => s
  | got => (nth 1 got EmptyString ++ nth 2 got EmptyString)%string
  end.

Section Time.
Variable Parse : string → string → result time.Time.

(** The loop over the layouts: the first one that parses [s] wins. *)
Fixpoint tryLayouts (ls : list string) (s : string) : option time.Time :=
  match ls with
  | [] => None
  | l :: ls' =>
      match Parse l s with
      | Ok g => Some g
      | Err _ => tryLayouts ls' s
      end
  end.

Definition Time_UnmarshalJSON (t0 : Time) (b : Value) : option error * Time :=
  match Unmarshal_string b with
  | Err err => (Some err, t0)
  | Ok s =>
      if String.eqb s "" then (None, {| t := time.zero |})
      else
        let s := stripped s in
        match tryLayouts layouts s with
        | Some g => (None, {| t := g |})
        | None => (Some (Errorf "no layout matched timestamp %q" s), t0)
        end
  end.
End Time.

(** *** Duration *)

Record Duration : Type := { d : Z }.

(** The pattern of [uptimeRegex]:
    [((?P<hours>\d+?)h)?((?P<minutes>\d+?)m)?((?P<seconds>\d+?).)((?P<nanoseconds>\d+?)s)].
    Groups 1, 3, 5 and 7 are the unnamed parentheses around a named
    group and its unit letter. *)
Definition uptimeRegex : regexp.Regexp :=
  let digits := regexp.Plus false (regexp.CharClass regexp.digit) in
  regexp.Concat
    (regexp.Quest true (regexp.Capture 1 ""
       (regexp.Concat (regexp.Capture 2 "hours" digits) (regexp.lit "h"))))
 (regexp.Concat
    (regexp.Quest true (regexp.Capture 3 ""
       (regexp.Concat (regexp.Capture 4 "minutes" digits) (regexp.lit "m"))))
 (regexp.Concat
    (regexp.Capture 5 ""
       (regexp.Concat (regexp.Capture 6 "seconds" digits)
                      (regexp.CharClass regexp.anyCharNotNL)))
    (regexp.Capture 7 ""
       (regexp.Concat (regexp.Capture 8 "nanoseconds" digits) (regexp.lit "s"))))).

(** The loop over the captures: every capture of a named group is parsed
    as an integer and stored under the group's name; the first parse
    error ends the decoding. *)
Fixpoint parseCaptures (caps : list (string * string)) (res : gmap string Z)
    : result (gmap string Z) :=
  match caps with
  | [] => Ok res
  | (name, capture) :: caps' =>
      if String.eqb name "" then parseCaptures caps' res
      else
        match strconv.ParseInt capture with
        | Err err => Err err
        | Ok icap => parseCaptures caps' (<[name := icap]> res)
        end
  end.

(** [result[name]]: a missing key reads as zero. *)
Definition get (res : gmap string Z) (name : string) : Z :=
  default 0%Z (res !! name).

Definition Duration_UnmarshalJSON (d0 : Duration) (b : Value)
    : option error * Duration :=
  match Unmarshal_string b with
  | Err err => (Some err, d0)
  | Ok s =>
      let match_ := regexp.FindStringSubmatch uptimeRegex s in
      let names := regexp.SubexpNames uptimeRegex in
      match parseCaptures (zip names match_) ∅ with
      | Err err => (Some err, d0)
      | Ok res =>
          let r := int64 (int64 (get res "hours") * time.Hour) in
          let r := int64 (r + int64 (int64 (get res "minutes") * time.Minute)) in
          let r := int64 (r + int64 (int64 (get res "seconds") * time.Second)) in
          let r := int64 (r + int64 (int64 (get res "nanoseconds") * time.Nanosecond)) in
          (None, {| d := r |})
      end
  end.

Definition Duration_Duration (x : Duration) : Z := d x.

(** *** The records of the endpoints the projection reads *)

Record NetworkInfo : Type := { NetworkInfo_SignalStrength : Z }.

Record Network : Type := {
  Network_Name : string;
  Network_Interface : NetworkInterface;
  Network_Enabled : bool;
  Network_Active : bool;
  Network_Primary : bool;
  Network_Info : NetworkInfo
}.

Record Operation : Type := {
  RealMode : OperatingMode;
  Operation_BackupReservePercent : float
}.

Record Status : Type := {
  StartTime : Time;
  UpTime : Duration;
  Version : string
}.

Record SiteMaster : Type := {
  Running : bool;
  ConnectedToTesla : bool;
  PowerSupplyMode : bool
}.

Record MeterDetails : Type := {
  InstantPower : float;
  InstantReactivePower : float;
  InstantApparentPower : float;
  EnergyExported : float;
  EnergyImported : float;
  InstantAverageVoltage : float;
  InstantTotalCurrent : float
}.

Record Aggregates : Type := {
  Site : MeterDetails;
  Battery : MeterDetails;
  Load : MeterDetails;
  Solar : MeterDetails
}.

Record SOE : Type := { Percentage : float }.

Record GridStatus : Type := {
  GridStatus_Status : SystemStatus;
  GridStatus_Active : bool
}.

(** The [Monitor] interface during one poll cycle: what each endpoint
    the projection asks answers, a decoded record or the error of the
    request or of its decoding. *)
Record Monitor : Type := {
  GetNetworks : result (list Network);
  GetOperation : result Operation;
  GetStatus : result Status;
  GetSiteMaster : result SiteMaster;
  GetAggregates : result Aggregates;
  GetSOE : result SOE;
  GetGridStatus : result GridStatus
}.

(** *** The records of the endpoints asked once, at start-up *)

Record SiteInfo : Type := {
  SiteInfo_SiteName : string;
  SiteInfo_TimeZone : TimeZone;
  SiteInfo_NominalSystemEnergykWh : float;
  SiteInfo_NominalSystemPowerkW : float
}.

Record Powerwall : Type := { PackageSerialNumber : string }.

Record Powerwalls : Type := { Powerwalls_Powerwalls : list Powerwall }.

Record Config : Type := { Config_VIN : string }.

(** The struct [Solar]; the name is taken by the field of [Aggregates]. *)
Record SolarArray : Type := { PowerRatingWatts : Z }.

(** The part of the [Monitor] interface that [fetchFixedInfo] asks. *)
Record StartupMonitor : Type := {
  GetSiteInfo : result SiteInfo;
  GetPowerwalls : result Powerwalls;
  GetConfig : result Config;
  GetSolars : result (list SolarArray)
}.
End powerwall.

(** ** package model: one poll projected into metrics *)

Module model.

Record FixedInfo : Type := {
  NominalSystemEnergykWh : float;
  NominalSystemPowerkW : float;
  SiteName : string;
  NumPowerwalls : Z;
  PowerwallSerialNumbers : list string;
  VIN : string;
  TotalSolarPowerRatingWatts : Z
}.

Record NetworkInterfaceDetails : Type := {
  Transport : powerwall.NetworkInterface;
  Name : string;
  Active : bool;
  Enabled : bool;
  Primary : bool;
  SignalStrength : Z
}.

Inductive MeterType : Type := Total | Load | Solar | Battery.

#[global] Instance MeterType_eq_dec : EqDecision MeterType.
Proof. solve_decision. Defined.
#[global] Instance MeterType_countable : Countable MeterType.
Proof.
  refine (inj_countable'
    (λ m, match m with Total => 0 | Load => 1 | Solar => 2 | Battery => 3 end)%nat
    (λ i, match i with 0 => Total | 1 => Load | 2 => Solar | _ => Battery end)%nat _).
  by intros [].
Defined.

Definition MeterType_String (m : MeterType) : string :=
  match m with
  | Total => "site"
  | Load => "load"
  | Solar => "solar"
  | Battery => "battery"
  end.

Record MeterDetails : Type := {
  InstantPower : float;
  InstantReactivePower : float;
  InstantApparentPower : float;
  CumulativeEnergyTo : float;
  CumulativeEnergyFrom : float;
  InstantAverageVoltage : float;
  InstantTotalCurrent : float
}.

Record SoftwareVersion : Type := { Major : Z; Minor : Z; Release : Z }.

Record TeslaEnergyGatewayMetrics : Type := {
  Fixed : FixedInfo;
  Mode : powerwall.OperatingMode;
  BackupReservePercent : float;
  Uptime : Z;
  Version : SoftwareVersion;
  NetworkInterfaces : gmap powerwall.NetworkInterface NetworkInterfaceDetails;
  SiteMasterRunning : bool;
  SiteMasterConnectedToTesla : bool;
  SiteMasterSupplyingPower : bool;
  Meters : gmap MeterType MeterDetails;
  PowerwallChargePercent : float;
  GridConnected : bool;
  GridActive : bool
}.

(** The zero value [&TeslaEnergyGatewayMetrics{}]. *)
Definition zeroMetrics : TeslaEnergyGatewayMetrics := {|
  Fixed := {| NominalSystemEnergykWh := 0; NominalSystemPowerkW := 0;
              SiteName := ""; NumPowerwalls := 0; PowerwallSerialNumbers := [];
              VIN := ""; TotalSolarPowerRatingWatts := 0 |};
  Mode := powerwall.Backup;
  BackupReservePercent := 0;
  Uptime := 0;
  Version := {| Major := 0; Minor := 0; Release := 0 |};
  NetworkInterfaces := ∅;
  SiteMasterRunning := false;
  SiteMasterConnectedToTesla := false;
  SiteMasterSupplyingPower := false;
  Meters := ∅;
  PowerwallChargePercent := 0;
  GridConnected := false;
  GridActive := false
|}.

(** The pattern of [versionRegex]: start of text, then three groups of
    one or more digits separated by periods: [^(\d+)\.(\d+)\.(\d+)]. *)
Definition versionRegex : regexp.Regexp :=
  let digits := regexp.Plus true (regexp.CharClass regexp.digit) in
  regexp.Concat regexp.BeginText
 (regexp.Concat (regexp.Capture 1 "" digits)
 (regexp.Concat (regexp.lit ".")
 (regexp.Concat (regexp.Capture 2 "" digits)
 (regexp.Concat (regexp.lit ".")
                (regexp.Capture 3 "" digits))))).

(** The [get...] methods fill the record [p] step by step. [Poll] hands
    the record out only when all of them succeed, so a failing step
    answers with its error alone. *)

Definition getOperations (mon : powerwall.Monitor) (p : TeslaEnergyGatewayMetrics)
    : result TeslaEnergyGatewayMetrics :=
  operation ← powerwall.GetOperation mon;
  Ok {| Fixed := Fixed p;
        Mode := powerwall.RealMode operation;
        BackupReservePercent := powerwall.Operation_BackupReservePercent operation;
        Uptime := Uptime p; Version := Version p;
        NetworkInterfaces := NetworkInterfaces p;
        SiteMasterRunning := SiteMasterRunning p;
        SiteMasterConnectedToTesla := SiteMasterConnectedToTesla p;
        SiteMasterSupplyingPower := SiteMasterSupplyingPower p;
        Meters := Meters p; PowerwallChargePercent := PowerwallChargePercent p;
        GridConnected := GridConnected p; GridActive := GridActive p |}.

Definition getStatus (mon : powerwall.Monitor) (p : TeslaEnergyGatewayMetrics)
    : result TeslaEnergyGatewayMetrics :=
  status ← powerwall.GetStatus mon;
  let uptime := powerwall.Duration_Duration (powerwall.UpTime status) in
  let versionParts :=
    regexp.FindStringSubmatch versionRegex (powerwall.Version status) in
  if negb (length versionParts =? 4)%nat
  then Err (Errorf "version %q unexpected, want A.B.C" (powerwall.Version status))
  else
    major ← strconv.ParseInt (nth 1 versionParts EmptyString);
    minor ← strconv.ParseInt (nth 2 versionParts EmptyString);
    release ← strconv.ParseInt (nth 3 versionParts EmptyString);
    Ok {| Fixed := Fixed p; Mode := Mode p;
          BackupReservePercent := BackupReservePercent p;
          Uptime := uptime;
          Version := {| Major := major; Minor := minor; Release := release |};
          NetworkInterfaces := NetworkInterfaces p;
          SiteMasterRunning := SiteMasterRunning p;
          SiteMasterConnectedToTesla := SiteMasterConnectedToTesla p;
          SiteMasterSupplyingPower := SiteMasterSupplyingPower p;
          Meters := Meters p; PowerwallChargePercent := PowerwallChargePercent p;
          GridConnected := GridConnected p; GridActive := GridActive p |}.

Definition networkDetails (nw : powerwall.Network) : NetworkInterfaceDetails :=
  {| Transport := powerwall.Network_Interface nw;
     Name := powerwall.Network_Name nw;
     Enabled := powerwall.Network_Enabled nw;
     Active := powerwall.Network_Active nw;
     Primary := powerwall.Network_Primary nw;
     SignalStrength :=
       powerwall.NetworkInfo_SignalStrength (powerwall.Network_Info nw) |}.

Definition getNetworks (mon : powerwall.Monitor) (p : TeslaEnergyGatewayMetrics)
    : result TeslaEnergyGatewayMetrics :=
  networks ← powerwall.GetNetworks mon;
  Ok {| Fixed := Fixed p; Mode := Mode p;
        BackupReservePercent := BackupReservePercent p;
        Uptime := Uptime p; Version := Version p;
        NetworkInterfaces :=
          fold_left (λ acc nw,
                       <[powerwall.Network_Interface nw := networkDetails nw]> acc)
                    networks ∅;
        SiteMasterRunning := SiteMasterRunning p;
        SiteMasterConnectedToTesla := SiteMasterConnectedToTesla p;
        SiteMasterSupplyingPower := SiteMasterSupplyingPower p;
        Meters := Meters p; PowerwallChargePercent := PowerwallChargePercent p;
        GridConnected := GridConnected p; GridActive := GridActive p |}.

Definition getSiteMaster (mon : powerwall.Monitor) (p : TeslaEnergyGatewayMetrics)
    : result TeslaEnergyGatewayMetrics :=
  siteMaster ← powerwall.GetSiteMaster mon;
  Ok {| Fixed := Fixed p; Mode := Mode p;
        BackupReservePercent := BackupReservePercent p;
        Uptime := Uptime p; Version := Version p;
        NetworkInterfaces := NetworkInterfaces p;
        SiteMasterRunning := powerwall.Running siteMaster;
        SiteMasterConnectedToTesla := powerwall.ConnectedToTesla siteMaster;
        SiteMasterSupplyingPower := powerwall.PowerSupplyMode siteMaster;
        Meters := Meters p; PowerwallChargePercent := PowerwallChargePercent p;
        GridConnected := GridConnected p; GridActive := GridActive p |}.

Definition getdetails (d : powerwall.MeterDetails) : MeterDetails :=
  {| InstantPower := powerwall.InstantPower d;
     InstantReactivePower := powerwall.InstantReactivePower d;
     InstantApparentPower := powerwall.InstantApparentPower d;
     CumulativeEnergyFrom := powerwall.EnergyExported d;
     CumulativeEnergyTo := powerwall.EnergyImported d;
     InstantAverageVoltage := powerwall.InstantAverageVoltage d;
     InstantTotalCurrent := powerwall.InstantTotalCurrent d |}.

Definition getAggregates (mon : powerwall.Monitor) (p : TeslaEnergyGatewayMetrics)
    : result TeslaEnergyGatewayMetrics :=
  agg ← powerwall.GetAggregates mon;
  Ok {| Fixed := Fixed p; Mode := Mode p;
        BackupReservePercent := BackupReservePercent p;
        Uptime := Uptime p; Version := Version p;
        NetworkInterfaces := NetworkInterfaces p;
        SiteMasterRunning := SiteMasterRunning p;
        SiteMasterConnectedToTesla := SiteMasterConnectedToTesla p;
        SiteMasterSupplyingPower := SiteMasterSupplyingPower p;
        Meters :=
          <[Battery := getdetails (powerwall.Battery agg)]>
          (<[Solar := getdetails (powerwall.Solar agg)]>
          (<[Load := getdetails (powerwall.Load agg)]>
          (<[Total := getdetails (powerwall.Site agg)]> ∅)));
        PowerwallChargePercent := PowerwallChargePercent p;
        GridConnected := GridConnected p; GridActive := GridActive p |}.

Definition getSOE (mon : powerwall.Monitor) (p : TeslaEnergyGatewayMetrics)
    : result TeslaEnergyGatewayMetrics :=
  soe ← powerwall.GetSOE mon;
  gridstatus ← powerwall.GetGridStatus mon;
  Ok {| Fixed := Fixed p; Mode := Mode p;
        BackupReservePercent := BackupReservePercent p;
        Uptime := Uptime p; Version := Version p;
        NetworkInterfaces := NetworkInterfaces p;
        SiteMasterRunning := SiteMasterRunning p;
        SiteMasterConnectedToTesla := SiteMasterConnectedToTesla p;
        SiteMasterSupplyingPower := SiteMasterSupplyingPower p;
        Meters := Meters p;
        PowerwallChargePercent := powerwall.Percentage soe;
        GridConnected :=
          bool_decide (powerwall.GridStatus_Status gridstatus = powerwall.GridConnected);
        GridActive := powerwall.GridStatus_Active gridstatus |}.

(** The loop of [getDynamicInfo] over its list of steps. *)
Fixpoint runOps
    (ops : list (powerwall.Monitor → TeslaEnergyGatewayMetrics → result TeslaEnergyGatewayMetrics))
    (mon : powerwall.Monitor) (p : TeslaEnergyGatewayMetrics)
    : result TeslaEnergyGatewayMetrics :=
  match ops with
  | [] => Ok p
  | op :: ops' => p' ← op mon p; runOps ops' mon p'
  end.

Definition getDynamicInfo (fixed : FixedInfo) (mon : powerwall.Monitor)
    (p : TeslaEnergyGatewayMetrics) : result TeslaEnergyGatewayMetrics :=
  let p := {| Fixed := fixed; Mode := Mode p;
              BackupReservePercent := BackupReservePercent p;
              Uptime := Uptime p; Version := Version p;
              NetworkInterfaces := NetworkInterfaces p;
              SiteMasterRunning := SiteMasterRunning p;
              SiteMasterConnectedToTesla := SiteMasterConnectedToTesla p;
              SiteMasterSupplyingPower := SiteMasterSupplyingPower p;
              Meters := Meters p; PowerwallChargePercent := PowerwallChargePercent p;
              GridConnected := GridConnected p; GridActive := GridActive p |} in
  let ops := [getOperations; getStatus; getNetworks; getSiteMaster;
              getAggregates; getSOE] in
  runOps ops mon p.

(** [Poll] retrieves the dynamic fields from an energy gateway. *)
Definition Poll (mon : powerwall.Monitor) (fixed : FixedInfo)
    : result TeslaEnergyGatewayMetrics :=
  getDynamicInfo fixed mon zeroMetrics.

(** The fixed fields, fetched once. The sum of the solar ratings is
    accumulated in an [int]. *)
Definition fetchFixedInfo (mon : powerwall.StartupMonitor) : attempt FixedInfo :=
  match powerwall.GetSiteInfo mon with
  | Err err => Failed (Wrap "mon.GetSiteInfo(): %v" (Cause err))
  | Ok si =>
      match powerwall.GetPowerwalls mon with
      | Err err => Failed (Wrap "mon.GetPowerwalls(): %v" (Cause err))
      | Ok pws =>
          match powerwall.GetConfig mon with
          | Err err => Failed (Wrap "mon.GetConfig(): %v" (Cause err))
          | Ok config =>
              match powerwall.GetSolars mon with
              | Err err => Failed (Wrap "mon.GetSolars(): %v" (Cause err))
              | Ok solars =>
                  Done {|
                    NominalSystemEnergykWh :=
                      powerwall.SiteInfo_NominalSystemEnergykWh si;
                    NominalSystemPowerkW :=
                      powerwall.SiteInfo_NominalSystemPowerkW si;
                    SiteName := powerwall.SiteInfo_SiteName si;
                    NumPowerwalls :=
                      Z.of_nat (length (powerwall.Powerwalls_Powerwalls pws));
                    PowerwallSerialNumbers :=
                      fold_left (λ rval pw, rval ++ [powerwall.PackageSerialNumber pw])
                                (powerwall.Powerwalls_Powerwalls pws) [];
                    VIN := powerwall.Config_VIN config;
                    TotalSolarPowerRatingWatts :=
                      fold_left (λ rval s, int64 (rval + powerwall.PowerRatingWatts s))
                                solars 0%Z
                  |}
              end
          end
      end
  end.

(** [New] retrieves fixed fields from an energy gateway. *)
Definition New (mon : powerwall.StartupMonitor) : attempt FixedInfo :=
  fetchFixedInfo mon.
End model.

(** ** package view: the instruments and the cumulative-counter deltas *)

Module view.
Import model.

Definition kInterface : string := "interface".
Definition kMeter : string := "meter".
Definition kDirection : string := "direction".
Definition kFrom : string := "from".
Definition kTo : string := "to".
Definition kPowerType : string := "powerType".
Definition kTruePower : string := "truePower".
Definition kReactivePower : string := "reactivePower".
Definition kApparentPower : string := "apparentPower".

(** The instruments are handles into the Prometheus client; what
    [PrometheusCounters] owns itself is the last cumulative reading per
    meter and direction. *)
Record PrometheusCounters : Type := {
  priorCumulative : gmap MeterType (gmap string float)
}.

(** A method on [*PrometheusCounters]: it may change the receiver, emits
    events, and ends with a value or an error. A panic ends it like an
    error does. *)
Definition Action (A : Type) : Type :=
  PrometheusCounters → result A * PrometheusCounters * list Event.

#[global] Instance Action_ret : MRet Action := λ A a p, (Ok a, p, []).
#[global] Instance Action_bind : MBind Action := λ A B f m p,
  match m p with
  | (Ok a, p', evs) =>
      match f a p' with (r, p'', evs') => (r, p'', evs ++ evs') end
  | (Err err, p', evs) => (Err err, p', evs)
  end.

Definition emit (e : Event) : Action unit := λ p, (Ok tt, p, [e]).
Definition try {A} (r : result A) : Action A := λ p, (r, p, []).

Fixpoint forEach {A} (l : list A) (body : A → Action unit) : Action unit :=
  match l with
  | [] => mret tt
  | x :: l' => body x ;; forEach l' body
  end.

(** [p.priorCumulative[mt][dir]]: a missing key reads as zero, on
    either level. *)
Definition prior (p : PrometheusCounters) (mt : MeterType) (dir : string)
    : float :=
  default 0%float (default ∅ (priorCumulative p !! mt) !! dir).

Definition readPrior (mt : MeterType) (dir : string) : Action float :=
  λ p, (Ok (prior p mt dir), p, []).

(** [p.priorCumulative[mt][dir] = v]: the inner map must exist. *)
Definition storePrior (mt : MeterType) (dir : string) (v : float)
    : Action unit :=
  λ p, match priorCumulative p !! mt with
       | Some inner =>
           (Ok tt,
            {| priorCumulative := <[mt := <[dir := v]> inner]> (priorCumulative p) |},
            [])
       | None => (Err (Panic "assignment to entry in nil map"), p, [])
       end.

Definition epsilon : float := 0x1.4f8b588e368f1p-17%float.

(** The body of the loop over [m.Meters]. *)
Definition updateMeter (mt : MeterType) (meter : MeterDetails) : Action unit :=
  let name := MeterType_String mt in
  emit (GaugeVecSet instantPower
          {[ kMeter := name; kPowerType := kTruePower ]} (InstantPower meter)) ;;
  emit (GaugeVecSet instantPower
          {[ kMeter := name; kPowerType := kReactivePower ]}
          (InstantReactivePower meter)) ;;
  emit (GaugeVecSet instantPower
          {[ kMeter := name; kPowerType := kApparentPower ]}
          (InstantApparentPower meter)) ;;
  emit (GaugeVecSet instantAverageVoltage {[ kMeter := name ]}
          (InstantAverageVoltage meter)) ;;
  emit (GaugeVecSet instantTotalCurrent {[ kMeter := name ]}
          (InstantTotalCurrent meter)) ;;
  prior ← readPrior mt kTo;
  let delta := PrimFloat.sub (CumulativeEnergyTo meter) prior in
  storePrior mt kTo (CumulativeEnergyTo meter) ;;
  (if PrimFloat.ltb delta 0 then
     if PrimFloat.ltb delta (PrimFloat.opp epsilon) then
       emit (glog_Warningf "Meter %s cumulative energy to decreased: %.4f"
               [ArgString name; ArgFloat delta])
     else mret tt
   else
     emit (cumulativePowerAdd {[ kMeter := name; kDirection := kTo ]} delta)) ;;
  prior ← readPrior mt kFrom;
  let delta := PrimFloat.sub (CumulativeEnergyFrom meter) prior in
  (if PrimFloat.ltb delta 0 then
     if PrimFloat.ltb delta (PrimFloat.opp epsilon) then
       emit (glog_Warningf "Meter %s cumulative energy from decreased: %.4f"
               [ArgString name; ArgFloat delta])
     else mret tt
   else
     emit (cumulativePowerAdd {[ kMeter := name; kDirection := kFrom ]} delta)) ;;
  storePrior mt kFrom (CumulativeEnergyFrom meter).

(** The body of the loop over [m.NetworkInterfaces]. *)
Definition updateNetwork (net : NetworkInterfaceDetails) : Action unit :=
  let labels : gmap string string :=
    {[ kInterface := powerwall.NetworkInterface_String (Transport net) ]} in
  emit (GaugeVecSet networkEnabled labels (boolToFloat (Enabled net))) ;;
  emit (GaugeVecSet networkActive labels (boolToFloat (Active net))) ;;
  emit (GaugeVecSet networkPrimary labels (boolToFloat (Primary net))) ;;
  emit (GaugeVecSet networkSignalStrength labels
          (float64_of_int64 (SignalStrength net))).

Section Update.
(** Go leaves the order in which [range] walks a map open; these give
    the order of one walk. *)
Variable rangeNetworkInterfaces :
  gmap powerwall.NetworkInterface NetworkInterfaceDetails →
  list (powerwall.NetworkInterface * NetworkInterfaceDetails).
Variable rangeMeters :
  gmap MeterType MeterDetails → list (MeterType * MeterDetails).

Definition Update (m : TeslaEnergyGatewayMetrics) : Action unit :=
  emit (GaugeSet powerwallChargePercent (PowerwallChargePercent m)) ;;
  (if decide (Mode m = powerwall.Backup)
   then emit (GaugeSet backupMode 1)
   else emit (GaugeSet backupMode 0)) ;;
  (if decide (Mode m = powerwall.SelfConsumption)
   then emit (GaugeSet selfConsumptionMode 1)
   else emit (GaugeSet selfConsumptionMode 0)) ;;
  emit (GaugeSet backupReservePercent (BackupReservePercent m)) ;;
  emit (GaugeSet uptimeSeconds
          (PrimFloat.div (float64_of_int64 (Uptime m))
                         (float64_of_int64 time.Second))) ;;
  emit (GaugeSet majorVersion (float64_of_int64 (Major (Version m)))) ;;
  emit (GaugeSet minorVersion (float64_of_int64 (Minor (Version m)))) ;;
  emit (GaugeSet releaseVersion (float64_of_int64 (Release (Version m)))) ;;
  let fs := fmt.Sprintf_02d_02d_02d (Major (Version m)) (Minor (Version m))
                                    (Release (Version m)) in
  flat ← try (strconv.ParseInt fs);
  emit (GaugeSet flattenedVersion (float64_of_int64 flat)) ;;
  forEach (rangeNetworkInterfaces (NetworkInterfaces m))
          (λ kv, updateNetwork kv.2) ;;
  emit (GaugeSet siteMasterRunning (boolToFloat (SiteMasterRunning m))) ;;
  emit (GaugeSet siteMasterConnectedToTesla
          (boolToFloat (SiteMasterConnectedToTesla m))) ;;
  emit (GaugeSet siteMasterSupplyingPower
          (boolToFloat (SiteMasterSupplyingPower m))) ;;
  forEach (rangeMeters (Meters m)) (λ kv, updateMeter kv.1 kv.2) ;;
  emit (GaugeSet gridConnected (boolToFloat (GridConnected m))) ;;
  emit (GaugeSet gridActive (boolToFloat (GridActive m))).
End Update.

(** The instruments [New] registers, in the order of [cols]. *)
Inductive Collector : Type :=
| GaugeCollector (g : Gauge)
| GaugeVecCollector (g : GaugeVec)
| cumulativePower.

Definition cols : list Collector :=
  [ GaugeCollector powerwallChargePercent; GaugeCollector nominalSystemEnergykWh;
    GaugeCollector nominalSystemPowerkW; GaugeCollector numPowerwalls;
    GaugeCollector totalSolarRatingWatts; GaugeCollector backupMode;
    GaugeCollector selfConsumptionMode; GaugeCollector backupReservePercent;
    GaugeCollector uptimeSeconds; GaugeCollector majorVersion;
    GaugeCollector minorVersion; GaugeCollector releaseVersion;
    GaugeCollector flattenedVersion; GaugeVecCollector networkActive;
    GaugeVecCollector networkEnabled; GaugeVecCollector networkPrimary;
    GaugeVecCollector networkSignalStrength; GaugeCollector siteMasterRunning;
    GaugeCollector siteMasterConnectedToTesla;
    GaugeCollector siteMasterSupplyingPower; GaugeVecCollector instantPower;
    cumulativePower; GaugeVecCollector instantAverageVoltage;
    GaugeVecCollector instantTotalCurrent; GaugeCollector gridConnected;
    GaugeCollector gridActive ].

Section New.
(** [prometheus.Register]: the registry's answer for each collector. *)
Variable Register : Collector → option error.

Fixpoint registerAll (cs : list Collector) : option error :=
  match cs with
  | [] => None
  | c :: cs' =>
      match Register c with
      | Some err => Some err
      | None => registerAll cs'
      end
  end.

Definition New (fixed : FixedInfo) : result PrometheusCounters * list Event :=
  let evs :=
    [ GaugeSet nominalSystemEnergykWh (NominalSystemEnergykWh fixed);
      GaugeSet nominalSystemPowerkW (NominalSystemPowerkW fixed);
      GaugeSet numPowerwalls (float64_of_int64 (NumPowerwalls fixed));
      GaugeSet totalSolarRatingWatts
        (float64_of_int64 (TotalSolarPowerRatingWatts fixed)) ] in
  match registerAll cols with
  | Some err => (Err err, evs)
  | None =>
      (Ok {| priorCumulative :=
               fold_left (λ acc mt, <[mt := ∅]> acc)
                         [Total; Solar; Battery; Load] ∅ |},
       evs)
  end.
End New.
End view.

(** ** package http: the metrics server *)

Module http.
End http.

(** ** package controller: one poll cycle *)

Module controller.

Record PollEngine : Type := {
  mon : powerwall.Monitor;
  fixed : model.FixedInfo;
  view : view.PrometheusCounters
}.

Section poll.
Variable rangeNetworkInterfaces :
  gmap powerwall.NetworkInterface model.NetworkInterfaceDetails →
  list (powerwall.NetworkInterface * model.NetworkInterfaceDetails).
Variable rangeMeters :
  gmap model.MeterType model.MeterDetails →
  list (model.MeterType * model.MeterDetails).

Definition poll (p : PollEngine) : option error * PollEngine * list Event :=
  match model.Poll (mon p) (fixed p) with
  | Err err => (Some err, p, [])
  | Ok stats =>
      match view.Update rangeNetworkInterfaces rangeMeters stats (view p) with
      | (Ok _, v, evs) =>
          (None, {| mon := mon p; fixed := fixed p; view := v |}, evs)
      | (Err err, v, evs) =>
          (Some err, {| mon := mon p; fixed := fixed p; view := v |}, evs)
      end
  end.
End poll.

Section serve.
Variable rangeNetworkInterfaces :
  gmap powerwall.NetworkInterface model.NetworkInterfaceDetails →
  list (powerwall.NetworkInterface * model.NetworkInterfaceDetails).
Variable rangeMeters :
  gmap model.MeterType model.MeterDetails →
  list (model.MeterType * model.MeterDetails).

(** One request to the metrics path; [before] and [after] are the two
    readings of the clock. *)
Definition ServeHTTP (before after : Z) (p : PollEngine)
    : PollEngine * list Effect :=
  match poll rangeNetworkInterfaces rangeMeters p with
  | (Some err, p', evs) =>
      (p',
       (Instrument <$> evs)
       ++ [ Instrument (glog_Errorf "PollEngine.pollOnce(): %v" [ArgError err]);
            WriteHeader 500 ])
  | (None, p', evs) =>
      let elapsed := int64 (after - before) in
      (p',
       (Instrument <$> evs)
       ++ [ glog_Infof "Successfully polled the gateway stats in %s" elapsed;
            promHandler_ServeHTTP ])
  end.

(** [prometheus.Register]: the registry's answer for each collector. *)
Variable Register : view.Collector → option error.

End serve.
End controller.

(** ** Vocabulary of the properties *)

(** A non-empty string of decimal digits. *)
Fixpoint allDigits (s : string) : bool :=
  match s with
  | EmptyString => true
  | String c s' => regexp.digit c && allDigits s'
  end.

Definition numeric (s : string) : Prop := s ≠ EmptyString ∧ allDigits s = true.

(** The string starts with three numeric components separated by
    periods. *)
Definition threeLeadingComponents (s : string) : Prop :=
  ∃ a b c tail : string,
    s = (a ++ "." ++ b ++ "." ++ c ++ tail)%string
    ∧ numeric a ∧ numeric b ∧ numeric c.

(** A codec of an enumeration is driven by its table: a token of the
    table decodes to the value the table gives, any other string is
    refused with an error that names the type and the string, and no two
    values are displayed alike. *)
Definition tableDriven {A : Type} (table : gmap string A) (typeName : string)
    (unmarshal : A → json.Value → option error * A) (display : A → string)
    : Prop :=
  (∀ (a : A) (tok : string) (v : A),
      table !! tok = Some v → unmarshal a (json.JString tok) = (None, v))
  ∧ (∀ (a : A) (s : string),
      table !! s = None →
      (unmarshal a (json.JString s)).1
      = Some (Errorf ("unknown " ++ typeName ++ " %q") s))
  ∧ (∀ v w : A, v ≠ w → display v ≠ display w).

(** The events of a run that add to the counter of one meter and
    direction, and the warnings about one meter and direction. *)
Definition increments (meter direction : string) (evs : list Event) : list float :=
  omap (λ e, match e with
             | cumulativePowerAdd labels v =>
                 if decide (labels = {[ view.kMeter := meter;
                                        view.kDirection := direction ]})
                 then Some v else None
             | _ => None
             end) evs.

Definition warningFormat (direction : string) : string :=
  ("Meter %s cumulative energy " ++ direction ++ " decreased: %.4f")%string.

Definition warnings (meter direction : string) (evs : list Event) : list float :=
  omap (λ e, match e with
             | glog_Warningf format [ArgString name; ArgFloat v] =>
                 if decide (format = warningFormat direction ∧ name = meter)
                 then Some v else None
             | _ => None
             end) evs.

(** The cumulative reading of a meter in one direction. *)
Definition reading (meter : model.MeterDetails) (direction : string) : float :=
  if decide (direction = view.kTo) then model.CumulativeEnergyTo meter
  else model.CumulativeEnergyFrom meter.

(** The gauges [Update] writes before it builds the flattened version,
    in program order. *)
Definition gaugesBeforeFlatten (m : model.TeslaEnergyGatewayMetrics) : list Event :=
  [ GaugeSet powerwallChargePercent (model.PowerwallChargePercent m);
    GaugeSet backupMode
      (if decide (model.Mode m = powerwall.Backup) then 1 else 0)%float;
    GaugeSet selfConsumptionMode
      (if decide (model.Mode m = powerwall.SelfConsumption) then 1 else 0)%float;
    GaugeSet backupReservePercent (model.BackupReservePercent m);
    GaugeSet uptimeSeconds
      (PrimFloat.div (float64_of_int64 (model.Uptime m))
                     (float64_of_int64 time.Second));
    GaugeSet majorVersion (float64_of_int64 (model.Major (model.Version m)));
    GaugeSet minorVersion (float64_of_int64 (model.Minor (model.Version m)));
    GaugeSet releaseVersion (float64_of_int64 (model.Release (model.Version m))) ].

(** The string [fs] that [Update] parses back into the flattened
    version. *)
Definition flattenedString (m : model.TeslaEnergyGatewayMetrics) : string :=
  fmt.Sprintf_02d_02d_02d (model.Major (model.Version m))
    (model.Minor (model.Version m)) (model.Release (model.Version m)).

(** The events of the loop over the network interfaces. *)
Definition networkEvents
    (l : list (powerwall.NetworkInterface * model.NetworkInterfaceDetails))
    : list Event :=
  l ≫= λ kv,
    let labels : gmap string string :=
      {[ view.kInterface := powerwall.NetworkInterface_String (model.Transport kv.2) ]} in
    [ GaugeVecSet networkEnabled labels (boolToFloat (model.Enabled kv.2));
      GaugeVecSet networkActive labels (boolToFloat (model.Active kv.2));
      GaugeVecSet networkPrimary labels (boolToFloat (model.Primary kv.2));
      GaugeVecSet networkSignalStrength labels
        (float64_of_int64 (model.SignalStrength kv.2)) ].

Definition siteMasterEvents (m : model.TeslaEnergyGatewayMetrics) : list Event :=
  [ GaugeSet siteMasterRunning (boolToFloat (model.SiteMasterRunning m));
    GaugeSet siteMasterConnectedToTesla
      (boolToFloat (model.SiteMasterConnectedToTesla m));
    GaugeSet siteMasterSupplyingPower
      (boolToFloat (model.SiteMasterSupplyingPower m)) ].

Definition gridEvents (m : model.TeslaEnergyGatewayMetrics) : list Event :=
  [ GaugeSet gridConnected (boolToFloat (model.GridConnected m));
    GaugeSet gridActive (boolToFloat (model.GridActive m)) ].

(** An event that touches the counter family [cumulativePower]. *)
Definition isCounterAdd (e : Event) : bool :=
  match e with cumulativePowerAdd _ _ => true | _ => false end.

(** The events one direction of one meter gives rise to, given the
    difference between the new reading and the stored one. *)
Definition directionEvents (name direction : string) (delta : float) : list Event :=
  if PrimFloat.ltb delta 0 then
    if PrimFloat.ltb delta (PrimFloat.opp view.epsilon)
    then [glog_Warningf (warningFormat direction) [ArgString name; ArgFloat delta]]
    else []
  else [cumulativePowerAdd {[ view.kMeter := name; view.kDirection := direction ]}
                           delta].

(** The events of one round of the loop over the meters, given the
    readings stored before the round. *)
Definition meterEvents (mt : model.MeterType) (meter : model.MeterDetails)
    (priorTo priorFrom : float) : list Event :=
  let name := model.MeterType_String mt in
  [ GaugeVecSet instantPower
      {[ view.kMeter := name; view.kPowerType := view.kTruePower ]}
      (model.InstantPower meter);
    GaugeVecSet instantPower
      {[ view.kMeter := name; view.kPowerType := view.kReactivePower ]}
      (model.InstantReactivePower meter);
    GaugeVecSet instantPower
      {[ view.kMeter := name; view.kPowerType := view.kApparentPower ]}
      (model.InstantApparentPower meter);
    GaugeVecSet instantAverageVoltage {[ view.kMeter := name ]}
      (model.InstantAverageVoltage meter);
    GaugeVecSet instantTotalCurrent {[ view.kMeter := name ]}
      (model.InstantTotalCurrent meter) ]
  ++ directionEvents name view.kTo
       (PrimFloat.sub (model.CumulativeEnergyTo meter) priorTo)
  ++ directionEvents name view.kFrom
       (PrimFloat.sub (model.CumulativeEnergyFrom meter) priorFrom).

(** What one run does for one meter and direction: the new reading is
    stored whatever the difference; a difference that is not negative is
    added to the counter; a negative one is not, and is warned about when
    it is below minus epsilon. *)
Definition directionOutcome (p p' : view.PrometheusCounters) (evs : list Event)
    (mt : model.MeterType) (meter : model.MeterDetails) (direction : string)
    : Prop :=
  let delta := PrimFloat.sub (reading meter direction) (view.prior p mt direction) in
  view.prior p' mt direction = reading meter direction
  ∧ increments (model.MeterType_String mt) direction evs
    = (if PrimFloat.ltb delta 0 then [] else [delta])
  ∧ warnings (model.MeterType_String mt) direction evs
    = (if PrimFloat.ltb delta 0 && PrimFloat.ltb delta (PrimFloat.opp view.epsilon)
       then [delta] else []).

(** The string has a period followed by a digit somewhere. *)
Definition hasFraction (s : string) : Prop :=
  ∃ a ds b : string, s = (a ++ "." ++ ds ++ b)%string ∧ numeric ds.

(** Some endpoint the projection asks answers with an error. *)
Definition endpointFails (mon : powerwall.Monitor) : Prop :=
  is_Err (powerwall.GetOperation mon) ∨ is_Err (powerwall.GetStatus mon)
  ∨ is_Err (powerwall.GetNetworks mon) ∨ is_Err (powerwall.GetSiteMaster mon)
  ∨ is_Err (powerwall.GetAggregates mon) ∨ is_Err (powerwall.GetSOE mon)
  ∨ is_Err (powerwall.GetGridStatus mon).

(** ** Vocabulary of the further properties *)

(** A JSON value that is neither a string nor [null]. *)
Definition notStringNorNull (b : json.Value) : Prop :=
  match b with json.JString _ | json.JNull => False | _ => True end.

(** What a codec of an enumeration does when it refuses its input: a
    value that is not a string leaves the receiver alone; a string that
    is not in the table, and [null], which reads as the empty string,
    overwrite it with the zero value of the type. *)
Definition refusals {A : Type} (table : gmap string A) (zero : A)
    (unmarshal : A → json.Value → option error * A) : Prop :=
  (∀ (a : A) (b : json.Value),
      notStringNorNull b →
      ∃ kind, unmarshal a b = (Some (UnmarshalTypeError kind "string"), a))
  ∧ (∀ (a : A) (s : string),
      table !! s = None →
      (unmarshal a (json.JString s)).2 = zero)
  ∧ (∀ a : A, unmarshal a json.JNull = unmarshal a (json.JString "")
              ∧ (unmarshal a json.JNull).1 ≠ None).

(** Every value is the image of exactly one token of the table. *)
Definition oneTokenPerValue {A : Type} (table : gmap string A) : Prop :=
  ∀ v : A, ∃ tok : string,
    table !! tok = Some v ∧ ∀ tok', table !! tok' = Some v → tok' = tok.

(** The display string of no value is accepted by the codec. *)
Definition displayNotDecoded {A : Type}
    (unmarshal : A → json.Value → option error * A) (display : A → string)
    : Prop :=
  ∀ a v : A, (unmarshal a (json.JString (display v))).1 ≠ None.

(** The error of a result, if it is one. *)
Definition errorOf {A : Type} (r : result A) : option error :=
  match r with Ok _ => None | Err e => Some e end.

(** The first of a list of possible errors. *)
Fixpoint firstOf (l : list (option error)) : option error :=
  match l with
  | [] => None
  | Some e :: _ => Some e
  | None :: l' => firstOf l'
  end.

(** The error of the first step of a poll that fails, in the order in
    which the projection takes its steps; the step for the status fails
    on its endpoint or on the version it reports. *)
Definition firstError (mon : powerwall.Monitor) : option error :=
  firstOf [ errorOf (powerwall.GetOperation mon);
            errorOf (model.getStatus mon model.zeroMetrics);
            errorOf (powerwall.GetNetworks mon);
            errorOf (powerwall.GetSiteMaster mon);
            errorOf (powerwall.GetAggregates mon);
            errorOf (powerwall.GetSOE mon);
            errorOf (powerwall.GetGridStatus mon) ].

#[global] Instance Gauge_eq_dec : EqDecision Gauge.
Proof. solve_decision. Defined.
#[global] Instance GaugeVec_eq_dec : EqDecision GaugeVec.
Proof. solve_decision. Defined.
#[global] Instance Collector_eq_dec : EqDecision view.Collector.
Proof. solve_decision. Defined.

(** The values a run writes to one scalar gauge, in program order. *)
Definition gaugeWrites (g : Gauge) (evs : list Event) : list float :=
  omap (λ e, match e with
             | GaugeSet g' v => if decide (g' = g) then Some v else None
             | _ => None
             end) evs.

(** The gauges of the fixed fields, which [view.New] sets. *)
Definition fixedGauges : list Gauge :=
  [ nominalSystemEnergykWh; nominalSystemPowerkW; numPowerwalls;
    totalSolarRatingWatts ].

(** What the loop over the meters may do: write to the three gauge
    families of the meters, warn, and add to the counter of a meter and
    direction a value that is not below zero. *)
Definition fromMeterLoop (e : Event) : Prop :=
  match e with
  | GaugeVecSet g _ _ =>
      g = instantPower ∨ g = instantAverageVoltage ∨ g = instantTotalCurrent
  | cumulativePowerAdd labels v =>
      PrimFloat.ltb v 0 = false
      ∧ ∃ (mt : model.MeterType) (direction : string),
          (direction = view.kTo ∨ direction = view.kFrom)
          ∧ labels = {[ view.kMeter := model.MeterType_String mt;
                        view.kDirection := direction ]}
  | glog_Warningf _ _ => True
  | GaugeSet _ _ | glog_Errorf _ _ => False
  end.

(** The engines the controller can hold: the one [Run] builds on the
    counters of [view.New], and what a poll cycle leaves behind, whatever
    the gateway answers in that cycle. *)
Inductive reachable (Register : view.Collector → option error)
    (rangeNetworkInterfaces :
       gmap powerwall.NetworkInterface model.NetworkInterfaceDetails →
       list (powerwall.NetworkInterface * model.NetworkInterfaceDetails))
    (rangeMeters : gmap model.MeterType model.MeterDetails →
                   list (model.MeterType * model.MeterDetails))
    : controller.PollEngine → Prop :=
| reachable_Run (answers : powerwall.Monitor) (fixed : model.FixedInfo)
      (v : view.PrometheusCounters) :
    (view.New Register fixed).1 = Ok v →
    reachable Register rangeNetworkInterfaces rangeMeters
      {| controller.mon := answers; controller.fixed := fixed;
         controller.view := v |}
| reachable_poll (p : controller.PollEngine) (answers : powerwall.Monitor) :
    reachable Register rangeNetworkInterfaces rangeMeters p →
    reachable Register rangeNetworkInterfaces rangeMeters
      (controller.poll rangeNetworkInterfaces rangeMeters
         {| controller.mon := answers; controller.fixed := controller.fixed p;
            controller.view := controller.view p |}).1.2.

(** Every character of the string is in the class; the string starts
    with a character of the class. *)
Fixpoint allChars (p : ascii → bool) (s : string) : bool :=
  match s with
  | EmptyString => true
  | String c s' => p c && allChars p s'
  end.

Definition startsWith (p : ascii → bool) (s : string) : bool :=
  match s with
  | EmptyString => false
  | String c _ => p c
  end.

(** The number a string of decimal digits denotes, read after the digits
    of [n]. *)
Fixpoint decimalFrom (n : Z) (s : string) : Z :=
  match s with
  | EmptyString => n
  | String c s' => decimalFrom (n * 10 + default 0%Z (strconv.digit_val c)) s'
  end.

Definition decimal (s : string) : Z := decimalFrom 0 s.

(** The order of versions: by major, then minor, then release. *)
Definition versionLt (v w : model.SoftwareVersion) : Prop :=
  (model.Major v < model.Major w
   ∨ model.Major v = model.Major w
     ∧ (model.Minor v < model.Minor w
        ∨ model.Minor v = model.Minor w ∧ model.Release v < model.Release w))%Z.

(** Every component of the version is between 0 and 99. *)
Definition twoDigitComponents (v : model.SoftwareVersion) : Prop :=
  (0 ≤ model.Major v ≤ 99 ∧ 0 ≤ model.Minor v ≤ 99 ∧ 0 ≤ model.Release v ≤ 99)%Z.

(** A character other than the period. *)
Definition notPeriod (c : ascii) : bool := negb (Ascii.eqb "." c).

(** ** Concrete surroundings used to exercise the properties *)

(** A machine without a time zone database: only the names that
    [time.LoadLocation] answers by itself resolve. *)
Definition LoadLocation_without_database (name : string) : result time.Location :=
  if String.eqb name "" || String.eqb name "UTC"
  then Ok {| time.locName := "UTC" |}
  else Err (UnknownTimeZone name).

(** Metrics that are zero but for the version and the meters. *)
Definition metricsWith (v : model.SoftwareVersion)
    (meters : gmap model.MeterType model.MeterDetails)
    : model.TeslaEnergyGatewayMetrics :=
  {| model.Fixed := model.Fixed model.zeroMetrics;
     model.Mode := powerwall.Backup;
     model.BackupReservePercent := 0;
     model.Uptime := 0;
     model.Version := v;
     model.NetworkInterfaces := ∅;
     model.SiteMasterRunning := false;
     model.SiteMasterConnectedToTesla := false;
     model.SiteMasterSupplyingPower := false;
     model.Meters := meters;
     model.PowerwallChargePercent := 0;
     model.GridConnected := false;
     model.GridActive := false |}.

(** A meter that reports nothing but its two cumulative readings. *)
Definition meterWith (to from : float) : model.MeterDetails :=
  {| model.InstantPower := 0; model.InstantReactivePower := 0;
     model.InstantApparentPower := 0;
     model.CumulativeEnergyTo := to; model.CumulativeEnergyFrom := from;
     model.InstantAverageVoltage := 0; model.InstantTotalCurrent := 0 |}.

(** The counters as [view.New] leaves them when every registration
    succeeds. *)
Definition freshCounters : view.PrometheusCounters :=
  match (view.New (λ _, None) (model.Fixed model.zeroMetrics)).1 with
  | Ok p => p
  | Err _ => {| view.priorCumulative := ∅ |}
  end.

(** Counters whose stored readings for the site meter are the given
    ones. *)
Definition countersWith (to from : float) : view.PrometheusCounters :=
  {| view.priorCumulative :=
       <[model.Total := {[ view.kTo := to; view.kFrom := from ]}]>
         (view.priorCumulative freshCounters) |}.

(** One walk of a map, in the order of its list of entries. *)
Definition walk {K V : Type} `{Countable K} (m : gmap K V) : list (K * V) :=
  map_to_list m.

(** A gateway that answers every endpoint; its status reports the given
    version, its site meter the given cumulative readings. *)
Definition zeroMeter : powerwall.MeterDetails :=
  {| powerwall.InstantPower := 0; powerwall.InstantReactivePower := 0;
     powerwall.InstantApparentPower := 0; powerwall.EnergyExported := 0;
     powerwall.EnergyImported := 0; powerwall.InstantAverageVoltage := 0;
     powerwall.InstantTotalCurrent := 0 |}.

Definition siteMeter (imported exported : float) : powerwall.MeterDetails :=
  {| powerwall.InstantPower := 0; powerwall.InstantReactivePower := 0;
     powerwall.InstantApparentPower := 0; powerwall.EnergyExported := exported;
     powerwall.EnergyImported := imported; powerwall.InstantAverageVoltage := 0;
     powerwall.InstantTotalCurrent := 0 |}.

Definition gateway (version : string) (imported exported : float)
    (gridStatus : result powerwall.GridStatus) : powerwall.Monitor :=
  {| powerwall.GetNetworks := Ok [];
     powerwall.GetOperation :=
       Ok {| powerwall.RealMode := powerwall.SelfConsumption;
             powerwall.Operation_BackupReservePercent := 20 |};
     powerwall.GetStatus :=
       Ok {| powerwall.StartTime := {| powerwall.t := time.zero |};
             powerwall.UpTime := {| powerwall.d := 0 |};
             powerwall.Version := version |};
     powerwall.GetSiteMaster :=
       Ok {| powerwall.Running := true; powerwall.ConnectedToTesla := true;
             powerwall.PowerSupplyMode := false |};
     powerwall.GetAggregates :=
       Ok {| powerwall.Site := siteMeter imported exported;
             powerwall.Battery := zeroMeter; powerwall.Load := zeroMeter;
             powerwall.Solar := zeroMeter |};
     powerwall.GetSOE := Ok {| powerwall.Percentage := 50 |};
     powerwall.GetGridStatus := gridStatus |}.

Definition gridUp : result powerwall.GridStatus :=
  Ok {| powerwall.GridStatus_Status := powerwall.GridConnected;
        powerwall.GridStatus_Active := false |}.

(** A network of the given name on the given interface. *)
Definition network (name : string) (iface : powerwall.NetworkInterface)
    : powerwall.Network :=
  {| powerwall.Network_Name := name; powerwall.Network_Interface := iface;
     powerwall.Network_Enabled := true; powerwall.Network_Active := true;
     powerwall.Network_Primary := false;
     powerwall.Network_Info := {| powerwall.NetworkInfo_SignalStrength := 0 |} |}.

(** The same gateway with another answer of the endpoint for the
    networks, or of the one for the state of charge. *)
Definition withNetworks (networks : result (list powerwall.Network))
    (mon : powerwall.Monitor) : powerwall.Monitor :=
  {| powerwall.GetNetworks := networks;
     powerwall.GetOperation := powerwall.GetOperation mon;
     powerwall.GetStatus := powerwall.GetStatus mon;
     powerwall.GetSiteMaster := powerwall.GetSiteMaster mon;
     powerwall.GetAggregates := powerwall.GetAggregates mon;
     powerwall.GetSOE := powerwall.GetSOE mon;
     powerwall.GetGridStatus := powerwall.GetGridStatus mon |}.

Definition withSOE (soe : result powerwall.SOE)
    (mon : powerwall.Monitor) : powerwall.Monitor :=
  {| powerwall.GetNetworks := powerwall.GetNetworks mon;
     powerwall.GetOperation := powerwall.GetOperation mon;
     powerwall.GetStatus := powerwall.GetStatus mon;
     powerwall.GetSiteMaster := powerwall.GetSiteMaster mon;
     powerwall.GetAggregates := powerwall.GetAggregates mon;
     powerwall.GetSOE := soe;
     powerwall.GetGridStatus := powerwall.GetGridStatus mon |}.

(** A gateway at start-up with the given Powerwalls and solar arrays. *)
Definition startup (serials : list string) (ratings : list Z)
    : powerwall.StartupMonitor :=
  {| powerwall.GetSiteInfo :=
       Ok {| powerwall.SiteInfo_SiteName := "home";
             powerwall.SiteInfo_TimeZone := {| powerwall.loc := None |};
             powerwall.SiteInfo_NominalSystemEnergykWh := 27;
             powerwall.SiteInfo_NominalSystemPowerkW := 10 |};
     powerwall.GetPowerwalls :=
       Ok {| powerwall.Powerwalls_Powerwalls :=
               (λ sn, {| powerwall.PackageSerialNumber := sn |}) <$> serials |};
     powerwall.GetConfig := Ok {| powerwall.Config_VIN := "vin" |};
     powerwall.GetSolars :=
       Ok ((λ w, {| powerwall.PowerRatingWatts := w |}) <$> ratings) |}.

(* ================================================================= *)
(** * Part II: properties *)
(* ================================================================= *)

(** ** Strings *)

Lemma string_app_nil_r (s : string) : (s ++ "")%string = s.
Proof.
  induction s as [|c s IH]; [done|].
  change (String c (s ++ "") = String c s). by rewrite IH.
Qed.

Lemma string_app_assoc (a b c : string) :
  ((a ++ b) ++ c)%string = (a ++ (b ++ c))%string.
Proof.
  induction a as [|x a IH]; [done|].
  change (String x ((a ++ b) ++ c) = String x (a ++ (b ++ c))). by rewrite IH.
Qed.

Lemma string_length_app (a b : string) :
  String.length (a ++ b) = String.length a + String.length b.
Proof.
  induction a as [|x a IH]; [done|].
  change (S (String.length (a ++ b)) = S (String.length a + String.length b)).
  by rewrite IH.
Qed.

(** ** The matcher only finds what the pattern denotes *)

Section exec_sound.
Import regexp.
Context {R : Type}.

Lemma iterate_sound (r : Regexp) (g : bool) :
  sound_at (R:=R) r (exec r) →
  ∀ fuel, sound_at (R:=R) (Star g r) (λ t k, iterate (exec r) g fuel t k).
Proof.
  intros Hr fuel. induction fuel as [|fuel IH]; intros t k x Hrun.
  - exists EmptyString, t. cbn in *. rewrite Nat.add_0_r.
    repeat split; [constructor | done].
  - cbn in Hrun.
    assert (Hleave : k t = Some x →
      ∃ w t', rest t = (w ++ rest t')%string
              ∧ pos t' = pos t + String.length w
              ∧ matches (Star g r) (pos t) w (rest t') ∧ k t' = Some x).
    { intros Hk. exists EmptyString, t. cbn. rewrite Nat.add_0_r.
      repeat split; [constructor | done]. }
    assert (Hround :
      exec r t (λ t', if (String.length (rest t') <? String.length (rest t))%nat
                      then iterate (exec r) g fuel t' k else None) = Some x →
      ∃ w t', rest t = (w ++ rest t')%string
              ∧ pos t' = pos t + String.length w
              ∧ matches (Star g r) (pos t) w (rest t') ∧ k t' = Some x).
    { intros Hx. apply Hr in Hx as (w1 & t1 & Hrest1 & Hpos1 & Hm1 & Hk1).
      destruct (String.length (rest t1) <? String.length (rest t))%nat; [|done].
      apply IH in Hk1 as (w2 & t2 & Hrest2 & Hpos2 & Hm2 & Hk2).
      exists (w1 ++ w2)%string, t2. split_and!.
      - by rewrite Hrest1, Hrest2, string_app_assoc.
      - rewrite Hpos2, Hpos1, string_length_app. lia.
      - eapply matches_star_cons.
        + by rewrite <- Hrest2.
        + by rewrite <- Hpos1.
      - done. }
    destruct g.
    + destruct (exec r t _) eqn:Hx; [apply Hround; by simplify_eq | by apply Hleave].
    + destruct (k t) eqn:Hk; [apply Hleave; by simplify_eq | by apply Hround].
Qed.

Lemma exec_sound (r : Regexp) : sound_at (R:=R) r (exec r).
Proof.
  induction r as [|p|r1 IH1 r2 IH2|g r IH|g r IH|g r IH|idx name r IH| |];
    intros t k x Hrun; cbn [exec] in Hrun.
  - exists EmptyString, t. cbn. rewrite Nat.add_0_r.
    repeat split; [constructor | done].
  - destruct t as [i [|c s'] cp]; cbn in *; [done|].
    destruct (p c) eqn:Hp; [|done].
    exists (String c EmptyString), (Thread (S i) s' cp). cbn.
    split_and!; [done | lia | by constructor | done].
  - apply IH1 in Hrun as (w1 & t1 & Hrest1 & Hpos1 & Hm1 & Hk1).
    apply IH2 in Hk1 as (w2 & t2 & Hrest2 & Hpos2 & Hm2 & Hk2).
    exists (w1 ++ w2)%string, t2. split_and!.
    + by rewrite Hrest1, Hrest2, string_app_assoc.
    + rewrite Hpos2, Hpos1, string_length_app. lia.
    + constructor; [by rewrite <- Hrest2 | by rewrite <- Hpos1].
    + done.
  - assert (Hnone : k t = Some x →
      ∃ w t', rest t = (w ++ rest t')%string
              ∧ pos t' = pos t + String.length w
              ∧ matches (Quest g r) (pos t) w (rest t') ∧ k t' = Some x).
    { intros Hk. exists EmptyString, t. cbn. rewrite Nat.add_0_r.
      repeat split; [constructor | done]. }
    assert (Hsome : exec r t k = Some x →
      ∃ w t', rest t = (w ++ rest t')%string
              ∧ pos t' = pos t + String.length w
              ∧ matches (Quest g r) (pos t) w (rest t') ∧ k t' = Some x).
    { intros Hx. apply IH in Hx as (w & t' & ? & ? & ? & ?).
      exists w, t'. split_and!; [done..| |done]. by constructor. }
    destruct g.
    + destruct (exec r t k) eqn:Hx; [apply Hsome; by simplify_eq | by apply Hnone].
    + destruct (k t) eqn:Hk; [apply Hnone; by simplify_eq | by apply Hsome].
  - by apply (iterate_sound r g IH (S (String.length (rest t)))) in Hrun.
  - apply IH in Hrun as (w1 & t1 & Hrest1 & Hpos1 & Hm1 & Hk1).
    apply (iterate_sound r g IH (S (String.length (rest t1)))) in Hk1
      as (w2 & t2 & Hrest2 & Hpos2 & Hm2 & Hk2).
    exists (w1 ++ w2)%string, t2. split_and!.
    + by rewrite Hrest1, Hrest2, string_app_assoc.
    + rewrite Hpos2, Hpos1, string_length_app. lia.
    + constructor; [by rewrite <- Hrest2 | by rewrite <- Hpos1].
    + done.
  - apply IH in Hrun as (w & t' & Hrest & Hpos & Hm & Hk).
    exists w, (Thread (pos t') (rest t') (<[idx := (pos t, pos t')]> (cap t'))).
    cbn. split_and!; [done | done | by apply matches_capture | done].
  - destruct (pos t =? 0)%nat eqn:Hp; [|done].
    apply Nat.eqb_eq in Hp. exists EmptyString, t. cbn. rewrite Hp.
    repeat split; [constructor | done].
  - destruct (rest t) eqn:Hr; [|done].
    exists EmptyString, t. cbn. rewrite Hr, Nat.add_0_r.
    repeat split; [constructor | done].
Qed.
End exec_sound.

(** ** Integers *)

Lemma int64_mod (z : Z) : (int64 z mod 2 ^ 64 = z mod 2 ^ 64)%Z.
Proof.
  unfold int64.
  rewrite <- Zminus_mod_idemp_l, Z.mod_mod by lia.
  rewrite Zminus_mod_idemp_l. f_equal. lia.
Qed.

Lemma int64_congr (a b : Z) :
  (a mod 2 ^ 64 = b mod 2 ^ 64)%Z → int64 a = int64 b.
Proof.
  intros H. unfold int64.
  rewrite (Zplus_mod a), (Zplus_mod b), H. done.
Qed.

Lemma int64_add (a b : Z) : int64 (int64 a + int64 b) = int64 (a + b).
Proof.
  apply int64_congr.
  by rewrite Zplus_mod, !int64_mod, <- Zplus_mod.
Qed.

Lemma int64_mul_l (a b : Z) : int64 (int64 a * b) = int64 (a * b).
Proof.
  apply int64_congr.
  by rewrite Zmult_mod, int64_mod, <- Zmult_mod.
Qed.

(** ** Enumerations *)

Section enum_codecs.
Import powerwall json.

Lemma NetworkInterface_tableDriven :
  tableDriven stringToInterface "NetworkInterface"
              NetworkInterface_UnmarshalJSON NetworkInterface_String.
Proof.
  split_and!.
  - intros a tok v H. unfold NetworkInterface_UnmarshalJSON. cbn. by rewrite H.
  - intros a s H. unfold NetworkInterface_UnmarshalJSON. cbn. by rewrite H.
  - by intros [] [].
Qed.

Lemma OperatingMode_tableDriven :
  tableDriven stringToOperatingMode "OperatingMode"
              OperatingMode_UnmarshalJSON OperatingMode_String.
Proof.
  split_and!.
  - intros a tok v H. unfold OperatingMode_UnmarshalJSON. cbn. by rewrite H.
  - intros a s H. unfold OperatingMode_UnmarshalJSON. cbn. by rewrite H.
  - by intros [] [].
Qed.

Lemma SystemStatus_tableDriven :
  tableDriven stringToSystemStatus "SystemStatus"
              SystemStatus_UnmarshalJSON SystemStatus_String.
Proof.
  split_and!.
  - intros a tok v H. unfold SystemStatus_UnmarshalJSON. cbn. by rewrite H.
  - intros a s H. unfold SystemStatus_UnmarshalJSON. cbn. by rewrite H.
  - by intros [] [].
Qed.

Lemma GridState_tableDriven :
  tableDriven stringToGridState "GridState"
              GridState_UnmarshalJSON GridState_String.
Proof.
  split_and!.
  - intros a tok v H. unfold GridState_UnmarshalJSON. cbn. by rewrite H.
  - intros a s H. unfold GridState_UnmarshalJSON. cbn. by rewrite H.
  - by intros [] [].
Qed.

(** C7: each of the four enumeration codecs (NetworkInterface,
    OperatingMode, SystemStatus, GridState) decodes every token of its
    table to exactly the value the table maps it to; decoding a string
    that is not a key of the table (the lookup compares strings
    exactly, so a change of case is a miss) returns an error that
    carries the offending string, never a default value without an
    error; and the display strings of two different values differ. *)
Theorem enum_codecs_table_driven :
  tableDriven stringToInterface "NetworkInterface"
              NetworkInterface_UnmarshalJSON NetworkInterface_String
  ∧ tableDriven stringToOperatingMode "OperatingMode"
                OperatingMode_UnmarshalJSON OperatingMode_String
  ∧ tableDriven stringToSystemStatus "SystemStatus"
                SystemStatus_UnmarshalJSON SystemStatus_String
  ∧ tableDriven stringToGridState "GridState"
                GridState_UnmarshalJSON GridState_String.
Proof.
  split_and!;
    [ apply NetworkInterface_tableDriven | apply OperatingMode_tableDriven
    | apply SystemStatus_tableDriven | apply GridState_tableDriven ].
Qed.

(** The tables hold exactly the tokens of the source. *)
Lemma enum_tables_domains :
  dom stringToInterface = {[ "EthType"; "GsmType"; "WifiType" ]}
  ∧ dom stringToOperatingMode
    = {[ "backup"; "self_consumption"; "autonomous"; "scheduler"; "site_control" ]}
  ∧ dom stringToSystemStatus
    = {[ "SystemGridConnected"; "SystemIslandedReady"; "SystemIslandedActive";
         "SystemTransitionToGrid" ]}
  ∧ dom stringToGridState
    = {[ "Grid_Compliant"; "Grid_Qualifying"; "Grid_Uncompliant" ]}.
Proof.
  unfold stringToInterface, stringToOperatingMode, stringToSystemStatus,
    stringToGridState.
  split_and!; rewrite ?dom_insert_L, ?dom_singleton_L; set_solver.
Qed.

(** A token decodes to its value, the same token in lower case is
    refused by name. *)
Lemma enum_codecs_table_driven_witness :
  NetworkInterface_UnmarshalJSON Wifi (JString "GsmType") = (None, Cellular)
  ∧ (NetworkInterface_UnmarshalJSON Wifi (JString "gsmtype")).1
    = Some (Errorf "unknown NetworkInterface %q" "gsmtype")
  ∧ GridState_String Compliant ≠ GridState_String Uncompliant.
Proof.
  destruct enum_codecs_table_driven as ((Hhit & Hmiss & _) & _ & _ & (_ & _ & Hshow)).
  split_and!.
  - apply Hhit. vm_compute. reflexivity.
  - apply Hmiss. vm_compute. reflexivity.
  - apply Hshow. discriminate.
Defined.
End enum_codecs.

(** ** The timezone codec *)

Section timezone_codec.
Import powerwall json.

(** C8: whatever the machine's time zone database is, when it cannot
    resolve the name given as a JSON string, [TimeZone.UnmarshalJSON]
    returns no error, leaves the receiver as it was (so a fresh value
    keeps no location), and hands one message to glog that names the
    zone and the reason. *)
Theorem TimeZone_unresolvable_is_logged
    (LoadLocation : string → result time.Location)
    (tz : TimeZone) (s : string) (reason : error) :
  LoadLocation s = Err reason →
  TimeZone_UnmarshalJSON LoadLocation tz (JString s)
  = (None, tz,
     [glog_Errorf
        "The server reports timezone %q, but we can't decode it because: %v"
        [ArgString s; ArgError reason]])
  ∧ (loc tz = None →
     Location (TimeZone_UnmarshalJSON LoadLocation tz (JString s)).1.2 = None).
Proof.
  intros H. unfold TimeZone_UnmarshalJSON. cbn. rewrite H. done.
Qed.
End timezone_codec.

Lemma TimeZone_unresolvable_is_logged_witness :
  powerwall.TimeZone_UnmarshalJSON LoadLocation_without_database
    {| powerwall.loc := None |} (json.JString "America/New_York")
  = (None, {| powerwall.loc := None |},
     [glog_Errorf
        "The server reports timezone %q, but we can't decode it because: %v"
        [ArgString "America/New_York";
         ArgError (UnknownTimeZone "America/New_York")]]).
Proof.
  apply (TimeZone_unresolvable_is_logged LoadLocation_without_database
           {| powerwall.loc := None |} "America/New_York"
           (UnknownTimeZone "America/New_York")).
  vm_compute. reflexivity.
Defined.

(** ** The structured-duration codec *)

Section duration_codec.
Import powerwall json.
Local Open Scope Z_scope.

(** C9: for every JSON string in which [uptimeRegex] finds no match at
    all, [Duration.UnmarshalJSON] returns no error and stores the zero
    duration: the loop over the captures has nothing to walk, and every
    read of the empty result map gives zero. *)
Theorem Duration_no_match_is_zero (d0 : Duration) (s : string) :
  regexp.FindStringSubmatch uptimeRegex s = [] →
  Duration_UnmarshalJSON d0 (JString s) = (None, {| d := 0 |}).
Proof.
  intros H. unfold Duration_UnmarshalJSON. cbn [Unmarshal_string].
  rewrite H. reflexivity.
Qed.

(** No seconds group ("12h30m") and an arbitrary string ("abc"). *)
Lemma Duration_no_match_is_zero_witness :
  Duration_UnmarshalJSON {| d := 7 |} (JString "12h30m") = (None, {| d := 0 |})
  ∧ Duration_UnmarshalJSON {| d := 7 |} (JString "abc") = (None, {| d := 0 |}).
Proof.
  split.
  - apply (Duration_no_match_is_zero {| d := 7 |} "12h30m"). vm_compute. reflexivity.
  - apply (Duration_no_match_is_zero {| d := 7 |} "abc"). vm_compute. reflexivity.
Defined.

(** The composition rule when all four named groups took part. *)
Lemma Duration_all_groups (d0 : Duration)
    (s whole g1 hours g3 minutes g5 seconds g7 nanoseconds : string)
    (h m sec ns : Z) :
  regexp.FindStringSubmatch uptimeRegex s
  = [whole; g1; hours; g3; minutes; g5; seconds; g7; nanoseconds] →
  strconv.ParseInt hours = Ok h →
  strconv.ParseInt minutes = Ok m →
  strconv.ParseInt seconds = Ok sec →
  strconv.ParseInt nanoseconds = Ok ns →
  Duration_UnmarshalJSON d0 (JString s)
  = (None, {| d := int64 (h * time.Hour + m * time.Minute
                          + sec * time.Second + ns * time.Nanosecond) |}).
Proof.
  intros Hfind Hh Hm Hs Hn. unfold Duration_UnmarshalJSON. cbn [Unmarshal_string].
  rewrite Hfind.
  change (regexp.SubexpNames uptimeRegex)
    with [""; ""; "hours"; ""; "minutes"; ""; "seconds"; ""; "nanoseconds"]%string.
  cbn [zip zip_with parseCaptures String.eqb Ascii.eqb Bool.eqb].
  rewrite Hh, Hm, Hs, Hn. cbn [parseCaptures].
  unfold get. do 2 f_equal.
  repeat (first [rewrite lookup_insert_eq | rewrite lookup_insert_ne by done]).
  cbn [default from_option]. unfold id.
  rewrite !int64_mul_l.
  rewrite (int64_add (h * time.Hour)), (int64_add (h * time.Hour + m * time.Minute)).
  by rewrite int64_add.
Qed.

(** C3 (amended): ["143h54m32.539257895s"] decodes to exactly 143 hours
    plus 54 minutes plus 32 seconds plus 539257895 nanoseconds: the digits
    after the separator are added as nanoseconds. In general, when the
    match has all four named groups and each parses as a base-10 [int64],
    the duration is hours, minutes, seconds and nanoseconds each times
    its unit, summed in [int64]. *)
Theorem Duration_decodes_all_four_groups :
  (∀ d0 : Duration,
     Duration_UnmarshalJSON d0 (JString "143h54m32.539257895s")
     = (None, {| d := 143 * time.Hour + 54 * time.Minute + 32 * time.Second
                      + 539257895 * time.Nanosecond |}))
  ∧ (∀ (d0 : Duration)
       (s whole g1 hours g3 minutes g5 seconds g7 nanoseconds : string)
       (h m sec ns : Z),
       regexp.FindStringSubmatch uptimeRegex s
       = [whole; g1; hours; g3; minutes; g5; seconds; g7; nanoseconds] →
       strconv.ParseInt hours = Ok h →
       strconv.ParseInt minutes = Ok m →
       strconv.ParseInt seconds = Ok sec →
       strconv.ParseInt nanoseconds = Ok ns →
       Duration_UnmarshalJSON d0 (JString s)
       = (None, {| d := int64 (h * time.Hour + m * time.Minute
                               + sec * time.Second + ns * time.Nanosecond) |})).
Proof.
  split.
  - intros d0.
    rewrite (Duration_all_groups d0 "143h54m32.539257895s"
               "143h54m32.539257895s" "143h" "143" "54m" "54" "32." "32"
               "539257895s" "539257895" 143 54 32 539257895);
      by vm_compute.
  - intros. by eapply Duration_all_groups.
Qed.

Lemma Duration_decodes_all_four_groups_witness :
  Duration_UnmarshalJSON {| d := 0 |} (JString "1h2m3.4s")
  = (None, {| d := 3723000000004 |}).
Proof.
  destruct Duration_decodes_all_four_groups as [_ H].
  rewrite (H {| d := 0 |} "1h2m3.4s" "1h2m3.4s" "1h" "1" "2m" "2" "3." "3" "4s" "4"
             1 2 3 4); by vm_compute.
Defined.

(** C3 as stated fails on the code: the example does not decode to 143
    hours, 54 minutes and 32 seconds exactly. *)
Lemma Duration_example_is_not_whole_seconds :
  Duration_UnmarshalJSON {| d := 0 |} (JString "143h54m32.539257895s")
  ≠ (None, {| d := 143 * time.Hour + 54 * time.Minute + 32 * time.Second |}).
Proof. vm_compute. discriminate. Qed.

(** A string with only seconds is refused: the captures of the hours and
    minutes groups are empty strings, and an empty string is not an
    integer. *)
Lemma Duration_seconds_only_is_refused :
  regexp.FindStringSubmatch uptimeRegex "5.0s"
  = [ "5.0s"; ""; ""; ""; ""; "5."; "5"; "0s"; "0" ]%string
  ∧ Duration_UnmarshalJSON {| d := 7 |} (JString "5.0s")
    = (Some (NumError "ParseInt" "" ErrSyntax), {| d := 7 |}).
Proof. split; vm_compute; reflexivity. Qed.
End duration_codec.

(** ** What a match of the search tells about the text *)

Section search.
Import regexp.

Lemma search_sound (re : Regexp) (s : string) :
  ∀ start b t,
    search re start s = Some (b, t) →
    ∃ pre w : string,
      s = (pre ++ w ++ rest t)%string
      ∧ b = start + String.length pre
      ∧ matches re b w (rest t).
Proof.
  induction s as [|c s IH]; intros start b t Hs; cbn [search] in Hs.
  - destruct (exec re (Thread start "" ∅) Some) as [t0|] eqn:Hx; [|done].
    simplify_eq. apply exec_sound in Hx as (w & t' & Hrest & Hpos & Hm & ?).
    simplify_eq. cbn in *. exists EmptyString, w. by rewrite Nat.add_0_r.
  - destruct (exec re (Thread start (String c s) ∅) Some) as [t0|] eqn:Hx.
    + simplify_eq. apply exec_sound in Hx as (w & t' & Hrest & Hpos & Hm & ?).
      simplify_eq. cbn in *. exists EmptyString, w. by rewrite Nat.add_0_r.
    + apply IH in Hs as (pre & w & -> & -> & Hm).
      exists (String c pre), w. cbn. split_and!; [done | lia | done].
Qed.

Lemma FindStringSubmatch_nil (re : Regexp) (s : string) :
  FindStringSubmatch re s = [] ↔ search re 0 s = None.
Proof.
  unfold FindStringSubmatch. destruct (search re 0 s) as [[b t]|]; split; done.
Qed.

Lemma FindStringSubmatch_length (re : Regexp) (s : string) :
  FindStringSubmatch re s ≠ [] →
  length (FindStringSubmatch re s) = S (NumSubexp re).
Proof.
  unfold FindStringSubmatch, NumSubexp.
  destruct (search re 0 s) as [[b t]|]; [|done].
  intros _. cbn. by rewrite length_fmap.
Qed.

(** A match anchored at the start of the text covers a prefix of it. *)
Lemma FindStringSubmatch_anchored (r : Regexp) (s : string) :
  FindStringSubmatch (Concat BeginText r) s ≠ [] →
  ∃ w tail : string, s = (w ++ tail)%string ∧ matches r 0 w tail.
Proof.
  intros H. rewrite FindStringSubmatch_nil in H.
  destruct (search (Concat BeginText r) 0 s) as [[b t]|] eqn:Hs; [|done].
  apply search_sound in Hs as (pre & w & -> & -> & Hm).
  inversion Hm as [| |r1 r2 i w1 w2 rem Hm1 Hm2| | | | | | | |]; simplify_eq.
  inversion Hm1; simplify_eq.
  destruct pre; [|done]. by exists w2, (rest t).
Qed.

Lemma matches_star_digits (g : bool) (i : nat) (w rem : string) :
  matches (Star g (CharClass digit)) i w rem → allDigits w = true.
Proof.
  remember (Star g (CharClass digit)) as r eqn:Hr. intros Hm.
  induction Hm as [| | | | | |g' r' i w1 w2 rem Hm1 _ Hm2 IH2| | | |]; try done.
  simplify_eq. inversion Hm1 as [|p c| | | | | | | | |]; simplify_eq.
  change (allDigits (String c w2) = true). cbn.
  rewrite IH2 by done. by rewrite andb_true_r.
Qed.

Lemma matches_plus_digits (g : bool) (i : nat) (w rem : string) :
  matches (Plus g (CharClass digit)) i w rem → numeric w.
Proof.
  intros Hm. inversion Hm as [| | | | | | |g' r' i' w1 w2 rem' Hm1 Hm2| | |]; simplify_eq.
  inversion Hm1 as [|p c| | | | | | | | |]; simplify_eq. split; [done|].
  change (allDigits (String c w2) = true). cbn.
  apply matches_star_digits in Hm2. rewrite Hm2. by rewrite andb_true_r.
Qed.

Lemma matches_lit (a : ascii) (i : nat) (w rem : string) :
  matches (lit a) i w rem → w = String a EmptyString.
Proof.
  unfold lit. intros Hm. inversion Hm; simplify_eq.
  by match goal with H : Ascii.eqb _ _ = true |- _ => apply Ascii.eqb_eq in H as -> end.
Qed.

Lemma matches_capture_inv idx name r i w rem :
  matches (Capture idx name r) i w rem → matches r i w rem.
Proof. intros Hm. by inversion Hm; simplify_eq. Qed.

Lemma matches_concat_inv r1 r2 i w rem :
  matches (Concat r1 r2) i w rem →
  ∃ w1 w2, w = (w1 ++ w2)%string
           ∧ matches r1 i w1 (w2 ++ rem)
           ∧ matches r2 (i + String.length w1) w2 rem.
Proof. intros Hm. inversion Hm; simplify_eq. eauto. Qed.
End search.

(** ** The version of the gateway *)

Section version.
Import powerwall model json.

Lemma versionRegex_sound (s : string) :
  regexp.FindStringSubmatch versionRegex s ≠ [] → threeLeadingComponents s.
Proof.
  intros H. apply FindStringSubmatch_anchored in H as (w & tail & -> & Hm).
  apply matches_concat_inv in Hm as (a & w1 & -> & Ha & Hm).
  apply matches_concat_inv in Hm as (d1 & w2 & -> & Hd1 & Hm).
  apply matches_concat_inv in Hm as (b & w3 & -> & Hb & Hm).
  apply matches_concat_inv in Hm as (d2 & c & -> & Hd2 & Hc).
  apply matches_capture_inv, matches_plus_digits in Ha, Hb, Hc.
  apply matches_lit in Hd1 as ->, Hd2 as ->.
  exists a, b, c, tail. split; [|done].
  by rewrite !string_app_assoc.
Qed.

(** A version string without three leading numeric components is
    refused by name. *)
Lemma getStatus_malformed_version (mon : Monitor)
    (p : TeslaEnergyGatewayMetrics) (status : Status) :
  GetStatus mon = Ok status →
  ¬ threeLeadingComponents (powerwall.Version status) →
  getStatus mon p
  = Err (Errorf "version %q unexpected, want A.B.C" (powerwall.Version status)).
Proof.
  intros Hst Hno. unfold getStatus. rewrite Hst. cbn [mbind result_bind].
  destruct (decide (regexp.FindStringSubmatch versionRegex (powerwall.Version status) = []))
    as [Hnil|Hmatch].
  - by rewrite Hnil.
  - by apply versionRegex_sound in Hmatch.
Qed.

Lemma getStatus_example (mon : Monitor) (p : TeslaEnergyGatewayMetrics)
    (status : Status) :
  GetStatus mon = Ok status →
  powerwall.Version status = "20.49.3" →
  ∃ p', getStatus mon p = Ok p'
        ∧ model.Version p' = {| Major := 20; Minor := 49; Release := 3 |}.
Proof.
  intros Hst Hv. unfold getStatus. rewrite Hst. cbn [mbind result_bind].
  rewrite Hv.
  change (regexp.FindStringSubmatch versionRegex "20.49.3")
    with ["20.49.3"; "20"; "49"; "3"]%string.
  cbn [length Nat.eqb negb nth].
  change (strconv.ParseInt "20") with (Ok 20%Z).
  change (strconv.ParseInt "49") with (Ok 49%Z).
  change (strconv.ParseInt "3") with (Ok 3%Z).
  cbn [mbind result_bind]. eexists. split; [reflexivity|]. reflexivity.
Qed.
End version.

(** ** The structure of one run of [Update] *)

Section update_structure.
Import model view.

Variable rangeNetworkInterfaces :
  gmap powerwall.NetworkInterface NetworkInterfaceDetails →
  list (powerwall.NetworkInterface * NetworkInterfaceDetails).
Variable rangeMeters :
  gmap MeterType MeterDetails → list (MeterType * MeterDetails).

Lemma bind_run {A B} (a : Action A) (f : A → Action B) (p : PrometheusCounters) :
  (a ≫= f) p
  = match a p with
    | (Ok x, p', evs) =>
        match f x p' with (r, p'', evs') => (r, p'', evs ++ evs') end
    | (Err err, p', evs) => (Err err, p', evs)
    end.
Proof. reflexivity. Qed.

Lemma forEach_updateNetwork
    (l : list (powerwall.NetworkInterface * NetworkInterfaceDetails))
    (p : PrometheusCounters) :
  forEach l (λ kv, updateNetwork kv.2) p = (Ok tt, p, networkEvents l).
Proof.
  induction l as [|kv l IH]; [done|].
  cbn [forEach]. rewrite bind_run.
  change (updateNetwork kv.2 p) with (Ok tt, p, networkEvents [kv]).
  cbv beta iota. rewrite IH. reflexivity.
Qed.

(** One run of [Update], in terms of the run of its loop over the
    meters. *)
Lemma Update_run (m : TeslaEnergyGatewayMetrics) (p : PrometheusCounters) :
  Update rangeNetworkInterfaces rangeMeters m p
  = match strconv.ParseInt (flattenedString m) with
    | Err err => (Err err, p, gaugesBeforeFlatten m)
    | Ok flat =>
        match forEach (rangeMeters (Meters m)) (λ kv, updateMeter kv.1 kv.2) p with
        | (r, p', mevs) =>
            (r, p',
             gaugesBeforeFlatten m
             ++ [GaugeSet flattenedVersion (float64_of_int64 flat)]
             ++ networkEvents (rangeNetworkInterfaces (NetworkInterfaces m))
             ++ siteMasterEvents m
             ++ mevs
             ++ match r with Ok _ => gridEvents m | Err _ => [] end)
        end
    end.
Proof.
  unfold Update, gaugesBeforeFlatten, flattenedString.
  destruct (decide (Mode m = powerwall.Backup));
    destruct (decide (Mode m = powerwall.SelfConsumption));
    unfold mbind, Action_bind, emit, try; cbv beta iota zeta;
    (destruct (strconv.ParseInt _) as [flat|err]; [|reflexivity]);
    cbv beta iota zeta;
    rewrite forEach_updateNetwork; cbv beta iota;
    destruct (forEach (rangeMeters (Meters m)) _ p) as [[[[]|err] p'] mevs];
    rewrite ?app_nil_r; reflexivity.
Qed.
End update_structure.

(** ** The flattened version *)

Section flattened_version.
Import powerwall model view.

(** C6: a status whose version is ["20.49.3"] projects to major 20,
    minor 49 and release 3; [Update] then formats each component with two
    digits at least, concatenates them to ["204903"] and sets the
    flattened-version gauge to 204903; and a version string that does not
    start with three numeric components separated by periods makes
    [getStatus], and with it the projection, fail with an error that
    carries the string as reported. *)
Theorem version_projection_and_flattening :
  (∀ (mon : Monitor) (p : TeslaEnergyGatewayMetrics) (status : Status),
      GetStatus mon = Ok status →
      powerwall.Version status = "20.49.3" →
      ∃ p', getStatus mon p = Ok p'
            ∧ model.Version p' = {| Major := 20; Minor := 49; Release := 3 |})
  ∧ (∀ rangeNetworkInterfaces rangeMeters
       (m : TeslaEnergyGatewayMetrics) (p : PrometheusCounters),
      model.Version m = {| Major := 20; Minor := 49; Release := 3 |} →
      flattenedString m = "204903"
      ∧ ∃ r p' evs,
          Update rangeNetworkInterfaces rangeMeters m p
          = (r, p',
             gaugesBeforeFlatten m ++ GaugeSet flattenedVersion 204903 :: evs))
  ∧ (∀ (mon : Monitor) (p : TeslaEnergyGatewayMetrics) (status : Status),
      GetStatus mon = Ok status →
      ¬ threeLeadingComponents (powerwall.Version status) →
      getStatus mon p
      = Err (Errorf "version %q unexpected, want A.B.C" (powerwall.Version status))).
Proof.
  split_and!.
  - apply getStatus_example.
  - intros rN rM m p Hv.
    assert (Hfs : flattenedString m = "204903").
    { unfold flattenedString. by rewrite Hv. }
    split; [done|].
    rewrite Update_run, Hfs.
    change (strconv.ParseInt "204903") with (Ok 204903%Z).
    destruct (forEach _ _ p) as [[r p'] mevs].
    by eexists r, p', _.
  - apply getStatus_malformed_version.
Qed.
End flattened_version.

(** ** [Update] is not atomic *)

Section update_not_atomic.
Import model view.

(** C10: when parsing the flattened version fails, [Update] returns that
    error after exactly eight gauges have been set (charge percent, the
    two mode flags, backup reserve, uptime, major, minor and release
    version); the receiver, and with it the stored cumulative readings, is
    unchanged and no event touches the cumulative counters. *)
Theorem Update_flatten_error_after_gauges
    rangeNetworkInterfaces rangeMeters
    (m : TeslaEnergyGatewayMetrics) (p : PrometheusCounters) (err : error) :
  strconv.ParseInt
    (fmt.Sprintf_02d_02d_02d (Major (Version m)) (Minor (Version m))
                             (Release (Version m))) = Err err →
  ∃ evs,
    Update rangeNetworkInterfaces rangeMeters m p = (Err err, p, evs)
    ∧ evs = [ GaugeSet powerwallChargePercent (PowerwallChargePercent m);
              GaugeSet backupMode
                (if decide (Mode m = powerwall.Backup) then 1 else 0)%float;
              GaugeSet selfConsumptionMode
                (if decide (Mode m = powerwall.SelfConsumption) then 1 else 0)%float;
              GaugeSet backupReservePercent (BackupReservePercent m);
              GaugeSet uptimeSeconds
                (PrimFloat.div (float64_of_int64 (Uptime m))
                               (float64_of_int64 time.Second));
              GaugeSet majorVersion (float64_of_int64 (Major (Version m)));
              GaugeSet minorVersion (float64_of_int64 (Minor (Version m)));
              GaugeSet releaseVersion (float64_of_int64 (Release (Version m))) ]
    ∧ filter (λ e, isCounterAdd e = true) evs = [].
Proof.
  intros Herr. eexists. split; [|split; [reflexivity|]].
  - rewrite Update_run. unfold flattenedString. by rewrite Herr.
  - reflexivity.
Qed.

(** The version 10000000.10000000.10000000, which [getStatus] accepts,
    flattens to 24 digits, more than an [int64] holds. *)
Lemma Update_flatten_error_after_gauges_witness :
  ∃ evs,
    Update walk walk
      (metricsWith {| Major := 10000000; Minor := 10000000; Release := 10000000 |}
                   {[ Total := meterWith 5 7 ]})
      freshCounters
    = (Err (NumError "ParseInt" "100000001000000010000000" ErrRange),
       freshCounters, evs)
    ∧ length evs = 8.
Proof.
  destruct (Update_flatten_error_after_gauges walk walk
              (metricsWith {| Major := 10000000; Minor := 10000000;
                              Release := 10000000 |}
                           {[ Total := meterWith 5 7 ]})
              freshCounters
              (NumError "ParseInt" "100000001000000010000000" ErrRange))
    as (evs & Hrun & Hevs & _).
  - vm_compute. reflexivity.
  - exists evs. split; [exact Hrun|]. rewrite Hevs. reflexivity.
Defined.
End update_not_atomic.

(** ** The version pattern finds every string with three components *)

Section version_complete.
Import regexp.
Context {R : Type}.

Lemma exec_capture_eq (idx : nat) (name : string) (r : Regexp) (t : thread)
    (k : thread → option R) :
  exec (Capture idx name r) t k
  = exec r t (λ t', k (Thread (pos t') (rest t')
                              (<[idx := (pos t, pos t')]> (cap t')))).
Proof. reflexivity. Qed.

Lemma exec_plus_eq (g : bool) (r : Regexp) (t : thread) (k : thread → option R) :
  exec (Plus g r) t k
  = exec r t (λ t', iterate (exec r) g (S (String.length (rest t'))) t' k).
Proof. reflexivity. Qed.

Lemma exec_concat_eq (r1 r2 : Regexp) (t : thread) (k : thread → option R) :
  exec (Concat r1 r2) t k = exec r1 t (λ t', exec r2 t' k).
Proof. reflexivity. Qed.

Lemma exec_digit_step (k : thread → option R) (c : ascii) (s : string)
    (i : nat) (cp : gmap nat (nat * nat)) :
  digit c = true →
  exec (CharClass digit) (Thread i (String c s) cp) k = k (Thread (S i) s cp).
Proof. intros H. cbn. by rewrite H. Qed.

Lemma iterate_digits_complete (k : thread → option R) (r' : string)
    (cp : gmap nat (nat * nat)) :
  ∀ (ds : string) (i fuel : nat),
    allDigits ds = true →
    String.length ds < fuel →
    is_Some (k (Thread (i + String.length ds) r' cp)) →
    is_Some (iterate (exec (CharClass digit)) true fuel (Thread i (ds ++ r') cp) k).
Proof.
  induction ds as [|c ds IH]; intros i fuel Hds Hfuel Hk.
  - destruct fuel as [|fuel]; [cbn in Hfuel; lia|].
    cbn [String.length] in *. rewrite Nat.add_0_r in Hk.
    change ("" ++ r')%string with r'.
    set (body := exec (CharClass digit)). cbn [iterate].
    by destruct (body (Thread i r' cp) _).
  - destruct fuel as [|fuel]; [cbn in Hfuel; lia|].
    cbn [allDigits] in Hds. apply andb_true_iff in Hds as [Hc Hds].
    change (String c ds ++ r')%string with (String c (ds ++ r')).
    cbn [String.length] in Hfuel, Hk.
    destruct (IH (S i) fuel Hds) as [x Hx]; [lia| |].
    + by replace (S i + String.length ds) with (i + S (String.length ds)) by lia.
    + cbn [iterate]. rewrite exec_digit_step by done.
      cbn [rest String.length].
      assert ((String.length (ds ++ r') <? S (String.length (ds ++ r')))%nat = true)
        as -> by (apply Nat.ltb_lt; lia).
      by rewrite Hx.
Qed.

Lemma capture_digits_complete (k : thread → option R) (idx : nat) (name : string)
    (ds r' : string) (i : nat) (cp : gmap nat (nat * nat)) :
  numeric ds →
  (∀ cp', is_Some (k (Thread (i + String.length ds) r' cp'))) →
  is_Some (exec (Capture idx name (Plus true (CharClass digit)))
                (Thread i (ds ++ r') cp) k).
Proof.
  intros [Hne Hds] Hk. destruct ds as [|c ds]; [done|].
  cbn [allDigits] in Hds. apply andb_true_iff in Hds as [Hc Hds].
  change (String c ds ++ r')%string with (String c (ds ++ r')).
  rewrite exec_capture_eq, exec_plus_eq, exec_digit_step by done. cbn [rest].
  apply iterate_digits_complete;
    [done | rewrite string_length_app; lia |].
  cbn [pos rest cap String.length] in *.
  replace (S i + String.length ds) with (i + S (String.length ds)) by lia.
  apply Hk.
Qed.

Lemma lit_complete (k : thread → option R) (a : ascii) (r' : string) (i : nat)
    (cp : gmap nat (nat * nat)) :
  is_Some (k (Thread (S i) r' cp)) →
  is_Some (exec (lit a) (Thread i (String a r') cp) k).
Proof.
  intros Hk. unfold lit. cbn [exec rest pos cap]. by rewrite Ascii.eqb_refl.
Qed.
End version_complete.

Lemma versionRegex_complete (s : string) :
  threeLeadingComponents s →
  regexp.FindStringSubmatch model.versionRegex s ≠ [].
Proof.
  intros (a & b & c & tail & -> & Ha & Hb & Hc).
  rewrite FindStringSubmatch_nil.
  enough (is_Some (regexp.exec model.versionRegex
            (regexp.Thread 0 (a ++ "." ++ b ++ "." ++ c ++ tail) ∅) Some))
    as [t Ht].
  { destruct a as [|x a]; [by destruct Ha|].
    change (String x a ++ "." ++ b ++ "." ++ c ++ tail)%string
      with (String x (a ++ "." ++ b ++ "." ++ c ++ tail)) in *.
    cbn [regexp.search]. by rewrite Ht. }
  unfold model.versionRegex. rewrite exec_concat_eq.
  change (regexp.exec regexp.BeginText ?t ?k) with (k t). cbv beta.
  rewrite exec_concat_eq.
  apply (capture_digits_complete _ 1 ""); [done|]. intros cp1.
  rewrite exec_concat_eq. apply (lit_complete _ "."%char).
  rewrite exec_concat_eq.
  apply (capture_digits_complete _ 2 ""); [done|]. intros cp2.
  rewrite exec_concat_eq. apply (lit_complete _ "."%char).
  apply (capture_digits_complete _ 3 ""); [done|]. intros cp3.
  done.
Qed.

(** The pattern matches exactly the strings with three leading numeric
    components, and a match always has its four parts. *)
Lemma versionRegex_spec (s : string) :
  (regexp.FindStringSubmatch model.versionRegex s ≠ [] ↔ threeLeadingComponents s)
  ∧ (threeLeadingComponents s →
     length (regexp.FindStringSubmatch model.versionRegex s) = 4).
Proof.
  split; [split; [apply versionRegex_sound | apply versionRegex_complete]|].
  intros H%versionRegex_complete. by apply FindStringSubmatch_length in H.
Qed.

Lemma not_threeLeadingComponents (s : string) :
  regexp.FindStringSubmatch model.versionRegex s = [] → ¬ threeLeadingComponents s.
Proof. intros Hnil H%versionRegex_complete. done. Qed.

(** The example of the spec, and a version with two components only. *)
Lemma version_projection_and_flattening_witness :
  (∃ p', model.getStatus (gateway "20.49.3" 0 0 gridUp) model.zeroMetrics = Ok p'
         ∧ model.Version p'
           = {| model.Major := 20; model.Minor := 49; model.Release := 3 |})
  ∧ model.getStatus (gateway "20.49" 0 0 gridUp) model.zeroMetrics
    = Err (Errorf "version %q unexpected, want A.B.C" "20.49").
Proof.
  destruct version_projection_and_flattening as (Hex & _ & Hbad).
  split.
  - eapply (Hex (gateway "20.49.3" 0 0 gridUp)); reflexivity.
  - apply (Hbad (gateway "20.49" 0 0 gridUp) model.zeroMetrics
             {| powerwall.StartTime := {| powerwall.t := time.zero |};
                powerwall.UpTime := {| powerwall.d := 0 |};
                powerwall.Version := "20.49" |} eq_refl).
    apply not_threeLeadingComponents. vm_compute. reflexivity.
Defined.

(** ** One poll cycle *)

Section poll_cycle.
Import powerwall model.

Lemma Poll_endpoint_failure (mon : Monitor) (fixed : FixedInfo) :
  endpointFails mon → ∃ err, Poll mon fixed = Err err.
Proof.
  unfold endpointFails, Poll, getDynamicInfo. cbn [runOps]. intros Hfail.
  match goal with |- context [getOperations mon ?p] => generalize p; intros p0 end.
  unfold getOperations at 1.
  destruct (GetOperation mon) as [operation|e1]; [|by eexists].
  cbn [mbind result_bind].
  match goal with |- context [getStatus mon ?p] => generalize p; intros p1 end.
  assert (Hst : is_Err (GetStatus mon) → ∃ err, getStatus mon p1 = Err err).
  { unfold getStatus. destruct (GetStatus mon); [done | by eexists]. }
  destruct (getStatus mon p1) as [p2|e2]; [|by eexists].
  cbn [mbind result_bind].
  unfold getNetworks at 1.
  destruct (GetNetworks mon) as [networks|e3]; [|by eexists].
  cbn [mbind result_bind].
  unfold getSiteMaster at 1.
  destruct (GetSiteMaster mon) as [siteMaster|e4]; [|by eexists].
  cbn [mbind result_bind].
  unfold getAggregates at 1.
  destruct (GetAggregates mon) as [agg|e5]; [|by eexists].
  cbn [mbind result_bind].
  unfold getSOE at 1.
  destruct (GetSOE mon) as [soe|e6]; [|by eexists].
  destruct (GetGridStatus mon) as [gridstatus|e7]; [|by eexists].
  exfalso. destruct Hfail as [[]|[H|[[]|[[]|[[]|[[]|[]]]]]]].
  by destruct (Hst H).
Qed.

Lemma Poll_ok_endpoints (mon : Monitor) (fixed : FixedInfo)
    (stats : TeslaEnergyGatewayMetrics) :
  Poll mon fixed = Ok stats → ¬ endpointFails mon.
Proof.
  intros Hok Hfail. apply (Poll_endpoint_failure mon fixed) in Hfail as [err Herr].
  congruence.
Qed.
End poll_cycle.

Section poll_atomicity.
Import controller.

Variable rangeNetworkInterfaces :
  gmap powerwall.NetworkInterface model.NetworkInterfaceDetails →
  list (powerwall.NetworkInterface * model.NetworkInterfaceDetails).
Variable rangeMeters :
  gmap model.MeterType model.MeterDetails →
  list (model.MeterType * model.MeterDetails).

(** C2: when an endpoint of the poll cycle answers with an error, [poll]
    returns an error, the engine, and with it the stored cumulative
    readings, is exactly what it was before the cycle, and nothing was
    written to an instrument. The same holds for every failure of the
    projection. Conversely, the stored readings differ after a cycle only
    if every endpoint was decoded and the projection succeeded. *)
Theorem poll_failure_keeps_cumulative_state (p : PollEngine) :
  (endpointFails (mon p) →
   ∃ err, poll rangeNetworkInterfaces rangeMeters p = (Some err, p, []))
  ∧ (∀ err, model.Poll (mon p) (fixed p) = Err err →
            poll rangeNetworkInterfaces rangeMeters p = (Some err, p, []))
  ∧ (view.priorCumulative (view (poll rangeNetworkInterfaces rangeMeters p).1.2)
     ≠ view.priorCumulative (view p) →
     ¬ endpointFails (mon p)
     ∧ ∃ stats, model.Poll (mon p) (fixed p) = Ok stats).
Proof.
  split_and!.
  - intros [err Herr]%(Poll_endpoint_failure _ (fixed p)).
    exists err. unfold poll. by rewrite Herr.
  - intros err Herr. unfold poll. by rewrite Herr.
  - unfold poll. destruct (model.Poll (mon p) (fixed p)) as [stats|err] eqn:HP.
    + intros _. split; [by eapply Poll_ok_endpoints | by eexists].
    + cbn. done.
Qed.
End poll_atomicity.

(** The grid-status endpoint fails to decode after the six others were
    read: the engine is untouched. *)
Lemma poll_failure_keeps_cumulative_state_witness :
  ∃ err,
    controller.poll walk walk
      {| controller.mon :=
           gateway "20.49.3" 100 0
             (Err (Errorf "unknown SystemStatus %q" "SystemWhatever"));
         controller.fixed := model.Fixed model.zeroMetrics;
         controller.view := freshCounters |}
    = (Some err,
       {| controller.mon :=
            gateway "20.49.3" 100 0
              (Err (Errorf "unknown SystemStatus %q" "SystemWhatever"));
          controller.fixed := model.Fixed model.zeroMetrics;
          controller.view := freshCounters |},
       []).
Proof.
  destruct (poll_failure_keeps_cumulative_state walk walk
              {| controller.mon :=
                   gateway "20.49.3" 100 0
                     (Err (Errorf "unknown SystemStatus %q" "SystemWhatever"));
                 controller.fixed := model.Fixed model.zeroMetrics;
                 controller.view := freshCounters |}) as (Hfail & _ & _).
  apply Hfail. unfold endpointFails. cbn. tauto.
Defined.

(** ** The cumulative counters *)

Section cumulative_counters.
Import model view.

(** A difference that is at least zero is not below zero. *)
Lemma float_leb_0_not_ltb (delta : float) :
  PrimFloat.leb 0 delta = true → PrimFloat.ltb delta 0 = false.
Proof.
  rewrite leb_spec, ltb_spec. unfold SFleb, SFltb.
  replace (Prim2SF 0) with (S754_zero false) by reflexivity.
  destruct (Prim2SF delta) as [s|s| |s mant e]; cbn; try destruct s; congruence.
Qed.

Lemma updateMeter_run (mt : MeterType) (meter : MeterDetails)
    (p : PrometheusCounters) (inner : gmap string float) :
  priorCumulative p !! mt = Some inner →
  updateMeter mt meter p
  = (Ok tt,
     {| priorCumulative :=
          <[mt := <[kFrom := CumulativeEnergyFrom meter]>
                    (<[kTo := CumulativeEnergyTo meter]> inner)]>
          (priorCumulative p) |},
     meterEvents mt meter (prior p mt kTo) (prior p mt kFrom)).
Proof.
  intros Hin. unfold updateMeter, meterEvents, directionEvents.
  unfold mbind, Action_bind, emit, readPrior, storePrior, mret, Action_ret.
  cbv beta iota zeta. rewrite Hin. cbv beta iota zeta.
  assert (Hfrom : prior {| priorCumulative :=
                             <[mt := <[kTo := CumulativeEnergyTo meter]> inner]>
                             (priorCumulative p) |} mt kFrom
                  = prior p mt kFrom).
  { unfold prior. cbn [priorCumulative]. rewrite lookup_insert_eq, Hin. cbn.
    by rewrite lookup_insert_ne. }
  set (dTo := PrimFloat.sub (CumulativeEnergyTo meter) (prior p mt kTo)).
  destruct (PrimFloat.ltb dTo 0); [destruct (PrimFloat.ltb dTo _)|];
    cbv beta iota zeta; rewrite Hfrom;
    set (dFrom := PrimFloat.sub (CumulativeEnergyFrom meter) (prior p mt kFrom));
    (destruct (PrimFloat.ltb dFrom 0); [destruct (PrimFloat.ltb dFrom _)|]);
    cbv beta iota zeta; cbn [priorCumulative];
    rewrite lookup_insert_eq; cbv beta iota; rewrite insert_insert_eq;
    reflexivity.
Qed.

Lemma increments_app (name dir : string) (a b : list Event) :
  increments name dir (a ++ b) = increments name dir a ++ increments name dir b.
Proof. apply omap_app. Qed.

Lemma warnings_app (name dir : string) (a b : list Event) :
  warnings name dir (a ++ b) = warnings name dir a ++ warnings name dir b.
Proof. apply omap_app. Qed.

(** The events of a meter's round, seen from that meter. *)
Lemma meterEvents_same (mt : MeterType) (meter : MeterDetails)
    (priorTo priorFrom : float) (dir : string) :
  dir = kTo ∨ dir = kFrom →
  let delta := PrimFloat.sub (reading meter dir)
                 (if decide (dir = kTo) then priorTo else priorFrom) in
  increments (MeterType_String mt) dir (meterEvents mt meter priorTo priorFrom)
  = (if PrimFloat.ltb delta 0 then [] else [delta])
  ∧ warnings (MeterType_String mt) dir (meterEvents mt meter priorTo priorFrom)
    = (if PrimFloat.ltb delta 0 && PrimFloat.ltb delta (PrimFloat.opp epsilon)
       then [delta] else []).
Proof.
  unfold meterEvents, directionEvents, reading.
  intros [-> | ->]; [rewrite !decide_True by done | rewrite !decide_False by done];
    cbv zeta;
    generalize (PrimFloat.sub (CumulativeEnergyTo meter) priorTo) as dTo;
    generalize (PrimFloat.sub (CumulativeEnergyFrom meter) priorFrom) as dFrom;
    intros dFrom dTo;
    (destruct (PrimFloat.ltb dTo 0); [destruct (PrimFloat.ltb dTo _)|]);
    (destruct (PrimFloat.ltb dFrom 0); [destruct (PrimFloat.ltb dFrom _)|]);
    destruct mt; split; vm_compute; reflexivity.
Qed.

(** The events of a meter's round, seen from another meter. *)
Lemma meterEvents_other (mt mt' : MeterType) (meter : MeterDetails)
    (priorTo priorFrom : float) (dir : string) :
  mt ≠ mt' → dir = kTo ∨ dir = kFrom →
  increments (MeterType_String mt') dir (meterEvents mt meter priorTo priorFrom) = []
  ∧ warnings (MeterType_String mt') dir (meterEvents mt meter priorTo priorFrom) = [].
Proof.
  unfold meterEvents, directionEvents.
  generalize (PrimFloat.sub (CumulativeEnergyTo meter) priorTo) as dTo.
  generalize (PrimFloat.sub (CumulativeEnergyFrom meter) priorFrom) as dFrom.
  intros dFrom dTo Hne [-> | ->];
    (destruct (PrimFloat.ltb dTo 0); [destruct (PrimFloat.ltb dTo _)|]);
    (destruct (PrimFloat.ltb dFrom 0); [destruct (PrimFloat.ltb dFrom _)|]);
    destruct mt, mt'; try done; split; vm_compute; reflexivity.
Qed.

Lemma prior_frame (p p' : PrometheusCounters) (mt : MeterType) (dir : string) :
  priorCumulative p' !! mt = priorCumulative p !! mt →
  prior p' mt dir = prior p mt dir.
Proof. unfold prior. by intros ->. Qed.

Lemma prior_after_round (p : PrometheusCounters) (mt : MeterType)
    (meter : MeterDetails) (inner : gmap string float) (dir : string) :
  dir = kTo ∨ dir = kFrom →
  prior {| priorCumulative :=
             <[mt := <[kFrom := CumulativeEnergyFrom meter]>
                       (<[kTo := CumulativeEnergyTo meter]> inner)]>
             (priorCumulative p) |} mt dir
  = reading meter dir.
Proof.
  unfold prior, reading. cbn [priorCumulative]. rewrite lookup_insert_eq.
  intros [-> | ->]; cbn [from_option]; unfold id.
  - rewrite lookup_insert_ne by done. by rewrite lookup_insert_eq.
  - by rewrite lookup_insert_eq.
Qed.

(** The loop over the meters, for any order that names no meter twice. *)
Lemma forEach_updateMeter (l : list (MeterType * MeterDetails)) :
  ∀ p : PrometheusCounters,
    NoDup l.*1 →
    (∀ mt, mt ∈ l.*1 → is_Some (priorCumulative p !! mt)) →
    ∃ p' evs,
      forEach l (λ kv, updateMeter kv.1 kv.2) p = (Ok tt, p', evs)
      ∧ (∀ mt, mt ∉ l.*1 → priorCumulative p' !! mt = priorCumulative p !! mt)
      ∧ (∀ mt dir, mt ∉ l.*1 → dir = kTo ∨ dir = kFrom →
           increments (MeterType_String mt) dir evs = []
           ∧ warnings (MeterType_String mt) dir evs = [])
      ∧ (∀ mt meter dir, (mt, meter) ∈ l → dir = kTo ∨ dir = kFrom →
           directionOutcome p p' evs mt meter dir).
Proof.
  induction l as [|[mt0 meter0] l IH]; intros p Hnd Hdom.
  - exists p, []. split_and!; [done | done | done |].
    intros mt meter dir Hin. by apply elem_of_nil in Hin.
  - cbn [fmap list_fmap fst] in Hnd, Hdom.
    apply NoDup_cons in Hnd as [Hfresh Hnd].
    destruct (Hdom mt0) as [inner Hinner]; [left|].
    cbn [forEach]. rewrite bind_run. cbn [fst snd].
    rewrite (updateMeter_run mt0 meter0 p inner Hinner).
    set (p1 := {| priorCumulative := _ |}).
    destruct (IH p1 Hnd) as (p' & evs & Hrun & Hframe & Hquiet & Hout).
    { intros mt Hmt. subst p1. cbn [priorCumulative].
      destruct (decide (mt0 = mt)) as [->|Hne].
      - rewrite lookup_insert_eq. by eexists.
      - rewrite lookup_insert_ne by done. apply Hdom. by right. }
    rewrite Hrun. eexists p', _. split; [reflexivity|]. split_and!.
    + intros mt Hmt. apply not_elem_of_cons in Hmt as [Hne Hmt].
      rewrite Hframe by done. subst p1. cbn [priorCumulative].
      by rewrite lookup_insert_ne.
    + intros mt dir Hmt Hdir. apply not_elem_of_cons in Hmt as [Hne Hmt].
      rewrite increments_app, warnings_app.
      destruct (meterEvents_other mt0 mt meter0 (prior p mt0 kTo)
                  (prior p mt0 kFrom) dir) as [-> ->]; [done..|].
      by destruct (Hquiet mt dir Hmt Hdir) as [-> ->].
    + intros mt meter dir Hin Hdir. unfold directionOutcome.
      rewrite increments_app, warnings_app.
      apply elem_of_cons in Hin as [Heq|Hin].
      * simplify_eq.
        destruct (Hquiet mt0 dir Hfresh Hdir) as [-> ->]. rewrite !app_nil_r.
        destruct (meterEvents_same mt0 meter0 (prior p mt0 kTo)
                    (prior p mt0 kFrom) dir Hdir) as [Hinc Hwarn].
        assert ((if decide (dir = kTo) then prior p mt0 kTo else prior p mt0 kFrom)
                = prior p mt0 dir) as Hp.
        { destruct Hdir as [-> | ->]; [by rewrite decide_True|by rewrite decide_False]. }
        rewrite Hp in Hinc, Hwarn. split_and!; [|done|done].
        rewrite (prior_frame p1 p' mt0 dir) by (by apply Hframe).
        by apply prior_after_round.
      * assert (mt0 ≠ mt) as Hne.
        { intros ->. apply Hfresh. apply list_elem_of_fmap. by exists (mt, meter). }
        destruct (meterEvents_other mt0 mt meter0 (prior p mt0 kTo)
                    (prior p mt0 kFrom) dir) as [-> ->]; [done..|].
        cbn [app].
        destruct (Hout mt meter dir Hin Hdir) as (Hst & Hinc & Hwarn).
        assert (prior p1 mt dir = prior p mt dir) as Hp.
        { apply prior_frame. subst p1. cbn [priorCumulative].
          by rewrite lookup_insert_ne. }
        rewrite Hp in Hinc, Hwarn. done.
Qed.

Lemma increments_networkEvents (name dir : string)
    (l : list (powerwall.NetworkInterface * NetworkInterfaceDetails)) :
  increments name dir (networkEvents l) = []
  ∧ warnings name dir (networkEvents l) = [].
Proof.
  induction l as [|kv l [IHi IHw]]; [done|].
  change (networkEvents (kv :: l)) with (networkEvents [kv] ++ networkEvents l).
  rewrite increments_app, warnings_app, IHi, IHw. done.
Qed.

(** C1: in a run of [Update] that gets past the flattened version, for
    every meter of the snapshot and each of the two directions, with [P]
    the stored cumulative value and [C] the new reading, the difference
    [delta = C - P] decides what happens: when [0 <= delta] it is added,
    once, to the cumulative counter of that meter and direction and
    nothing is warned; when [delta < 0] nothing is added, and a warning
    is logged exactly when [delta < -0.00001]; and in every case the
    stored value is [C] afterwards. This holds whatever order the
    iteration over the meters takes. *)
Theorem Update_cumulative_delta
    (rangeNetworkInterfaces :
       gmap powerwall.NetworkInterface NetworkInterfaceDetails →
       list (powerwall.NetworkInterface * NetworkInterfaceDetails))
    (rangeMeters : gmap MeterType MeterDetails → list (MeterType * MeterDetails))
    (m : TeslaEnergyGatewayMetrics) (p : PrometheusCounters) (flat : Z) :
  (∀ ms, rangeMeters ms ≡ₚ map_to_list ms) →
  strconv.ParseInt
    (fmt.Sprintf_02d_02d_02d (Major (Version m)) (Minor (Version m))
                             (Release (Version m))) = Ok flat →
  (∀ mt, is_Some (Meters m !! mt) → is_Some (priorCumulative p !! mt)) →
  ∃ p' evs,
    Update rangeNetworkInterfaces rangeMeters m p = (Ok tt, p', evs)
    ∧ ∀ (mt : MeterType) (meter : MeterDetails) (dir : string),
        Meters m !! mt = Some meter →
        dir = kTo ∨ dir = kFrom →
        let P := prior p mt dir in
        let C := reading meter dir in
        let delta := PrimFloat.sub C P in
        prior p' mt dir = C
        ∧ (PrimFloat.leb 0 delta = true →
           increments (MeterType_String mt) dir evs = [delta]
           ∧ warnings (MeterType_String mt) dir evs = [])
        ∧ (PrimFloat.ltb delta 0 = true →
           increments (MeterType_String mt) dir evs = []
           ∧ warnings (MeterType_String mt) dir evs
             = if PrimFloat.ltb delta (PrimFloat.opp epsilon) then [delta] else []).
Proof.
  intros Hrange Hflat Hdom.
  destruct (forEach_updateMeter (rangeMeters (Meters m)) p)
    as (p' & mevs & Hrun & _ & _ & Hout).
  { rewrite (Hrange (Meters m)). apply NoDup_fst_map_to_list. }
  { intros mt Hmt. apply Hdom.
    apply list_elem_of_fmap in Hmt as ([mt' meter] & -> & Hin).
    rewrite (Hrange (Meters m)) in Hin. apply elem_of_map_to_list in Hin.
    by eexists. }
  rewrite Update_run. unfold flattenedString. rewrite Hflat, Hrun.
  eexists p', _. split; [reflexivity|].
  intros mt meter dir Hmeter Hdir. cbv zeta.
  destruct (Hout mt meter dir) as (Hst & Hinc & Hwarn); [|done|].
  { rewrite (Hrange (Meters m)). by apply elem_of_map_to_list. }
  cbv zeta in Hinc, Hwarn.
  assert (Hi : increments (MeterType_String mt) dir
                 (gaugesBeforeFlatten m
                  ++ [GaugeSet flattenedVersion (float64_of_int64 flat)]
                  ++ networkEvents (rangeNetworkInterfaces (NetworkInterfaces m))
                  ++ siteMasterEvents m ++ mevs ++ gridEvents m)
               = increments (MeterType_String mt) dir mevs).
  { rewrite !increments_app.
    destruct (increments_networkEvents (MeterType_String mt) dir
                (rangeNetworkInterfaces (NetworkInterfaces m))) as [-> _].
    cbn. by rewrite app_nil_r. }
  assert (Hw : warnings (MeterType_String mt) dir
                 (gaugesBeforeFlatten m
                  ++ [GaugeSet flattenedVersion (float64_of_int64 flat)]
                  ++ networkEvents (rangeNetworkInterfaces (NetworkInterfaces m))
                  ++ siteMasterEvents m ++ mevs ++ gridEvents m)
               = warnings (MeterType_String mt) dir mevs).
  { rewrite !warnings_app.
    destruct (increments_networkEvents (MeterType_String mt) dir
                (rangeNetworkInterfaces (NetworkInterfaces m))) as [_ ->].
    cbn. by rewrite app_nil_r. }
  rewrite Hi, Hw, Hinc, Hwarn. split_and!; [done| |].
  - intros Hge. apply float_leb_0_not_ltb in Hge. by rewrite Hge.
  - intros Hlt. by rewrite Hlt.
Qed.
End cumulative_counters.

(** The stored site readings are 100.2 (to) and 100.0 (from); the new
    readings are 100.1 (to) and 100.2 (from). The first difference is
    about -0.1: nothing is added, a warning is logged. The second is
    about +0.2 and is added. Both new readings are stored. The literals
    are the binary64 values nearest to 100.2 and 100.1. *)
Lemma Update_cumulative_delta_witness :
  ∃ p' evs,
    view.Update walk walk
      (metricsWith {| model.Major := 20; model.Minor := 49; model.Release := 3 |}
         {[ model.Total := meterWith 0x1.9066666666666p+6 0x1.90ccccccccccdp+6 ]})
      (countersWith 0x1.90ccccccccccdp+6 100)
    = (Ok tt, p', evs)
    ∧ view.prior p' model.Total view.kTo = 0x1.9066666666666p+6%float
    ∧ increments "site" view.kTo evs = []
    ∧ warnings "site" view.kTo evs
      = [PrimFloat.sub 0x1.9066666666666p+6 0x1.90ccccccccccdp+6]
    ∧ view.prior p' model.Total view.kFrom = 0x1.90ccccccccccdp+6%float
    ∧ increments "site" view.kFrom evs
      = [PrimFloat.sub 0x1.90ccccccccccdp+6 100].
Proof.
  destruct (Update_cumulative_delta walk walk
              (metricsWith {| model.Major := 20; model.Minor := 49; model.Release := 3 |}
                 {[ model.Total := meterWith 0x1.9066666666666p+6 0x1.90ccccccccccdp+6 ]})
              (countersWith 0x1.90ccccccccccdp+6 100) 204903)
    as (p' & evs & Hrun & Hspec).
  - intros ms. reflexivity.
  - vm_compute. reflexivity.
  - intros [] [x Hx]; vm_compute in Hx; try discriminate Hx.
    vm_compute. eexists. reflexivity.
  - exists p', evs. split; [exact Hrun|].
    destruct (Hspec model.Total
                (meterWith 0x1.9066666666666p+6 0x1.90ccccccccccdp+6) view.kTo)
      as (Hst1 & _ & Hneg); [reflexivity | by left |].
    destruct (Hspec model.Total
                (meterWith 0x1.9066666666666p+6 0x1.90ccccccccccdp+6) view.kFrom)
      as (Hst2 & Hpos & _); [reflexivity | by right |].
    destruct Hneg as [Hi1 Hw1]; [vm_compute; reflexivity|].
    destruct Hpos as [Hi2 _]; [vm_compute; reflexivity|].
    split_and!; [exact Hst1 | exact Hi1 | exact Hw1 | exact Hst2 | exact Hi2].
Defined.

(** ** The timestamp codec *)

Section timestamp_codec.
Import powerwall json.

Lemma stripFractionalSeconds_sound (s : string) :
  regexp.FindStringSubmatch stripFractionalSeconds s ≠ [] → hasFraction s.
Proof.
  intros H. apply FindStringSubmatch_anchored in H as (w & tail & -> & Hm).
  apply matches_concat_inv in Hm as (a & w1 & -> & Ha & Hm).
  apply matches_concat_inv in Hm as (d1 & w2 & -> & Hd1 & Hm).
  apply matches_concat_inv in Hm as (ds & w3 & -> & Hds & Hm).
  apply matches_plus_digits in Hds. apply matches_lit in Hd1 as ->.
  exists a, ds, (w3 ++ tail)%string. split; [|done].
  by rewrite !string_app_assoc.
Qed.

(** A string without fractional seconds is tried as it is. *)
Lemma stripped_without_fraction (s : string) :
  ¬ hasFraction s → stripped s = s.
Proof.
  intros Hno. unfold stripped.
  destruct (regexp.FindStringSubmatch stripFractionalSeconds s) eqn:Hf; [done|].
  exfalso. apply Hno, stripFractionalSeconds_sound. by rewrite Hf.
Qed.

Lemma Time_UnmarshalJSON_nonempty (Parse : string → string → result time.Time)
    (t0 : Time) (s : string) :
  s ≠ EmptyString →
  Time_UnmarshalJSON Parse t0 (JString s)
  = match tryLayouts Parse layouts (stripped s) with
    | Some g => (None, {| t := g |})
    | None => (Some (Errorf "no layout matched timestamp %q" (stripped s)), t0)
    end.
Proof.
  intros Hs. unfold Time_UnmarshalJSON. cbn [Unmarshal_string].
  by apply String.eqb_neq in Hs as ->.
Qed.

(** C5 (amended): the example with fractional seconds decodes like the
    same timestamp without them, to 2019-07-01 17:00:00 UTC shown at
    offset -07:00; the empty string decodes to the zero time without an
    error; for any other string the layouts are tried in their order on
    the string with its fractional seconds stripped, and the first that
    parses gives the result; when none parses, the receiver is left as it
    was and the error names the string the layouts were tried on, which
    is the raw string whenever that has no period followed by a digit. *)
Theorem Time_codec_layouts_in_order :
  (∀ t0 : Time,
      Time_UnmarshalJSON time.Parse t0 (JString "2019-07-01T10:00:00.123456789-07:00")
      = Time_UnmarshalJSON time.Parse t0 (JString "2019-07-01T10:00:00-07:00")
      ∧ Time_UnmarshalJSON time.Parse t0 (JString "2019-07-01T10:00:00-07:00")
        = (None, {| t := {| time.unixSec := 1562000400; time.nsec := 0;
                            time.zoneOffset := Some (-25200)%Z |} |}))
  ∧ (∀ (Parse : string → string → result time.Time) (t0 : Time),
      Time_UnmarshalJSON Parse t0 (JString "") = (None, {| t := time.zero |}))
  ∧ (∀ (Parse : string → string → result time.Time) (t0 : Time) (s : string),
      s ≠ EmptyString →
      Time_UnmarshalJSON Parse t0 (JString s)
      = match Parse "2006-01-02T15:04:05-07:00" (stripped s),
              Parse "2006-01-02 15:04:05 -0700" (stripped s),
              Parse "2006-01-02T15:04:05Z" (stripped s) with
        | Ok g, _, _ => (None, {| t := g |})
        | Err _, Ok g, _ => (None, {| t := g |})
        | Err _, Err _, Ok g => (None, {| t := g |})
        | Err _, Err _, Err _ =>
            (Some (Errorf "no layout matched timestamp %q" (stripped s)), t0)
        end)
  ∧ (∀ s : string, ¬ hasFraction s → stripped s = s).
Proof.
  split_and!.
  - intros t0. split; vm_compute; reflexivity.
  - reflexivity.
  - intros Parse t0 s Hs. rewrite Time_UnmarshalJSON_nonempty by done.
    unfold layouts. cbn [tryLayouts].
    destruct (Parse "2006-01-02T15:04:05-07:00" (stripped s)); [done|].
    destruct (Parse "2006-01-02 15:04:05 -0700" (stripped s)); [done|].
    by destruct (Parse "2006-01-02T15:04:05Z" (stripped s)).
  - apply stripped_without_fraction.
Qed.

(** A timestamp in the second layout, with fractional seconds. *)
Lemma Time_codec_layouts_in_order_witness :
  Time_UnmarshalJSON time.Parse {| t := time.zero |}
    (JString "2019-07-01 10:00:00.25 +0100")
  = (None, {| t := {| time.unixSec := 1561971600; time.nsec := 0;
                      time.zoneOffset := Some 3600%Z |} |}).
Proof.
  destruct Time_codec_layouts_in_order as (_ & _ & Horder & _).
  rewrite (Horder time.Parse {| t := time.zero |} "2019-07-01 10:00:00.25 +0100")
    by discriminate.
  vm_compute. reflexivity.
Defined.

(** C5 as stated fails on the code: for a timestamp with fractional
    seconds that no layout parses (here the zone is missing), the error
    names the stripped string, not the raw one. *)
Lemma Time_error_names_stripped_string :
  Time_UnmarshalJSON time.Parse {| t := time.zero |}
    (JString "2019-07-01 10:00:00.5")
  = (Some (Errorf "no layout matched timestamp %q" "2019-07-01 10:00:00"),
     {| t := time.zero |})
  ∧ (Time_UnmarshalJSON time.Parse {| t := time.zero |}
       (JString "2019-07-01 10:00:00.5")).1
    ≠ Some (Errorf "no layout matched timestamp %q" "2019-07-01 10:00:00.5").
Proof. split; vm_compute; [reflexivity | discriminate]. Qed.
End timestamp_codec.

(** ** The layouts, as [time.Parse] cuts them *)

Lemma layouts_chunks :
  time.chunks <$> powerwall.layouts
  = [ [ time.stdLongYear; time.Literal "-"; time.stdZeroMonth; time.Literal "-";
        time.stdZeroDay; time.Literal "T"; time.stdHour; time.Literal ":";
        time.stdZeroMinute; time.Literal ":"; time.stdZeroSecond;
        time.stdNumColonTZ ];
      [ time.stdLongYear; time.Literal "-"; time.stdZeroMonth; time.Literal "-";
        time.stdZeroDay; time.Literal " "; time.stdHour; time.Literal ":";
        time.stdZeroMinute; time.Literal ":"; time.stdZeroSecond;
        time.Literal " "; time.stdNumTZ ];
      [ time.stdLongYear; time.Literal "-"; time.stdZeroMonth; time.Literal "-";
        time.stdZeroDay; time.Literal "T"; time.stdHour; time.Literal ":";
        time.stdZeroMinute; time.Literal ":"; time.stdZeroSecond;
        time.Literal "Z" ] ].
Proof. reflexivity. Qed.

(** ** The inner maps of the stored readings *)

Section stored_readings.
Import model view.

(** [New] creates the inner map of each of the four meters. *)
Lemma New_creates_inner_maps (Register : Collector → option error)
    (fixed : FixedInfo) (p : PrometheusCounters) :
  (New Register fixed).1 = Ok p →
  ∀ mt, priorCumulative p !! mt = Some ∅.
Proof.
  unfold New. destruct (registerAll Register cols); [done|].
  cbn. intros [= <-] []; reflexivity.
Qed.

(** The loop over the meters keeps the inner maps that exist, so a run of
    [Update] from counters made by [New] never writes into a missing
    map. *)
Lemma forEach_updateMeter_keeps_inner_maps (l : list (MeterType * MeterDetails)) :
  ∀ p : PrometheusCounters,
    (∀ mt, is_Some (priorCumulative p !! mt)) →
    ∃ p' evs,
      forEach l (λ kv, updateMeter kv.1 kv.2) p = (Ok tt, p', evs)
      ∧ ∀ mt, is_Some (priorCumulative p' !! mt).
Proof.
  induction l as [|[mt0 meter0] l IH]; intros p Hall.
  - by exists p, [].
  - destruct (Hall mt0) as [inner Hinner].
    cbn [forEach]. rewrite bind_run. cbn [fst snd].
    rewrite (updateMeter_run mt0 meter0 p inner Hinner).
    set (p1 := {| priorCumulative := _ |}).
    destruct (IH p1) as (p' & evs & -> & Hall').
    { intros mt. subst p1. cbn [priorCumulative].
      destruct (decide (mt0 = mt)) as [->|Hne].
      - rewrite lookup_insert_eq. by eexists.
      - by rewrite lookup_insert_ne. }
    by eexists p', _.
Qed.

Lemma Update_keeps_inner_maps rangeNetworkInterfaces rangeMeters
    (m : TeslaEnergyGatewayMetrics) (p : PrometheusCounters) :
  (∀ mt, is_Some (priorCumulative p !! mt)) →
  ∀ mt, is_Some (priorCumulative
                   (Update rangeNetworkInterfaces rangeMeters m p).1.2 !! mt).
Proof.
  intros Hall. rewrite Update_run.
  destruct (strconv.ParseInt (flattenedString m)); [|done].
  destruct (forEach_updateMeter_keeps_inner_maps (rangeMeters (Meters m)) p Hall)
    as (p' & evs & -> & Hall').
  done.
Qed.
End stored_readings.

(** ** The examples of the cumulative delta, run from end to end *)

(** Stored 100.2, new reading 100.1999995: the difference is about
    -0.0000005, within the tolerance; nothing is added, nothing is
    warned, the new reading is stored. *)
Lemma Update_within_tolerance_example :
  ∃ p' evs,
    view.Update walk walk
      (metricsWith {| model.Major := 20; model.Minor := 49; model.Release := 3 |}
         {[ model.Total := meterWith 0x1.90ccccab3edd9p+6 0 ]})
      (countersWith 0x1.90ccccccccccdp+6 0)
    = (Ok tt, p', evs)
    ∧ view.prior p' model.Total view.kTo = 0x1.90ccccab3edd9p+6%float
    ∧ increments "site" view.kTo evs = []
    ∧ warnings "site" view.kTo evs = [].
Proof. eexists _, _. split; [vm_compute; reflexivity|]. by vm_compute. Qed.

(** A gateway that reports version 10000000.10000000.10000000 is polled
    without a decoding error, and the cycle then fails inside [Update]:
    eight gauges are written, the stored readings are untouched. *)
Lemma poll_flatten_error_example :
  ∃ evs,
    controller.poll walk walk
      {| controller.mon := gateway "10000000.10000000.10000000" 100 0 gridUp;
         controller.fixed := model.Fixed model.zeroMetrics;
         controller.view := freshCounters |}
    = (Some (NumError "ParseInt" "100000001000000010000000" ErrRange),
       {| controller.mon := gateway "10000000.10000000.10000000" 100 0 gridUp;
          controller.fixed := model.Fixed model.zeroMetrics;
          controller.view := freshCounters |},
       evs)
    ∧ length evs = 8.
Proof. eexists. split; vm_compute; reflexivity. Qed.

(** ** The library models on a few inputs *)

Lemma ParseInt_examples :
  strconv.ParseInt "204903" = Ok 204903%Z
  ∧ strconv.ParseInt "+12" = Ok 12%Z
  ∧ strconv.ParseInt "-9223372036854775808" = Ok (-9223372036854775808)%Z
  ∧ strconv.ParseInt "9223372036854775808"
    = Err (NumError "ParseInt" "9223372036854775808" ErrRange)
  ∧ strconv.ParseInt "" = Err (NumError "ParseInt" "" ErrSyntax)
  ∧ strconv.ParseInt "12a" = Err (NumError "ParseInt" "12a" ErrSyntax).
Proof. by vm_compute. Qed.

Lemma verb_02d_examples :
  fmt.verb_02d 3 = "03"%string
  ∧ fmt.verb_02d 49 = "49"%string
  ∧ fmt.verb_02d 123 = "123"%string
  ∧ fmt.verb_02d (-1) = "-1"%string
  ∧ fmt.Sprintf_02d_02d_02d 20 49 3 = "204903"%string.
Proof. by vm_compute. Qed.

Lemma uptimeRegex_examples :
  regexp.SubexpNames powerwall.uptimeRegex
  = [ ""; ""; "hours"; ""; "minutes"; ""; "seconds"; ""; "nanoseconds" ]%string
  ∧ regexp.FindStringSubmatch powerwall.uptimeRegex "143h54m32.539257895s"
    = [ "143h54m32.539257895s"; "143h"; "143"; "54m"; "54"; "32."; "32";
        "539257895s"; "539257895" ]%string
  ∧ regexp.FindStringSubmatch powerwall.uptimeRegex "up 3m5x7s"
    = [ "3m5x7s"; ""; ""; "3m"; "3"; "5x"; "5"; "7s"; "7" ]%string
  ∧ regexp.FindStringSubmatch powerwall.uptimeRegex "12h30m" = [].
Proof. by vm_compute. Qed.

Lemma stripFractionalSeconds_examples :
  regexp.FindStringSubmatch powerwall.stripFractionalSeconds
    "2019-07-01T10:00:00.123456789-07:00"
  = [ "2019-07-01T10:00:00.123456789-07:00"; "2019-07-01T10:00:00"; "-07:00" ]%string
  ∧ powerwall.stripped "2019-07-01T10:00:00-07:00" = "2019-07-01T10:00:00-07:00"%string
  ∧ powerwall.stripped "a.1b.22c.d" = "a.1bc.d"%string.
Proof. by vm_compute. Qed.

Lemma Parse_examples :
  time.Parse "2006-01-02T15:04:05Z" "1970-01-01T00:00:00Z"
  = Ok {| time.unixSec := 0; time.nsec := 0; time.zoneOffset := None |}
  ∧ time.Parse "2006-01-02T15:04:05Z" "2020-02-29T23:59:59.5Z"
    = Ok {| time.unixSec := 1583020799; time.nsec := 500000000;
            time.zoneOffset := None |}
  ∧ time.Parse "2006-01-02T15:04:05Z" "2019-02-29T00:00:00Z"
    = Err (ParseError "2006-01-02T15:04:05Z" "2019-02-29T00:00:00Z")
  ∧ time.Parse "2006-01-02 15:04:05 -0700" "2019-07-01 10:00:00 +0100"
    = Ok {| time.unixSec := 1561971600; time.nsec := 0;
            time.zoneOffset := Some 3600%Z |}
  ∧ time.Parse "2006-01-02T15:04:05Z" "0001-01-01T00:00:00Z" = Ok time.zero.
Proof. by vm_compute. Qed.

(* ================================================================= *)
(** * Part III: further properties of the code *)
(* ================================================================= *)

(** ** Enumerations: refusals, tokens and display strings *)

Section enum_codecs_more.
Import powerwall json.

(** X1: the display string of an enumeration value is never a token of
    its table: for each of the four enumerations and every value,
    decoding the string that [String] returns for it is refused. *)
Theorem enum_display_strings_are_refused :
  displayNotDecoded NetworkInterface_UnmarshalJSON NetworkInterface_String
  ∧ displayNotDecoded OperatingMode_UnmarshalJSON OperatingMode_String
  ∧ displayNotDecoded SystemStatus_UnmarshalJSON SystemStatus_String
  ∧ displayNotDecoded GridState_UnmarshalJSON GridState_String.
Proof. split_and!; intros a []; vm_compute; discriminate. Qed.

Ltac one_token tok :=
  exists tok; split; [reflexivity|];
  let tok' := fresh "tok'" in let H := fresh "H" in
  intros tok' H;
  unfold stringToInterface, stringToOperatingMode, stringToSystemStatus,
    stringToGridState in H;
  repeat (apply lookup_insert_Some in H as [[<- H]|[? H]]; [done || by discriminate H|]);
  apply lookup_singleton_Some in H as [<- H]; done || by discriminate H.

(** X2: in each of the four tables every value of the enumeration is the
    image of exactly one token, so decoding is a one-to-one
    correspondence between the tokens and the values. *)
Theorem enum_tables_one_token_per_value :
  oneTokenPerValue stringToInterface
  ∧ oneTokenPerValue stringToOperatingMode
  ∧ oneTokenPerValue stringToSystemStatus
  ∧ oneTokenPerValue stringToGridState.
Proof.
  split_and!.
  - intros []; [one_token "EthType" | one_token "GsmType" | one_token "WifiType"].
  - intros []; [one_token "backup" | one_token "self_consumption"
               | one_token "autonomous" | one_token "scheduler"
               | one_token "site_control"].
  - intros []; [one_token "SystemGridConnected" | one_token "SystemIslandedReady"
               | one_token "SystemIslandedActive" | one_token "SystemTransitionToGrid"].
  - intros []; [one_token "Grid_Compliant" | one_token "Grid_Qualifying"
               | one_token "Grid_Uncompliant"].
Qed.

(** X3: how the four codecs refuse. A JSON value that is neither a
    string nor [null] gives the decoder's type error and leaves the
    receiver as it was; a string that is not in the table overwrites the
    receiver with the first constant of the type before the error is
    returned; [null] is read as the empty string and refused like it. *)
Theorem enum_codecs_refusals :
  refusals stringToInterface Ethernet NetworkInterface_UnmarshalJSON
  ∧ refusals stringToOperatingMode Backup OperatingMode_UnmarshalJSON
  ∧ refusals stringToSystemStatus GridConnected SystemStatus_UnmarshalJSON
  ∧ refusals stringToGridState Compliant GridState_UnmarshalJSON.
Proof.
  split_and!; (split_and!;
    [ intros a [] H; try done; by eexists
    | intros a s H; unfold NetworkInterface_UnmarshalJSON,
        OperatingMode_UnmarshalJSON, SystemStatus_UnmarshalJSON,
        GridState_UnmarshalJSON; cbn; by rewrite H
    | intros a; split; [reflexivity | by vm_compute] ]).
Qed.

(** A value decoded earlier is lost when a later document holds an
    unknown token, and kept when it holds a number. *)
Lemma enum_codecs_refusals_witness :
  (NetworkInterface_UnmarshalJSON Wifi (JString "Bluetooth")).2 = Ethernet
  ∧ ∃ kind, NetworkInterface_UnmarshalJSON Wifi (JNumber "3")
            = (Some (UnmarshalTypeError kind "string"), Wifi).
Proof.
  destruct enum_codecs_refusals as ((Htype & Hmiss & _) & _).
  split.
  - apply Hmiss. vm_compute. reflexivity.
  - apply Htype. exact I.
Defined.
End enum_codecs_more.

(** ** The scalar codecs on odd inputs *)

Section codecs_odd_inputs.
Import powerwall json.

Lemma uptimeRegex_match_shape (s : string) :
  regexp.FindStringSubmatch uptimeRegex s ≠ [] →
  ∃ whole g1 hours g3 minutes g5 seconds g7 nanoseconds,
    regexp.FindStringSubmatch uptimeRegex s
    = [whole; g1; hours; g3; minutes; g5; seconds; g7; nanoseconds].
Proof.
  intros H. apply FindStringSubmatch_length in H.
  change (regexp.NumSubexp uptimeRegex) with 8 in H.
  destruct (regexp.FindStringSubmatch uptimeRegex s)
    as [|? [|? [|? [|? [|? [|? [|? [|? [|? [|? ?]]]]]]]]]]; try discriminate H.
  by eexists _, _, _, _, _, _, _, _, _.
Qed.

(** X4: a string in which [uptimeRegex] finds a match whose hours group
    is empty is refused with the syntax error of [strconv.ParseInt] for
    the empty string, and the receiver keeps its value; the same happens
    when the hours parse but the minutes group is empty. So a duration
    is decoded only when hours, minutes, seconds and fraction are all
    present. *)
Theorem Duration_missing_group_is_refused (d0 : Duration) (s : string) :
  let found := regexp.FindStringSubmatch uptimeRegex s in
  found ≠ [] →
  (nth 2 found EmptyString = EmptyString →
   Duration_UnmarshalJSON d0 (JString s)
   = (Some (NumError "ParseInt" "" ErrSyntax), d0))
  ∧ (∀ h, strconv.ParseInt (nth 2 found EmptyString) = Ok h →
          nth 4 found EmptyString = EmptyString →
          Duration_UnmarshalJSON d0 (JString s)
          = (Some (NumError "ParseInt" "" ErrSyntax), d0)).
Proof.
  cbv zeta. intros Hfound.
  destruct (uptimeRegex_match_shape s Hfound)
    as (whole & g1 & hours & g3 & minutes & g5 & seconds & g7 & nanoseconds & Hshape).
  unfold Duration_UnmarshalJSON. cbn [Unmarshal_string]. rewrite Hshape.
  change (regexp.SubexpNames uptimeRegex)
    with [""; ""; "hours"; ""; "minutes"; ""; "seconds"; ""; "nanoseconds"]%string.
  cbn [nth zip zip_with parseCaptures String.eqb Ascii.eqb Bool.eqb].
  split.
  - intros ->. reflexivity.
  - intros h -> ->. reflexivity.
Qed.

(** Minutes and seconds without hours, and hours and seconds without
    minutes. *)
Lemma Duration_missing_group_is_refused_witness :
  Duration_UnmarshalJSON {| d := 7 |} (JString "3m5.0s")
  = (Some (NumError "ParseInt" "" ErrSyntax), {| d := 7 |})
  ∧ Duration_UnmarshalJSON {| d := 7 |} (JString "2h5.0s")
    = (Some (NumError "ParseInt" "" ErrSyntax), {| d := 7 |}).
Proof.
  split.
  - destruct (Duration_missing_group_is_refused {| d := 7 |} "3m5.0s") as [H _];
      [by vm_compute|].
    apply H. by vm_compute.
  - destruct (Duration_missing_group_is_refused {| d := 7 |} "2h5.0s") as [_ H];
      [by vm_compute|].
    apply (H 2%Z); by vm_compute.
Defined.

(** X5: a JSON [null] is not skipped by the scalar codecs: it is read as
    the empty string. The duration codec then stores a zero duration
    over the receiver, the timestamp codec the zero time, and the
    timezone codec asks [time.LoadLocation] for the empty name. The
    timezone codec returns an error only for a value that is neither a
    string nor [null]; such a value gives the decoder's type error and
    leaves the receiver of each of the three codecs unchanged. *)
Theorem scalar_codecs_null_and_wrong_type :
  (∀ d0 : Duration, Duration_UnmarshalJSON d0 JNull = (None, {| d := 0 |}))
  ∧ (∀ (Parse : string → string → result time.Time) (t0 : Time),
       Time_UnmarshalJSON Parse t0 JNull = (None, {| t := time.zero |}))
  ∧ (∀ (LoadLocation : string → result time.Location) (tz : TimeZone) (b : Value),
       (b = JNull →
        TimeZone_UnmarshalJSON LoadLocation tz b
        = TimeZone_UnmarshalJSON LoadLocation tz (JString ""))
       ∧ ((TimeZone_UnmarshalJSON LoadLocation tz b).1.1 ≠ None →
          notStringNorNull b))
  ∧ (∀ (Parse : string → string → result time.Time)
       (LoadLocation : string → result time.Location)
       (d0 : Duration) (t0 : Time) (tz : TimeZone) (b : Value),
       notStringNorNull b →
       ∃ kind,
         Duration_UnmarshalJSON d0 b = (Some (UnmarshalTypeError kind "string"), d0)
         ∧ Time_UnmarshalJSON Parse t0 b
           = (Some (UnmarshalTypeError kind "string"), t0)
         ∧ TimeZone_UnmarshalJSON LoadLocation tz b
           = (Some (UnmarshalTypeError kind "string"), tz, [])).
Proof.
  split_and!.
  - intros d0. by vm_compute.
  - reflexivity.
  - intros LoadLocation tz b. split; [by intros ->|].
    unfold TimeZone_UnmarshalJSON.
    destruct b; cbn; try done; by destruct (LoadLocation _).
  - intros Parse LoadLocation d0 t0 tz [] H; try done; by eexists.
Qed.

Lemma scalar_codecs_null_and_wrong_type_witness :
  ∃ kind,
    Duration_UnmarshalJSON {| d := 7 |} (JNumber "12.5")
    = (Some (UnmarshalTypeError kind "string"), {| d := 7 |}).
Proof.
  destruct scalar_codecs_null_and_wrong_type as (_ & _ & _ & Htype).
  destruct (Htype time.Parse LoadLocation_without_database {| d := 7 |}
              {| t := time.zero |} {| loc := None |} (JNumber "12.5") I)
    as (kind & Hd & _).
  by exists kind.
Defined.
End codecs_odd_inputs.

(** ** The projection, step by step *)

Section projection.
Import powerwall model.

(** Whether the step for the status fails, and with what, does not depend
    on the record it fills. *)
Lemma getStatus_errorOf (mon : Monitor) (p q : TeslaEnergyGatewayMetrics) :
  errorOf (getStatus mon p) = errorOf (getStatus mon q).
Proof.
  unfold getStatus. destruct (GetStatus mon) as [status|e]; [|done].
  cbn [mbind result_bind].
  destruct (negb _); [done|].
  destruct (strconv.ParseInt (nth 1 _ _)); [|done]. cbn [mbind result_bind].
  destruct (strconv.ParseInt (nth 2 _ _)); [|done]. cbn [mbind result_bind].
  by destruct (strconv.ParseInt (nth 3 _ _)).
Qed.

(** What a successful step for the status stores. *)
Lemma getStatus_ok (mon : Monitor) (p p' : TeslaEnergyGatewayMetrics) :
  getStatus mon p = Ok p' →
  ∃ status,
    GetStatus mon = Ok status
    ∧ Uptime p' = d (UpTime status)
    ∧ Fixed p' = Fixed p ∧ Mode p' = Mode p
    ∧ BackupReservePercent p' = BackupReservePercent p
    ∧ NetworkInterfaces p' = NetworkInterfaces p ∧ Meters p' = Meters p
    ∧ SiteMasterRunning p' = SiteMasterRunning p
    ∧ SiteMasterConnectedToTesla p' = SiteMasterConnectedToTesla p
    ∧ SiteMasterSupplyingPower p' = SiteMasterSupplyingPower p
    ∧ PowerwallChargePercent p' = PowerwallChargePercent p
    ∧ GridConnected p' = GridConnected p ∧ GridActive p' = GridActive p
    ∧ ∃ found,
        found = regexp.FindStringSubmatch versionRegex (powerwall.Version status)
        ∧ length found = 4
        ∧ strconv.ParseInt (nth 1 found EmptyString) = Ok (Major (Version p'))
        ∧ strconv.ParseInt (nth 2 found EmptyString) = Ok (Minor (Version p'))
        ∧ strconv.ParseInt (nth 3 found EmptyString) = Ok (Release (Version p')).
Proof.
  unfold getStatus. destruct (GetStatus mon) as [status|e]; [|done].
  cbn [mbind result_bind].
  destruct (length _ =? 4)%nat eqn:Hlen; [|done]. cbn [negb].
  apply Nat.eqb_eq in Hlen.
  destruct (strconv.ParseInt (nth 1 _ _)) as [major|] eqn:H1; [|done].
  cbn [mbind result_bind].
  destruct (strconv.ParseInt (nth 2 _ _)) as [minor|] eqn:H2; [|done].
  cbn [mbind result_bind].
  destruct (strconv.ParseInt (nth 3 _ _)) as [release|] eqn:H3; [|done].
  cbn [mbind result_bind]. intros [= <-]. exists status. cbn.
  split_and!; try done. by eexists.
Qed.

(** The whole projection in one piece: either the first failing step's
    error, or a record filled from the seven answers. *)
Lemma Poll_run (mon : Monitor) (fixed : FixedInfo) :
  match Poll mon fixed with
  | Err e => firstError mon = Some e
  | Ok stats =>
      firstError mon = None
      ∧ ∃ operation status networks siteMaster agg soe gridstatus p',
          GetOperation mon = Ok operation ∧ GetStatus mon = Ok status
          ∧ GetNetworks mon = Ok networks ∧ GetSiteMaster mon = Ok siteMaster
          ∧ GetAggregates mon = Ok agg ∧ GetSOE mon = Ok soe
          ∧ GetGridStatus mon = Ok gridstatus
          ∧ getStatus mon zeroMetrics = Ok p'
          ∧ Fixed stats = fixed
          ∧ Mode stats = RealMode operation
          ∧ BackupReservePercent stats = Operation_BackupReservePercent operation
          ∧ Uptime stats = d (UpTime status)
          ∧ Version stats = Version p'
          ∧ NetworkInterfaces stats
            = fold_left (λ acc nw, <[Network_Interface nw := networkDetails nw]> acc)
                        networks ∅
          ∧ SiteMasterRunning stats = Running siteMaster
          ∧ SiteMasterConnectedToTesla stats = ConnectedToTesla siteMaster
          ∧ SiteMasterSupplyingPower stats = PowerSupplyMode siteMaster
          ∧ Meters stats
            = <[Battery := getdetails (powerwall.Battery agg)]>
              (<[Solar := getdetails (powerwall.Solar agg)]>
              (<[Load := getdetails (powerwall.Load agg)]>
              (<[Total := getdetails (powerwall.Site agg)]> ∅)))
          ∧ PowerwallChargePercent stats = Percentage soe
          ∧ GridActive stats = GridStatus_Active gridstatus
          ∧ GridConnected stats
            = bool_decide (GridStatus_Status gridstatus = powerwall.GridConnected)
  end.
Proof.
  unfold Poll, getDynamicInfo, firstError. cbn [runOps].
  unfold getOperations at 1.
  destruct (GetOperation mon) as [operation|e]; cbn [errorOf mbind result_bind firstOf];
    [|done].
  match goal with |- context [getStatus mon ?p] =>
    set (p1 := p); pose proof (getStatus_errorOf mon p1 zeroMetrics) as Herr end.
  destruct (getStatus mon p1) as [p2|e] eqn:Hs; cbn [errorOf] in Herr;
    cbn [mbind result_bind]; [|by rewrite <- Herr].
  destruct (getStatus mon zeroMetrics) as [pz|] eqn:Hz; [|done].
  cbn [errorOf firstOf].
  apply getStatus_ok in Hs
    as (status & Hst & Hup & Hfx & Hmode & Hbrp & _ & _ & _ & _ & _ & _ & _ & _
        & found & -> & _ & Hmaj & Hmin & Hrel).
  apply getStatus_ok in Hz
    as (status' & Hst' & _ & _ & _ & _ & _ & _ & _ & _ & _ & _ & _ & _
        & found' & -> & _ & Hmaj' & Hmin' & Hrel').
  rewrite Hst in Hst'. injection Hst' as <-.
  rewrite Hmaj in Hmaj'. rewrite Hmin in Hmin'. rewrite Hrel in Hrel'.
  injection Hmaj' as Hmaj'. injection Hmin' as Hmin'. injection Hrel' as Hrel'.
  unfold getNetworks at 1.
  destruct (GetNetworks mon) as [networks|e]; cbn [errorOf mbind result_bind firstOf];
    [|done].
  unfold getSiteMaster at 1.
  destruct (GetSiteMaster mon) as [siteMaster|e];
    cbn [errorOf mbind result_bind firstOf]; [|done].
  unfold getAggregates at 1.
  destruct (GetAggregates mon) as [agg|e]; cbn [errorOf mbind result_bind firstOf];
    [|done].
  unfold getSOE at 1.
  destruct (GetSOE mon) as [soe|e]; cbn [errorOf mbind result_bind firstOf]; [|done].
  destruct (GetGridStatus mon) as [gridstatus|e];
    cbn [errorOf mbind result_bind firstOf]; [|done].
  split; [done|].
  exists operation, status, networks, siteMaster, agg, soe, gridstatus, pz.
  cbn. rewrite Hup, Hfx, Hmode, Hbrp. subst p1. cbn.
  split_and!; try done.
  destruct (Version p2), (Version pz). cbn in *. by subst.
Qed.

(** X6: a poll fails exactly when one of its steps fails, and then with
    the error of the first step that fails, in the order operation,
    status (its endpoint, then the version it reports), networks, site
    master, aggregates, state of charge, grid status; what later steps
    would answer does not matter. *)
Theorem Poll_returns_first_error (mon : Monitor) (fixed : FixedInfo) (e : error) :
  Poll mon fixed = Err e ↔ firstError mon = Some e.
Proof.
  pose proof (Poll_run mon fixed) as H.
  destruct (Poll mon fixed) as [stats|e'].
  - destruct H as [H _]. rewrite H. split; discriminate.
  - rewrite H. split; congruence.
Qed.

Lemma Poll_returns_first_error_witness :
  Poll (withNetworks (Err (TransportError "networks"))
          (withSOE (Err (TransportError "soe")) (gateway "20.49.3" 100 3 gridUp)))
       (Fixed zeroMetrics)
  = Err (TransportError "networks").
Proof. by apply Poll_returns_first_error. Defined.



Lemma fold_insert_lookup {K V A : Type} `{Countable K}
    (key : A → K) (f : A → V) (l : list A) :
  ∀ (m0 : gmap K V) (k : K),
    fold_left (λ acc x, <[key x := f x]> acc) l m0 !! k
    = match last (filter (λ x, key x = k) l) with
      | Some x => Some (f x)
      | None => m0 !! k
      end.
Proof.
  induction l as [|a l IH]; intros m0 k; [done|].
  cbn [fold_left]. rewrite IH. rewrite filter_cons.
  destruct (decide (key a = k)) as [<-|Hne].
  - rewrite last_cons. destruct (last (filter _ l)); [done|].
    by rewrite lookup_insert_eq.
  - destruct (last (filter _ l)); [done|]. by rewrite lookup_insert_ne.
Qed.

(** X8: when the gateway lists several networks on the same interface,
    the last one in the list is the one reported; every interface that
    is listed is reported, under its own key. *)
Theorem Poll_networks_last_wins (mon : Monitor) (fixed : FixedInfo)
    (stats : TeslaEnergyGatewayMetrics) (networks : list Network) :
  Poll mon fixed = Ok stats →
  GetNetworks mon = Ok networks →
  (∀ k : NetworkInterface,
      NetworkInterfaces stats !! k
      = networkDetails <$> last (filter (λ nw, Network_Interface nw = k) networks))
  ∧ (∀ (k : NetworkInterface) (details : NetworkInterfaceDetails),
       NetworkInterfaces stats !! k = Some details → Transport details = k).
Proof.
  intros HP Hnet. pose proof (Poll_run mon fixed) as H. rewrite HP in H.
  destruct H as (_ & operation & status & networks' & siteMaster & agg & soe
                 & gridstatus & p' & _ & _ & Hnet' & _ & _ & _ & _ & _ & _ & _ & _
                 & _ & _ & Hn & _).
  rewrite Hnet in Hnet'. injection Hnet' as <-.
  assert (Hlk : ∀ k, NetworkInterfaces stats !! k
                     = networkDetails <$> last (filter (λ nw, Network_Interface nw = k)
                                                   networks)).
  { intros k. rewrite Hn, fold_insert_lookup.
    by destruct (last (filter _ networks)). }
  split; [done|].
  intros k details. rewrite Hlk.
  destruct (last (filter _ networks)) as [nw|] eqn:Hlast; [|done].
  intros [= <-]. apply last_Some_elem_of, list_elem_of_filter in Hlast as [Hk _].
  done.
Qed.

Lemma Poll_networks_last_wins_witness :
  ∃ stats,
    Poll (withNetworks (Ok [network "first" Wifi; network "wired" Ethernet;
                            network "second" Wifi])
            (gateway "20.49.3" 100 3 gridUp)) (Fixed zeroMetrics) = Ok stats
    ∧ NetworkInterfaces stats !! Wifi = Some (networkDetails (network "second" Wifi))
    ∧ NetworkInterfaces stats !! Cellular = None.
Proof.
  set (nets := [network "first" Wifi; network "wired" Ethernet; network "second" Wifi]).
  destruct (Poll (withNetworks (Ok nets) (gateway "20.49.3" 100 3 gridUp))
              (Fixed zeroMetrics)) as [stats|] eqn:HP; [|by vm_compute in HP].
  exists stats.
  destruct (Poll_networks_last_wins _ _ stats nets HP eq_refl) as [Hlk _].
  split; [done|]. by rewrite !Hlk.
Defined.
End projection.

(** ** What a run of [Update] writes *)

(** An event is not in a list of events of other kinds. *)
Ltac not_listed H :=
  rewrite ?elem_of_cons, elem_of_nil in H;
  repeat (destruct H as [H|H]; [discriminate H|]); destruct H.

Section update_events.
Import model view.

Variable rangeNetworkInterfaces :
  gmap powerwall.NetworkInterface NetworkInterfaceDetails →
  list (powerwall.NetworkInterface * NetworkInterfaceDetails).
Variable rangeMeters :
  gmap MeterType MeterDetails → list (MeterType * MeterDetails).

Lemma directionEvents_fromMeterLoop (mt : MeterType) (dir : string) (delta : float) :
  dir = kTo ∨ dir = kFrom →
  Forall fromMeterLoop (directionEvents (MeterType_String mt) dir delta).
Proof.
  intros Hdir. unfold directionEvents.
  destruct (PrimFloat.ltb delta 0) eqn:Hneg;
    [destruct (PrimFloat.ltb delta (PrimFloat.opp epsilon));
     repeat first [exact I | constructor]|].
  constructor; [|constructor]. split; [done|]. by exists mt, dir.
Qed.

(** One round of the loop, whether or not the inner map of the meter
    exists. *)
Lemma updateMeter_fromMeterLoop (mt : MeterType) (meter : MeterDetails)
    (p : PrometheusCounters) :
  Forall fromMeterLoop (updateMeter mt meter p).2.
Proof.
  destruct (priorCumulative p !! mt) as [inner|] eqn:Hin.
  - rewrite (updateMeter_run mt meter p inner Hin). cbn [snd].
    unfold meterEvents. cbv zeta. rewrite !Forall_app. split_and!.
    + repeat (apply Forall_cons; split; [cbn; auto|]). apply Forall_nil_2.
    + apply directionEvents_fromMeterLoop. by left.
    + apply directionEvents_fromMeterLoop. by right.
  - unfold updateMeter, mbind, Action_bind, emit, readPrior, storePrior.
    cbv beta iota zeta. rewrite Hin. cbn [snd app].
    repeat (apply Forall_cons; split; [cbn; auto|]). apply Forall_nil_2.
Qed.

Lemma forEach_updateMeter_fromMeterLoop (l : list (MeterType * MeterDetails)) :
  ∀ p, Forall fromMeterLoop (forEach l (λ kv, updateMeter kv.1 kv.2) p).2.
Proof.
  induction l as [|[mt meter] l IH]; intros p; [by constructor|].
  cbn [forEach]. rewrite bind_run. cbn [fst snd].
  pose proof (updateMeter_fromMeterLoop mt meter p) as H1.
  destruct (updateMeter mt meter p) as [[[[]|err] p1] evs1]; [|done].
  pose proof (IH p1) as H2.
  destruct (forEach l _ p1) as [[r p2] evs2]. cbn [snd] in *.
  by apply Forall_app.
Qed.

Lemma gaugeWrites_app (g : Gauge) (a b : list Event) :
  gaugeWrites g (a ++ b) = gaugeWrites g a ++ gaugeWrites g b.
Proof. apply omap_app. Qed.

Lemma gaugeWrites_elem_of (g : Gauge) (v : float) (evs : list Event) :
  GaugeSet g v ∈ evs ↔ v ∈ gaugeWrites g evs.
Proof.
  unfold gaugeWrites. rewrite list_elem_of_omap. split.
  - intros H. exists (GaugeSet g v). split; [done|]. by rewrite decide_True.
  - intros (e & He & Hv). destruct e as [| |g' v'| |]; try done.
    destruct (decide (g' = g)) as [->|]; [|done]. by injection Hv as ->.
Qed.

Lemma gaugeWrites_fromMeterLoop (g : Gauge) (evs : list Event) :
  Forall fromMeterLoop evs → gaugeWrites g evs = [].
Proof.
  induction 1 as [|e evs He _ IH]; [done|].
  destruct e; try done; exact IH.
Qed.

Lemma gaugeWrites_networkEvents (g : Gauge)
    (l : list (powerwall.NetworkInterface * NetworkInterfaceDetails)) :
  gaugeWrites g (networkEvents l) = [].
Proof.
  induction l as [|kv l IH]; [done|].
  change (networkEvents (kv :: l)) with (networkEvents [kv] ++ networkEvents l).
  by rewrite gaugeWrites_app, IH.
Qed.

Lemma fromMeterLoop_adds (labels : gmap string string) (v : float)
    (evs : list Event) :
  Forall fromMeterLoop evs → cumulativePowerAdd labels v ∈ evs →
  fromMeterLoop (cumulativePowerAdd labels v).
Proof. intros H Hin. by apply (proj1 (Forall_forall _ _) H). Qed.

Lemma networkEvents_no_add (labels : gmap string string) (v : float)
    (l : list (powerwall.NetworkInterface * NetworkInterfaceDetails)) :
  cumulativePowerAdd labels v ∉ networkEvents l.
Proof.
  induction l as [|kv l IH]; [apply not_elem_of_nil|].
  change (networkEvents (kv :: l)) with (networkEvents [kv] ++ networkEvents l).
  rewrite elem_of_app. intros [H|H]; [|done].
  cbn in H. not_listed H.
Qed.

(** X9: whatever the snapshot and the stored readings, a run of [Update]
    never adds a value below zero to the cumulative counter, and it adds
    only to series labelled with a meter and the direction "to" or
    "from". So the panic of a Prometheus counter on a negative increment
    cannot happen. *)
Theorem Update_never_decrements_a_counter
    (m : TeslaEnergyGatewayMetrics) (p : PrometheusCounters)
    (labels : gmap string string) (v : float) :
  cumulativePowerAdd labels v ∈ (Update rangeNetworkInterfaces rangeMeters m p).2 →
  PrimFloat.ltb v 0 = false
  ∧ ∃ (mt : MeterType) (direction : string),
      (direction = kTo ∨ direction = kFrom)
      ∧ labels = {[ kMeter := MeterType_String mt; kDirection := direction ]}.
Proof.
  rewrite Update_run.
  destruct (strconv.ParseInt (flattenedString m)) as [flat|err].
  - pose proof (forEach_updateMeter_fromMeterLoop (rangeMeters (Meters m)) p) as Hm.
    destruct (forEach (rangeMeters (Meters m)) _ p) as [[r p'] mevs].
    cbn [snd] in *. rewrite !elem_of_app. intros [H|[H|[H|[H|[H|H]]]]].
    + unfold gaugesBeforeFlatten in H. not_listed H.
    + not_listed H.
    + by apply networkEvents_no_add in H.
    + unfold siteMasterEvents in H. not_listed H.
    + exact (fromMeterLoop_adds labels v mevs Hm H).
    + destruct r; [|by apply elem_of_nil in H].
      unfold gridEvents in H. not_listed H.
  - cbn [snd]. unfold gaugesBeforeFlatten. intros H. not_listed H.
Qed.

Lemma float_one_ne_zero : 1%float ≠ 0%float.
Proof. intros H. apply (f_equal Prim2SF) in H. vm_compute in H. discriminate H. Qed.

(** X10: a run of [Update] that succeeds writes each scalar gauge exactly
    once, but for the four gauges of the fixed fields, which it never
    writes; and it never sets both the backup-mode gauge and the
    self-consumption-mode gauge to 1. *)
Theorem Update_writes_each_gauge_once
    (m : TeslaEnergyGatewayMetrics) (p p' : PrometheusCounters) (evs : list Event) :
  Update rangeNetworkInterfaces rangeMeters m p = (Ok tt, p', evs) →
  (∀ g : Gauge,
      length (gaugeWrites g evs) = if bool_decide (g ∈ fixedGauges) then 0 else 1)
  ∧ ¬ (GaugeSet backupMode 1 ∈ evs ∧ GaugeSet selfConsumptionMode 1 ∈ evs).
Proof.
  intros H. rewrite Update_run in H.
  destruct (strconv.ParseInt (flattenedString m)) as [flat|err]; [|done].
  pose proof (forEach_updateMeter_fromMeterLoop (rangeMeters (Meters m)) p) as Hm.
  destruct (forEach (rangeMeters (Meters m)) _ p) as [[r p1] mevs].
  cbn [snd] in Hm. injection H as -> -> <-.
  assert (Hw : ∀ g,
    gaugeWrites g (gaugesBeforeFlatten m
                   ++ [GaugeSet flattenedVersion (float64_of_int64 flat)]
                   ++ networkEvents (rangeNetworkInterfaces (NetworkInterfaces m))
                   ++ siteMasterEvents m ++ mevs ++ gridEvents m)
    = gaugeWrites g (gaugesBeforeFlatten m
                     ++ [GaugeSet flattenedVersion (float64_of_int64 flat)]
                     ++ siteMasterEvents m ++ gridEvents m)).
  { intros g. rewrite !gaugeWrites_app, gaugeWrites_networkEvents.
    by rewrite (gaugeWrites_fromMeterLoop g mevs Hm). }
  split.
  - intros g. rewrite Hw. by destruct g.
  - intros [H1 H2]. apply gaugeWrites_elem_of in H1, H2. rewrite Hw in H1, H2.
    change (gaugeWrites backupMode _)
      with [if decide (Mode m = powerwall.Backup) then 1%float else 0%float] in H1.
    change (gaugeWrites selfConsumptionMode _)
      with [if decide (Mode m = powerwall.SelfConsumption)
            then 1%float else 0%float] in H2.
    apply list_elem_of_singleton in H1, H2.
    destruct (decide (Mode m = powerwall.Backup)) as [Hb|_];
      [|by apply float_one_ne_zero].
    destruct (decide (Mode m = powerwall.SelfConsumption)) as [Hs|_];
      [|by apply float_one_ne_zero].
    congruence.
Qed.
End update_events.

Lemma Update_never_decrements_a_counter_witness :
  PrimFloat.ltb 5 0 = false
  ∧ ∃ (mt : model.MeterType) (direction : string),
      (direction = view.kTo ∨ direction = view.kFrom)
      ∧ ({[ view.kMeter := "site"; view.kDirection := "to" ]} : gmap string string)
        = {[ view.kMeter := model.MeterType_String mt;
             view.kDirection := direction ]}.
Proof.
  apply (Update_never_decrements_a_counter walk walk
           (metricsWith {| model.Major := 20; model.Minor := 49; model.Release := 3 |}
              {[ model.Total := meterWith 5 0 ]})
           freshCounters).
  apply (list_elem_of_lookup_2 _ 17). vm_compute. reflexivity.
Defined.

Lemma Update_writes_each_gauge_once_witness :
  ∃ evs,
    (view.Update walk walk
       (metricsWith {| model.Major := 20; model.Minor := 49; model.Release := 3 |}
          {[ model.Total := meterWith 5 0 ]})
       freshCounters).2 = evs
    ∧ length (gaugeWrites gridActive evs) = 1
    ∧ length (gaugeWrites numPowerwalls evs) = 0.
Proof.
  set (m := metricsWith {| model.Major := 20; model.Minor := 49; model.Release := 3 |}
              {[ model.Total := meterWith 5 0 ]}).
  destruct (view.Update walk walk m freshCounters) as [[r p'] evs] eqn:HU.
  assert (r = Ok tt) as ->.
  { apply (f_equal (λ x, x.1.1)) in HU. vm_compute in HU. symmetry. exact HU. }
  exists evs. split; [done|].
  destruct (Update_writes_each_gauge_once walk walk m freshCounters p' evs HU)
    as [Hlen _].
  by rewrite !Hlen.
Defined.

(** ** The instruments [view.New] registers *)

Section view_New.
Import model view.

Lemma registerAll_spec (Register : Collector → option error) (cs : list Collector) :
  match registerAll Register cs with
  | Some e =>
      ∃ pre c post, cs = pre ++ c :: post
                    ∧ Forall (λ c', Register c' = None) pre
                    ∧ Register c = Some e
  | None => Forall (λ c, Register c = None) cs
  end.
Proof.
  induction cs as [|c cs IH]; [by constructor|].
  cbn [registerAll]. destruct (Register c) as [e|] eqn:Hc.
  - by exists [], c, cs.
  - destruct (registerAll Register cs) as [e|].
    + destruct IH as (pre & c' & post & -> & Hpre & Hc').
      exists (c :: pre), c', post. split_and!; [done| |done]. by constructor.
    + by constructor.
Qed.

Lemma cols_complete (c : Collector) : c ∈ cols.
Proof. destruct c as [[]|[]|]; apply (bool_decide_unpack _); by vm_compute. Qed.

(** X11: [New] offers every instrument of the view to the registry, each
    once; it stops at the first instrument the registry refuses and
    returns that error; and when none is refused, the counters it returns
    read zero as the last reading of every meter and direction. *)
Theorem New_registers_every_instrument_once :
  (∀ c : Collector, c ∈ cols)
  ∧ NoDup cols
  ∧ ∀ (Register : Collector → option error) (fixed : FixedInfo),
      match (New Register fixed).1 with
      | Err e =>
          ∃ pre c post, cols = pre ++ c :: post
                        ∧ Forall (λ c', Register c' = None) pre
                        ∧ Register c = Some e
      | Ok p =>
          (∀ c, Register c = None)
          ∧ ∀ (mt : MeterType) (dir : string), prior p mt dir = 0%float
      end.
Proof.
  split_and!.
  - apply cols_complete.
  - apply (bool_decide_unpack _). by vm_compute.
  - intros Register fixed. unfold New.
    pose proof (registerAll_spec Register cols) as H.
    destruct (registerAll Register cols) as [e|]; cbn [fst]; [done|].
    split.
    + intros c. apply (proj1 (Forall_forall _ _) H), cols_complete.
    + by intros [] dir.
Qed.
End view_New.

(** ** The engines the controller can hold *)

Section reachable_engines.
Import model view controller.

Variable Register : Collector → option error.
Variable rangeNetworkInterfaces :
  gmap powerwall.NetworkInterface NetworkInterfaceDetails →
  list (powerwall.NetworkInterface * NetworkInterfaceDetails).
Variable rangeMeters :
  gmap MeterType MeterDetails → list (MeterType * MeterDetails).

Lemma reachable_inner_maps (p : PollEngine) :
  reachable Register rangeNetworkInterfaces rangeMeters p →
  ∀ mt, is_Some (priorCumulative (controller.view p) !! mt).
Proof.
  induction 1 as [answers fixed v Hnew|p answers _ IH]; intros mt.
  - cbn [controller.view]. rewrite (New_creates_inner_maps Register fixed v Hnew mt).
    by eexists.
  - unfold poll. cbn [mon controller.fixed controller.view].
    destruct (Poll answers (controller.fixed p)) as [stats|err]; [|apply IH].
    pose proof (Update_keeps_inner_maps rangeNetworkInterfaces rangeMeters stats
                  (controller.view p) IH mt) as H.
    by destruct (Update _ _ stats (controller.view p)) as [[[[]|err] v] evs].
Qed.

(** X12: in every engine the controller can hold, the write into a
    missing inner map of the stored readings cannot happen, whatever the
    gateway answers: a cycle fails only with the error of the projection
    or, when the projection succeeds, with the error of parsing the
    flattened version; otherwise it succeeds. *)
Theorem poll_fails_only_on_projection_or_flattening
    (p : PollEngine) (answers : powerwall.Monitor) :
  reachable Register rangeNetworkInterfaces rangeMeters p →
  (poll rangeNetworkInterfaces rangeMeters
     {| mon := answers; fixed := fixed p; controller.view := controller.view p |}).1.1
  = match Poll answers (fixed p) with
    | Err e => Some e
    | Ok stats => errorOf (strconv.ParseInt (flattenedString stats))
    end.
Proof.
  intros Hp. pose proof (reachable_inner_maps p Hp) as Hall.
  unfold poll. cbn [mon fixed controller.view].
  destruct (Poll answers (fixed p)) as [stats|err]; [|done].
  rewrite Update_run.
  destruct (strconv.ParseInt (flattenedString stats)) as [flat|err]; [|done].
  destruct (forEach_updateMeter_keeps_inner_maps (rangeMeters (Meters stats))
              (controller.view p) Hall) as (p' & evs & -> & _).
  done.
Qed.
End reachable_engines.

Lemma poll_fails_only_on_projection_or_flattening_witness :
  (controller.poll walk walk
     {| controller.mon := gateway "20.49.3" 100 3 gridUp;
        controller.fixed := model.Fixed model.zeroMetrics;
        controller.view :=
          (controller.poll walk walk
             {| controller.mon := gateway "20.49.3" 90 3 gridUp;
                controller.fixed := model.Fixed model.zeroMetrics;
                controller.view := freshCounters |}).1.2.(controller.view) |}).1.1
  = None.
Proof.
  set (p0 := {| controller.mon := gateway "20.49.3" 90 3 gridUp;
                controller.fixed := model.Fixed model.zeroMetrics;
                controller.view := freshCounters |}).
  assert (Hreach : reachable (λ _, None) walk walk (controller.poll walk walk p0).1.2).
  { apply (reachable_poll _ _ _ p0 (gateway "20.49.3" 90 3 gridUp)).
    by apply reachable_Run. }
  pose proof (poll_fails_only_on_projection_or_flattening (λ _, None) walk walk
                (controller.poll walk walk p0).1.2
                (gateway "20.49.3" 100 3 gridUp) Hreach) as H.
  assert (Hfixed : controller.fixed (controller.poll walk walk p0).1.2
                   = model.Fixed model.zeroMetrics) by by vm_compute.
  rewrite Hfixed in H. rewrite H. by vm_compute.
Defined.

(** ** Requests for the metrics *)

Section serving.
Import model view controller.

Variable rangeNetworkInterfaces :
  gmap powerwall.NetworkInterface NetworkInterfaceDetails →
  list (powerwall.NetworkInterface * NetworkInterfaceDetails).
Variable rangeMeters :
  gmap MeterType MeterDetails → list (MeterType * MeterDetails).

Lemma not_an_Instrument (eff : Effect) (evs : list Event) :
  (∀ e, eff ≠ Instrument e) → eff ∉ Instrument <$> evs.
Proof. intros Hne (e & -> & _)%list_elem_of_fmap. by apply (Hne e). Qed.

(** X13: a request is answered from a poll made for it. The metrics are
    rendered exactly when that poll succeeds, the status 500 is written
    exactly when it fails, no other status is ever written, and the
    engine is left as the poll leaves it. *)
Theorem ServeHTTP_renders_iff_the_poll_succeeds (before after : Z) (p : PollEngine) :
  let cycle := poll rangeNetworkInterfaces rangeMeters p in
  let answer := ServeHTTP rangeNetworkInterfaces rangeMeters before after p in
  answer.1 = cycle.1.2
  ∧ (promHandler_ServeHTTP ∈ answer.2 ↔ cycle.1.1 = None)
  ∧ (WriteHeader 500 ∈ answer.2 ↔ cycle.1.1 ≠ None)
  ∧ (∀ code, WriteHeader code ∈ answer.2 → code = 500%Z).
Proof.
  cbv zeta. unfold ServeHTTP.
  destruct (poll rangeNetworkInterfaces rangeMeters p) as [[[err|] p'] evs];
    cbn [fst snd]; (split_and!; [done|..]).
  - split; [|done]. rewrite elem_of_app. intros [H|H].
    + by apply not_an_Instrument in H.
    + not_listed H.
  - split; [done|]. intros _. rewrite elem_of_app. right.
    apply list_elem_of_In. cbn. tauto.
  - intros code. rewrite elem_of_app. intros [H|H].
    + by apply not_an_Instrument in H.
    + rewrite !elem_of_cons, elem_of_nil in H.
      destruct H as [H|[H|[]]]; [discriminate H | by injection H].
  - split; [done|]. intros _. rewrite elem_of_app. right.
    apply list_elem_of_In. cbn. tauto.
  - split; [|done]. rewrite elem_of_app. intros [H|H].
    + by apply not_an_Instrument in H.
    + not_listed H.
  - intros code. rewrite elem_of_app. intros [H|H].
    + by apply not_an_Instrument in H.
    + not_listed H.
Qed.

(** X14: when a step of the projection fails during a request, the
    request is answered with status 500 and nothing else: the error of
    the first failing step is logged, no instrument is written, the
    metrics are not rendered, and the engine with its stored readings is
    what it was. *)
Theorem ServeHTTP_gateway_failure (before after : Z) (p : PollEngine) (e : error) :
  firstError (mon p) = Some e →
  ServeHTTP rangeNetworkInterfaces rangeMeters before after p
  = (p, [ Instrument (glog_Errorf "PollEngine.pollOnce(): %v" [ArgError e]);
          WriteHeader 500 ]).
Proof.
  intros He. unfold ServeHTTP, poll.
  pose proof (Poll_run (mon p) (fixed p)) as H.
  destruct (Poll (mon p) (fixed p)) as [stats|e'].
  - destruct H as [H _]. congruence.
  - rewrite He in H. by injection H as ->.
Qed.
End serving.

Lemma ServeHTTP_gateway_failure_witness :
  controller.ServeHTTP walk walk 0 1
    {| controller.mon := gateway "20.49" 100 3 gridUp;
       controller.fixed := model.Fixed model.zeroMetrics;
       controller.view := freshCounters |}
  = ({| controller.mon := gateway "20.49" 100 3 gridUp;
        controller.fixed := model.Fixed model.zeroMetrics;
        controller.view := freshCounters |},
     [ Instrument (glog_Errorf "PollEngine.pollOnce(): %v"
                     [ArgError (Errorf "version %q unexpected, want A.B.C" "20.49")]);
       WriteHeader 500 ]).
Proof. apply ServeHTTP_gateway_failure. vm_compute. reflexivity. Defined.

(** ** Starting the controller *)

Section running.
Import model view controller.

Variable rangeNetworkInterfaces :
  gmap powerwall.NetworkInterface NetworkInterfaceDetails →
  list (powerwall.NetworkInterface * NetworkInterfaceDetails).
Variable rangeMeters :
  gmap MeterType MeterDetails → list (MeterType * MeterDetails).
Variable Register : Collector → option error.



End running.


(** ** The fixed fields *)

Section fixed_fields.
Import powerwall model.

Lemma int64_idemp (z : Z) : int64 (int64 z) = int64 z.
Proof. apply int64_congr, int64_mod. Qed.

Lemma int64_small (z : Z) : (- 2 ^ 63 ≤ z < 2 ^ 63)%Z → int64 z = z.
Proof. intros H. unfold int64. rewrite Z.mod_small; lia. Qed.

Lemma fold_ratings (solars : list SolarArray) :
  ∀ acc : Z,
    int64 acc = acc →
    fold_left (λ rval s, int64 (rval + PowerRatingWatts s)) solars acc
    = int64 (acc + foldr Z.add 0%Z (PowerRatingWatts <$> solars)).
Proof.
  induction solars as [|s solars IH]; intros acc Hacc.
  - cbn. by rewrite Z.add_0_r.
  - cbn [fold_left fmap list_fmap foldr]. rewrite IH by apply int64_idemp.
    apply int64_congr.
    rewrite Zplus_mod, int64_mod, <- Zplus_mod. f_equal. lia.
Qed.

Lemma fold_serials (pws : list Powerwall) :
  ∀ acc : list string,
    fold_left (λ rval pw, rval ++ [PackageSerialNumber pw]) pws acc
    = acc ++ (PackageSerialNumber <$> pws).
Proof.
  induction pws as [|pw pws IH]; intros acc; cbn; [by rewrite app_nil_r|].
  by rewrite IH, <- app_assoc.
Qed.

(** X17: the fixed fields are fetched exactly when the four endpoints
    asked at start-up all answer. Then the serial numbers are those of
    the Powerwalls in the order reported, the number of Powerwalls is
    their count, and the total solar rating is the sum of the ratings of
    the arrays, wrapped to 64 bits, which is the sum itself when that is
    in range. *)
Theorem New_fixed_fields (mon : StartupMonitor) :
  match New mon with
  | Done fi =>
      ∃ si pws config solars,
        GetSiteInfo mon = Ok si ∧ GetPowerwalls mon = Ok pws
        ∧ GetConfig mon = Ok config ∧ GetSolars mon = Ok solars
        ∧ PowerwallSerialNumbers fi = PackageSerialNumber <$> Powerwalls_Powerwalls pws
        ∧ NumPowerwalls fi = Z.of_nat (length (PowerwallSerialNumbers fi))
        ∧ TotalSolarPowerRatingWatts fi
          = int64 (foldr Z.add 0%Z (PowerRatingWatts <$> solars))
        ∧ ((- 2 ^ 63 ≤ foldr Z.add 0 (PowerRatingWatts <$> solars) < 2 ^ 63)%Z →
           TotalSolarPowerRatingWatts fi
           = foldr Z.add 0%Z (PowerRatingWatts <$> solars))
  | Failed f =>
      is_Err (GetSiteInfo mon) ∨ is_Err (GetPowerwalls mon)
      ∨ is_Err (GetConfig mon) ∨ is_Err (GetSolars mon)
  end.
Proof.
  unfold New, fetchFixedInfo.
  destruct (GetSiteInfo mon) as [si|e1]; [|by left].
  destruct (GetPowerwalls mon) as [pws|e2]; [|by right; left].
  destruct (GetConfig mon) as [config|e3]; [|by right; right; left].
  destruct (GetSolars mon) as [solars|e4]; [|by right; right; right].
  exists si, pws, config, solars. cbn [PowerwallSerialNumbers NumPowerwalls
    TotalSolarPowerRatingWatts].
  rewrite fold_serials, (fold_ratings solars 0%Z) by done. cbn [app].
  rewrite Z.add_0_l, length_fmap. split_and!; try done.
  apply int64_small.
Qed.
End fixed_fields.

Lemma New_fixed_fields_witness :
  ∃ fi, model.New (startup ["a"; "b"] [4000; 3500]%Z) = Done fi
        ∧ model.NumPowerwalls fi = 2%Z
        ∧ model.TotalSolarPowerRatingWatts fi = 7500%Z.
Proof.
  pose proof (New_fixed_fields (startup ["a"; "b"] [4000; 3500]%Z)) as H.
  destruct (model.New (startup ["a"; "b"] [4000; 3500]%Z)) as [fi|f] eqn:HN;
    [|by vm_compute in HN].
  destruct H as (si & pws & config & solars & _ & Hp & _ & Hs & Hsn & Hnum & _ & Htot).
  injection Hp as <-. injection Hs as <-.
  exists fi. split; [done|]. split.
  - by rewrite Hnum, Hsn.
  - rewrite Htot; [done|]. by vm_compute.
Defined.

(** ** What the matcher finds *)

Section exact_matching.
Import regexp.
Context {R : Type}.

Lemma exec_class_step (p : ascii → bool) (k : thread → option R) (c : ascii)
    (s : string) (i : nat) (cp : gmap nat (nat * nat)) :
  p c = true →
  exec (CharClass p) (Thread i (String c s) cp) k = k (Thread (S i) s cp).
Proof. intros H. cbn. by rewrite H. Qed.

Lemma exec_class_stop (p : ascii → bool) (k : thread → option R)
    (s : string) (i : nat) (cp : gmap nat (nat * nat)) :
  startsWith p s = false →
  exec (CharClass p) (Thread i s cp) k = None.
Proof. intros H. destruct s as [|c s]; cbn in *; [done|]. by rewrite H. Qed.

(** A greedy loop over a class takes every character of the class when
    what follows accepts the text from there. *)
Lemma iterate_class_exact (p : ascii → bool) (k : thread → option R) (r' : string)
    (cp : gmap nat (nat * nat)) (x : R) :
  startsWith p r' = false →
  ∀ (ds : string) (i fuel : nat),
    allChars p ds = true →
    String.length ds < fuel →
    k (Thread (i + String.length ds) r' cp) = Some x →
    iterate (exec (CharClass p)) true fuel (Thread i (ds ++ r') cp) k = Some x.
Proof.
  intros Hstop.
  induction ds as [|c ds IH]; intros i fuel Hds Hfuel Hk.
  - destruct fuel as [|fuel]; [cbn in Hfuel; lia|].
    cbn [String.length] in *. rewrite Nat.add_0_r in Hk.
    change ("" ++ r')%string with r'.
    cbn [iterate]. by rewrite exec_class_stop.
  - destruct fuel as [|fuel]; [cbn in Hfuel; lia|].
    cbn [allChars] in Hds. apply andb_true_iff in Hds as [Hc Hds].
    change (String c ds ++ r')%string with (String c (ds ++ r')).
    cbn [String.length] in Hfuel, Hk.
    cbn [iterate]. rewrite exec_class_step by done.
    cbn [rest String.length].
    assert ((String.length (ds ++ r') <? S (String.length (ds ++ r')))%nat = true)
      as -> by (apply Nat.ltb_lt; lia).
    rewrite (IH (S i) fuel Hds); [done|lia|].
    by replace (S i + String.length ds) with (i + S (String.length ds)) by lia.
Qed.

(** A greedy loop over a class gives back what it took when what follows
    refuses the text from every later offset. *)
Lemma iterate_class_backtrack (p : ascii → bool) (k : thread → option R)
    (cp : gmap nat (nat * nat)) :
  ∀ (v : string) (i fuel : nat),
    (∀ v1 v2, v = (v1 ++ v2)%string → v1 ≠ EmptyString →
              k (Thread (i + String.length v1) v2 cp) = None) →
    iterate (exec (CharClass p)) true fuel (Thread i v cp) k = k (Thread i v cp).
Proof.
  induction v as [|c v IH]; intros i fuel Hk.
  - destruct fuel; [done|]. cbn [iterate]. by rewrite exec_class_stop.
  - destruct fuel as [|fuel]; [done|]. cbn [iterate].
    destruct (p c) eqn:Hc.
    + rewrite exec_class_step by done. cbn [rest String.length].
      assert ((String.length v <? S (String.length v))%nat = true)
        as -> by (apply Nat.ltb_lt; lia).
      rewrite IH.
      * assert (k (Thread (S i) v cp) = None) as ->; [|done].
        replace (S i) with (i + String.length (String c "")) by (cbn; lia).
        by apply Hk.
      * intros v1 v2 -> Hv1.
        replace (S i + String.length v1)
          with (i + String.length (String c v1)) by (cbn; lia).
        by apply Hk.
    + by rewrite exec_class_stop.
Qed.

Lemma capture_class_exact (p : ascii → bool) (k : thread → option R)
    (idx : nat) (name : string) (ds r' : string) (i : nat)
    (cp : gmap nat (nat * nat)) (x : R) :
  ds ≠ EmptyString → allChars p ds = true → startsWith p r' = false →
  k (Thread (i + String.length ds) r' (<[idx := (i, i + String.length ds)]> cp))
  = Some x →
  exec (Capture idx name (Plus true (CharClass p))) (Thread i (ds ++ r') cp) k
  = Some x.
Proof.
  intros Hne Hds Hstop Hk. destruct ds as [|c ds]; [done|].
  cbn [allChars] in Hds. apply andb_true_iff in Hds as [Hc Hds].
  change (String c ds ++ r')%string with (String c (ds ++ r')).
  rewrite exec_capture_eq, exec_plus_eq, exec_class_step by done. cbn [rest].
  apply iterate_class_exact;
    [done | done | rewrite string_length_app; lia |].
  cbn [pos rest cap String.length] in *.
  by replace (S i + String.length ds) with (i + S (String.length ds)) by lia.
Qed.

Lemma exec_lit_step (k : thread → option R) (a : ascii) (r' : string) (i : nat)
    (cp : gmap nat (nat * nat)) :
  exec (lit a) (Thread i (String a r') cp) k = k (Thread (S i) r' cp).
Proof. unfold lit. cbn [exec rest pos cap]. by rewrite Ascii.eqb_refl. Qed.

(** A greedy loop over a class, followed by something that accepts the
    text after [u] and refuses it from every later offset, stops after
    [u]. *)
Lemma iterate_class_greedy_last (p : ascii → bool) (k : thread → option R)
    (v : string) (cp : gmap nat (nat * nat)) (x : R) :
  ∀ (u : string) (i fuel : nat),
    allChars p u = true →
    String.length u < fuel →
    k (Thread (i + String.length u) v cp) = Some x →
    (∀ v1 v2, v = (v1 ++ v2)%string → v1 ≠ EmptyString →
       k (Thread (i + String.length u + String.length v1) v2 cp) = None) →
    iterate (exec (CharClass p)) true fuel (Thread i (u ++ v) cp) k = Some x.
Proof.
  induction u as [|c u IH]; intros i fuel Hu Hfuel Hk Hlater.
  - cbn [String.length] in *. rewrite Nat.add_0_r in Hk.
    change ("" ++ v)%string with v. rewrite iterate_class_backtrack; [done|].
    intros v1 v2 Hv Hv1. specialize (Hlater v1 v2 Hv Hv1).
    by rewrite Nat.add_0_r in Hlater.
  - destruct fuel as [|fuel]; [cbn in Hfuel; lia|].
    cbn [allChars] in Hu. apply andb_true_iff in Hu as [Hc Hu].
    change (String c u ++ v)%string with (String c (u ++ v)).
    cbn [String.length] in Hfuel, Hk, Hlater.
    cbn [iterate]. rewrite exec_class_step by done.
    cbn [rest String.length].
    assert ((String.length (u ++ v) <? S (String.length (u ++ v)))%nat = true)
      as -> by (apply Nat.ltb_lt; lia).
    rewrite (IH (S i) fuel Hu); [done|lia| |].
    + by replace (S i + String.length u) with (i + S (String.length u)) by lia.
    + intros v1 v2 Hv Hv1.
      replace (S i + String.length u) with (i + S (String.length u)) by lia.
      by apply Hlater.
Qed.

Lemma plus_class_exact (p : ascii → bool) (k : thread → option R)
    (ds r' : string) (i : nat) (cp : gmap nat (nat * nat)) (x : R) :
  ds ≠ EmptyString → allChars p ds = true → startsWith p r' = false →
  k (Thread (i + String.length ds) r' cp) = Some x →
  exec (Plus true (CharClass p)) (Thread i (ds ++ r') cp) k = Some x.
Proof.
  intros Hne Hds Hstop Hk. destruct ds as [|c ds]; [done|].
  cbn [allChars] in Hds. apply andb_true_iff in Hds as [Hc Hds].
  change (String c ds ++ r')%string with (String c (ds ++ r')).
  rewrite exec_plus_eq, exec_class_step by done. cbn [rest].
  apply iterate_class_exact;
    [done | done | rewrite string_length_app; lia |].
  cbn [String.length] in Hk.
  by replace (S i + String.length ds) with (i + S (String.length ds)) by lia.
Qed.

Lemma exec_star_eq (g : bool) (r : Regexp) (t : thread) (k : thread → option R) :
  exec (Star g r) t k = iterate (exec r) g (S (String.length (rest t))) t k.
Proof. reflexivity. Qed.
End exact_matching.

Lemma allDigits_allChars (s : string) : allDigits s = allChars regexp.digit s.
Proof. induction s as [|c s IH]; [done|]. cbn. by rewrite IH. Qed.

Lemma substring_prefix (w post : string) :
  substring 0 (String.length w) (w ++ post) = w.
Proof.
  induction w as [|c w IH]; [by destruct post|].
  change (String c w ++ post)%string with (String c (w ++ post)).
  cbn [String.length substring]. by rewrite IH.
Qed.

Lemma substring_middle (pre w post : string) :
  substring (String.length pre) (String.length w) (pre ++ w ++ post) = w.
Proof.
  induction pre as [|c pre IH]; [exact (substring_prefix w post)|].
  change (String c pre ++ w ++ post)%string with (String c (pre ++ w ++ post)).
  cbn [String.length substring]. apply IH.
Qed.

(** The version pattern on a string that starts with three numeric
    components: the components are the groups. *)
Lemma versionRegex_exact (a b c tail : string) :
  numeric a → numeric b → numeric c → startsWith regexp.digit tail = false →
  regexp.FindStringSubmatch model.versionRegex (a ++ "." ++ b ++ "." ++ c ++ tail)
  = [ (a ++ "." ++ b ++ "." ++ c)%string; a; b; c ].
Proof.
  intros [Ha Hda] [Hb Hdb] [Hc Hdc] Htail.
  rewrite allDigits_allChars in Hda, Hdb, Hdc.
  set (s := (a ++ "." ++ b ++ "." ++ c ++ tail)%string).
  set (la := String.length a). set (lb := String.length b).
  set (lc := String.length c).
  assert (Hexec : regexp.exec model.versionRegex (regexp.Thread 0 s ∅) Some
    = Some (regexp.Thread (S (S (0 + la) + lb) + lc) tail
              (<[3 := (S (S (0 + la) + lb), S (S (0 + la) + lb) + lc)]>
                 (<[2 := (S (0 + la), S (0 + la) + lb)]>
                    (<[1 := (0, 0 + la)]> ∅))))).
  { unfold model.versionRegex, s. rewrite exec_concat_eq.
    change (regexp.exec regexp.BeginText ?t ?k) with (k t). cbv beta.
    rewrite exec_concat_eq.
    apply (capture_class_exact _ _ 1 ""); [done..|].
    rewrite exec_concat_eq.
    change ("." ++ b ++ "." ++ c ++ tail)%string
      with (String "." (b ++ "." ++ c ++ tail)).
    rewrite exec_lit_step, exec_concat_eq.
    apply (capture_class_exact _ _ 2 ""); [done..|].
    rewrite exec_concat_eq.
    change ("." ++ c ++ tail)%string with (String "." (c ++ tail)).
    rewrite exec_lit_step.
    by apply (capture_class_exact _ _ 3 ""). }
  unfold regexp.FindStringSubmatch.
  assert (Hsearch : regexp.search model.versionRegex 0 s
                    = Some (0, regexp.Thread (S (S (0 + la) + lb) + lc) tail
              (<[3 := (S (S (0 + la) + lb), S (S (0 + la) + lb) + lc)]>
                 (<[2 := (S (0 + la), S (0 + la) + lb)]>
                    (<[1 := (0, 0 + la)]> ∅))))).
  { destruct s; cbn [regexp.search]; by rewrite Hexec. }
  rewrite Hsearch. cbn [regexp.pos regexp.cap].
  change (regexp.groups model.versionRegex) with [(1, ""); (2, ""); (3, "")]%string.
  cbn [fmap list_fmap fst].
  rewrite lookup_insert_ne, lookup_insert_ne, lookup_insert_eq by done.
  rewrite lookup_insert_ne, lookup_insert_eq by done.
  rewrite lookup_insert_eq.
  replace (S (S (0 + la) + lb) + lc - 0)
    with (String.length (a ++ "." ++ b ++ "." ++ c))
    by (rewrite !string_length_app; cbn; lia).
  replace (0 + la - 0) with la by lia.
  replace (S (0 + la) + lb - S (0 + la)) with lb by lia.
  replace (S (S (0 + la) + lb) + lc - S (S (0 + la) + lb)) with lc by lia.
  replace (S (0 + la)) with (String.length (a ++ ".")%string)
    by (rewrite string_length_app; cbn; lia).
  replace (S (String.length (a ++ ".")%string + lb))
    with (String.length (a ++ "." ++ b ++ ".")%string)
    by (rewrite !string_length_app; cbn; lia).
  f_equal; [|f_equal; [|f_equal; [|f_equal]]].
  - unfold s.
    replace (a ++ "." ++ b ++ "." ++ c ++ tail)%string
      with ((a ++ "." ++ b ++ "." ++ c) ++ tail)%string
      by by rewrite !string_app_assoc.
    apply substring_prefix.
  - apply substring_prefix.
  - unfold s, lb.
    replace (a ++ "." ++ b ++ "." ++ c ++ tail)%string
      with ((a ++ ".") ++ b ++ ("." ++ c ++ tail))%string
      by by rewrite !string_app_assoc.
    apply substring_middle.
  - unfold s, lc.
    replace (a ++ "." ++ b ++ "." ++ c ++ tail)%string
      with ((a ++ "." ++ b ++ ".") ++ c ++ tail)%string
      by by rewrite !string_app_assoc.
    apply substring_middle.
Qed.

(** ** Decimal numbers *)

Section decimal_numbers.
Import strconv.
Local Open Scope Z_scope.

Lemma digit_val_digit (c : ascii) :
  regexp.digit c = true → ∃ d, digit_val c = Some d ∧ 0 ≤ d ≤ 9.
Proof.
  unfold regexp.digit, digit_val. cbv zeta. intros H.
  apply andb_true_iff in H as [H1 H2]. apply N.leb_le in H1, H2.
  assert ((48 <=? Z.of_N (N_of_ascii c)) && (Z.of_N (N_of_ascii c) <=? 57) = true)
    as ->.
  { apply andb_true_iff. split; apply Z.leb_le; lia. }
  eexists. split; [done|lia].
Qed.

Lemma decimalFrom_ge (s : string) :
  ∀ n, allDigits s = true → 0 ≤ n → n ≤ decimalFrom n s.
Proof.
  induction s as [|c s IH]; intros n Hs Hn; [done|].
  cbn [allDigits] in Hs. apply andb_true_iff in Hs as [Hc Hs].
  destruct (digit_val_digit c Hc) as (d & Hd & Hr).
  cbn [decimalFrom]. rewrite Hd. cbn [default from_option]. unfold id.
  etrans; [|apply IH]; [lia|done|lia].
Qed.

Lemma decimalFrom_app (s t : string) :
  ∀ n, decimalFrom n (s ++ t) = decimalFrom (decimalFrom n s) t.
Proof.
  induction s as [|c s IH]; intros n; [done|].
  change (String c s ++ t)%string with (String c (s ++ t)).
  cbn [decimalFrom]. apply IH.
Qed.

(** The digit loop of [ParseUint] on a string of digits: the number the
    digits denote, or a range error when it does not fit 64 bits. *)
Lemma ParseUint_digits_numeric (s0 : string) (s : string) :
  ∀ n, allDigits s = true → 0 ≤ n ≤ maxUint64 →
    ParseUint_digits s0 n s
    = if decimalFrom n s <=? maxUint64 then Ok (decimalFrom n s)
      else Err (NumError "ParseUint" s0 ErrRange).
Proof.
  change maxUint64 with 18446744073709551615.
  induction s as [|c s IH]; intros n Hs Hn.
  - cbn [ParseUint_digits decimalFrom].
    by assert ((n <=? 18446744073709551615) = true) as -> by (apply Z.leb_le; lia).
  - cbn [allDigits] in Hs. apply andb_true_iff in Hs as [Hc Hs].
    destruct (digit_val_digit c Hc) as (d & Hd & Hr).
    cbn [ParseUint_digits decimalFrom]. rewrite Hd.
    cbn [default from_option]. unfold id. cbv zeta.
    change (maxUint64 / 10 + 1) with 1844674407370955162.
    change maxUint64 with 18446744073709551615.
    change (2 ^ 64) with 18446744073709551616.
    pose proof (decimalFrom_ge s (n * 10 + d) Hs ltac:(lia)) as Hge.
    destruct (1844674407370955162 <=? n) eqn:Hcut.
    { apply Z.leb_le in Hcut.
      by assert ((decimalFrom (n * 10 + d) s <=? 18446744073709551615) = false)
        as -> by (apply Z.leb_gt; lia). }
    apply Z.leb_gt in Hcut.
    destruct (Z_le_gt_dec (n * 10 + d) 18446744073709551615) as [Hfit|Hover].
    + rewrite (Z.mod_small (n * 10 + d)) by lia.
      assert ((n * 10 + d <? n * 10) = false) as -> by (apply Z.ltb_ge; lia).
      assert ((18446744073709551615 <? n * 10 + d) = false) as ->
        by (apply Z.ltb_ge; lia).
      cbn [orb]. apply IH; [done|lia].
    + assert ((n * 10 + d) mod 18446744073709551616
              = n * 10 + d - 18446744073709551616) as ->.
      { symmetry. apply (Z.mod_unique _ _ 1); lia. }
      assert ((n * 10 + d - 18446744073709551616 <? n * 10) = true) as ->
        by (apply Z.ltb_lt; lia).
      cbn [orb].
      by assert ((decimalFrom (n * 10 + d) s <=? 18446744073709551615) = false)
        as -> by (apply Z.leb_gt; lia).
Qed.

(** [ParseInt] on a string of digits: the number the digits denote, or
    a range error when it does not fit a signed 64-bit integer. *)
Lemma ParseInt_numeric (s : string) :
  numeric s →
  ParseInt s = if decimal s <? 2 ^ 63 then Ok (decimal s)
               else Err (NumError "ParseInt" s ErrRange).
Proof.
  intros [Hne Hs]. destruct s as [|c r] eqn:Es; [done|]. rewrite <- Es in *.
  assert (Hc : regexp.digit c = true).
  { rewrite Es in Hs. cbn [allDigits] in Hs. by apply andb_true_iff in Hs as [? _]. }
  assert (ParseInt s
          = match ParseUint s with
            | Err (NumError _ _ ErrSyntax) => Err (NumError "ParseInt" s ErrSyntax)
            | Err _ => Err (NumError "ParseInt" s ErrRange)
            | Ok un =>
                if negb false && (2 ^ 63 <=? un)
                then Err (NumError "ParseInt" s ErrRange)
                else if false && (2 ^ 63 <? un)
                     then Err (NumError "ParseInt" s ErrRange)
                     else Ok (int64 un)
            end) as ->.
  { rewrite Es. unfold ParseInt.
    destruct (Ascii.eqb_spec c "+") as [->|_]; [done|].
    destruct (Ascii.eqb_spec c "-") as [->|_]; [done|]. done. }
  assert (ParseUint s = ParseUint_digits s 0 s) as -> by by rewrite Es.
  rewrite ParseUint_digits_numeric by (done || by cbn).
  fold (decimal s).
  pose proof (decimalFrom_ge s 0 Hs ltac:(lia)) as Hge. fold (decimal s) in Hge.
  change maxUint64 with 18446744073709551615.
  change (2 ^ 63) with 9223372036854775808.
  destruct (decimal s <=? 18446744073709551615) eqn:Hfit.
  - cbn [negb andb].
    destruct (9223372036854775808 <=? decimal s) eqn:Hbig.
    + apply Z.leb_le in Hbig.
      by assert ((decimal s <? 9223372036854775808) = false) as ->
        by (apply Z.ltb_ge; lia).
    + apply Z.leb_gt in Hbig.
      assert ((decimal s <? 9223372036854775808) = true) as ->
        by (apply Z.ltb_lt; lia).
      rewrite int64_small; [done|]. change (2 ^ 63) with 9223372036854775808. lia.
  - apply Z.leb_gt in Hfit.
    by assert ((decimal s <? 9223372036854775808) = false) as ->
      by (apply Z.ltb_ge; lia).
Qed.
End decimal_numbers.

(** ** The components of the version *)

Section version_components.
Import powerwall model view.
Local Open Scope Z_scope.

Lemma allDigits_app (s t : string) :
  allDigits (s ++ t) = allDigits s && allDigits t.
Proof.
  induction s as [|c s IH]; [done|].
  change (String c s ++ t)%string with (String c (s ++ t)).
  cbn [allDigits]. by rewrite IH, andb_assoc.
Qed.

(** The digits a string starts with, and the rest. *)
Lemma leading_digits (s : string) :
  ∃ ds rest : string,
    s = (ds ++ rest)%string ∧ allDigits ds = true
    ∧ startsWith regexp.digit rest = false.
Proof.
  induction s as [|c s (ds & rest & -> & Hds & Hrest)].
  - by exists EmptyString, EmptyString.
  - destruct (regexp.digit c) eqn:Hc.
    + exists (String c ds), rest. split_and!; [done| |done].
      cbn [allDigits]. by rewrite Hc, Hds.
    + exists EmptyString, (String c (ds ++ rest)). by split_and!.
Qed.

(** A string with three leading numeric components, cut after the last
    digit of the third. *)
Lemma threeLeadingComponents_maximal (s : string) :
  threeLeadingComponents s →
  ∃ a b c tail : string,
    s = (a ++ "." ++ b ++ "." ++ c ++ tail)%string
    ∧ numeric a ∧ numeric b ∧ numeric c
    ∧ startsWith regexp.digit tail = false.
Proof.
  intros (a & b & c & tail & -> & Ha & Hb & [Hc Hdc]).
  destruct (leading_digits tail) as (ds & rest & -> & Hds & Hrest).
  exists a, b, (c ++ ds)%string, rest. split_and!; try done.
  - by rewrite string_app_assoc.
  - split; [by destruct c|]. by rewrite allDigits_app, Hdc, Hds.
Qed.

(** The step for the status on a version with three leading numeric
    components. *)
Lemma getStatus_components (mon : Monitor) (p : TeslaEnergyGatewayMetrics)
    (status : Status) (a b c tail : string) :
  GetStatus mon = Ok status →
  powerwall.Version status = (a ++ "." ++ b ++ "." ++ c ++ tail)%string →
  numeric a → numeric b → numeric c → startsWith regexp.digit tail = false →
  getStatus mon p
  = if decimal a <? 2 ^ 63 then
      if decimal b <? 2 ^ 63 then
        if decimal c <? 2 ^ 63 then
          Ok {| Fixed := Fixed p; Mode := Mode p;
                BackupReservePercent := BackupReservePercent p;
                Uptime := Duration_Duration (UpTime status);
                Version := {| Major := decimal a; Minor := decimal b;
                              Release := decimal c |};
                NetworkInterfaces := NetworkInterfaces p;
                SiteMasterRunning := SiteMasterRunning p;
                SiteMasterConnectedToTesla := SiteMasterConnectedToTesla p;
                SiteMasterSupplyingPower := SiteMasterSupplyingPower p;
                Meters := Meters p;
                PowerwallChargePercent := PowerwallChargePercent p;
                GridConnected := model.GridConnected p;
                GridActive := GridActive p |}
        else Err (NumError "ParseInt" c ErrRange)
      else Err (NumError "ParseInt" b ErrRange)
    else Err (NumError "ParseInt" a ErrRange).
Proof.
  intros Hst Hv Ha Hb Hc Htail. unfold getStatus. rewrite Hst.
  cbn [mbind result_bind]. rewrite Hv, versionRegex_exact by done.
  cbn [length Nat.eqb negb nth].
  rewrite !ParseInt_numeric by done.
  destruct (decimal a <? 2 ^ 63); [|done]. cbn [mbind result_bind].
  destruct (decimal b <? 2 ^ 63); [|done]. cbn [mbind result_bind].
  by destruct (decimal c <? 2 ^ 63).
Qed.

(** X18: of a version that starts with three numeric components, the
    step for the status reads exactly these, in decimal, and ignores
    what follows the third; it fails, with a range error that names the
    component, exactly when a component does not fit a signed 64-bit
    integer. *)
Theorem getStatus_reads_the_three_components (mon : Monitor)
    (p : TeslaEnergyGatewayMetrics) (status : Status) (a b c tail : string) :
  GetStatus mon = Ok status →
  powerwall.Version status = (a ++ "." ++ b ++ "." ++ c ++ tail)%string →
  numeric a → numeric b → numeric c → startsWith regexp.digit tail = false →
  if forallb (λ s, decimal s <? 2 ^ 63) [a; b; c]
  then ∃ p', getStatus mon p = Ok p'
             ∧ model.Version p' = {| Major := decimal a; Minor := decimal b;
                                     Release := decimal c |}
  else ∃ s, s ∈ [a; b; c]
            ∧ getStatus mon p = Err (NumError "ParseInt" s ErrRange).
Proof.
  intros Hst Hv Ha Hb Hc Htail.
  rewrite (getStatus_components mon p status a b c tail) by done.
  cbn [forallb].
  destruct (decimal a <? 2 ^ 63); cbn [andb].
  2:{ exists a. split; [|done]. apply list_elem_of_In. cbn. tauto. }
  destruct (decimal b <? 2 ^ 63); cbn [andb].
  2:{ exists b. split; [|done]. apply list_elem_of_In. cbn. tauto. }
  destruct (decimal c <? 2 ^ 63); cbn [andb].
  2:{ exists c. split; [|done]. apply list_elem_of_In. cbn. tauto. }
  by eexists.
Qed.

(** X19: the components of a version that the step for the status
    accepts are never negative. *)
Theorem getStatus_components_not_negative (mon : Monitor)
    (p p' : TeslaEnergyGatewayMetrics) :
  getStatus mon p = Ok p' →
  0 ≤ Major (model.Version p') ∧ 0 ≤ Minor (model.Version p')
  ∧ 0 ≤ Release (model.Version p').
Proof.
  intros Hok.
  destruct (getStatus_ok mon p p' Hok) as (status & Hst & _ & _ & _ & _ & _ & _ & _
    & _ & _ & _ & _ & _ & found & -> & Hlen & _).
  assert (Hm : regexp.FindStringSubmatch versionRegex (powerwall.Version status) ≠ []).
  { intros Hnil. by rewrite Hnil in Hlen. }
  apply versionRegex_sound, threeLeadingComponents_maximal in Hm
    as (a & b & c & tail & Hv & Ha & Hb & Hc & Htail).
  rewrite (getStatus_components mon p status a b c tail) in Hok by done.
  destruct (decimal a <? 2 ^ 63); [|done].
  destruct (decimal b <? 2 ^ 63); [|done].
  destruct (decimal c <? 2 ^ 63); [|done].
  injection Hok as <-. cbn [model.Version Major Minor Release].
  destruct Ha as [_ Ha], Hb as [_ Hb], Hc as [_ Hc].
  split_and!; by apply decimalFrom_ge.
Qed.

Lemma verb_02d_small (n : nat) :
  (n < 100)%nat →
  ∀ acc, decimalFrom acc (fmt.verb_02d (Z.of_nat n)) = acc * 100 + Z.of_nat n.
Proof.
  intros Hn acc.
  do 100 (destruct n as [|n];
          [set (str := fmt.verb_02d _); vm_compute in str; subst str;
           cbn [decimalFrom];
           repeat match goal with
                  | |- context [strconv.digit_val ?c] =>
                      let v := eval vm_compute in (strconv.digit_val c) in
                      change (strconv.digit_val c) with v
                  end;
           cbn [default from_option]; unfold id; lia|]).
  lia.
Qed.

Lemma verb_02d_digits (n : nat) :
  (n < 100)%nat → allDigits (fmt.verb_02d (Z.of_nat n)) = true.
Proof.
  intros Hn. do 100 (destruct n as [|n]; [by vm_compute|]). lia.
Qed.

(** The flattened version of small components. *)
Lemma flattenedString_small (m : TeslaEnergyGatewayMetrics) :
  twoDigitComponents (model.Version m) →
  strconv.ParseInt (flattenedString m)
  = Ok (10000 * Major (model.Version m) + 100 * Minor (model.Version m)
        + Release (model.Version m)).
Proof.
  intros (Ha & Hb & Hc). unfold flattenedString, fmt.Sprintf_02d_02d_02d.
  set (a := Major (model.Version m)) in *. set (b := Minor (model.Version m)) in *.
  set (c := Release (model.Version m)) in *.
  rewrite <- (Z2Nat.id a), <- (Z2Nat.id b), <- (Z2Nat.id c) by lia.
  set (x := Z.to_nat a). set (y := Z.to_nat b). set (z := Z.to_nat c).
  assert (x < 100 ∧ y < 100 ∧ z < 100)%nat as (Hx & Hy & Hz) by lia.
  rewrite ParseInt_numeric.
  - unfold decimal. rewrite !decimalFrom_app, !verb_02d_small by done.
    assert ((((0 * 100 + Z.of_nat x) * 100 + Z.of_nat y) * 100 + Z.of_nat z
             <? 2 ^ 63) = true) as -> by (apply Z.ltb_lt; lia).
    f_equal. lia.
  - split.
    + pose proof (verb_02d_small x Hx 1) as H.
      destruct (fmt.verb_02d (Z.of_nat x)); [cbn in H; lia|done].
    + by rewrite !allDigits_app, !verb_02d_digits.
Qed.

(** X20: for a version whose components are all between 0 and 99, the
    flattened version is 10000 times the major plus 100 times the minor
    plus the release, and that is the number the gauge is set to. *)
Theorem flattened_version_of_two_digit_components
    (rangeNetworkInterfaces :
       gmap powerwall.NetworkInterface NetworkInterfaceDetails →
       list (powerwall.NetworkInterface * NetworkInterfaceDetails))
    (rangeMeters : gmap MeterType MeterDetails → list (MeterType * MeterDetails))
    (m : TeslaEnergyGatewayMetrics) (p : PrometheusCounters) :
  twoDigitComponents (model.Version m) →
  let flat := 10000 * Major (model.Version m) + 100 * Minor (model.Version m)
              + Release (model.Version m) in
  strconv.ParseInt (flattenedString m) = Ok flat
  ∧ ∃ r p' evs,
      Update rangeNetworkInterfaces rangeMeters m p
      = (r, p',
         gaugesBeforeFlatten m
         ++ GaugeSet flattenedVersion (float64_of_int64 flat) :: evs).
Proof.
  intros Hsmall. cbv zeta. split; [by apply flattenedString_small|].
  rewrite Update_run, (flattenedString_small m Hsmall).
  destruct (forEach (rangeMeters (Meters m)) _ p) as [[r p'] mevs].
  by eexists _, _, _.
Qed.

(** X21: among versions whose components are all between 0 and 99, the
    flattened versions are ordered as the versions are: by major, then
    minor, then release. *)
Theorem flattened_version_orders_like_versions
    (m1 m2 : TeslaEnergyGatewayMetrics) (flat1 flat2 : Z) :
  twoDigitComponents (model.Version m1) →
  twoDigitComponents (model.Version m2) →
  strconv.ParseInt (flattenedString m1) = Ok flat1 →
  strconv.ParseInt (flattenedString m2) = Ok flat2 →
  (flat1 < flat2 ↔ versionLt (model.Version m1) (model.Version m2))
  ∧ (flat1 = flat2 ↔ model.Version m1 = model.Version m2).
Proof.
  intros H1 H2. rewrite !flattenedString_small by done.
  intros [= <-] [= <-]. unfold versionLt.
  destruct H1 as (? & ? & ?), H2 as (? & ? & ?).
  destruct (model.Version m1) as [a1 b1 c1], (model.Version m2) as [a2 b2 c2].
  cbn [Major Minor Release] in *. split; [lia|].
  split; [intros Heq; f_equal; lia | intros [= -> -> ->]; lia].
Qed.
End version_components.

Lemma getStatus_reads_the_three_components_witness :
  ∃ p', model.getStatus (gateway "21.13.2 a4bb6d8f" 0 0 gridUp) model.zeroMetrics
        = Ok p'
        ∧ model.Version p'
          = {| model.Major := 21; model.Minor := 13; model.Release := 2 |}.
Proof.
  pose proof (getStatus_reads_the_three_components
                (gateway "21.13.2 a4bb6d8f" 0 0 gridUp) model.zeroMetrics _
                "21" "13" "2" " a4bb6d8f" eq_refl eq_refl
                ltac:(by split) ltac:(by split) ltac:(by split) eq_refl) as H.
  change (forallb _ _) with true in H. exact H.
Defined.

Lemma getStatus_components_not_negative_witness :
  ∃ p', model.getStatus (gateway "20.49.3" 0 0 gridUp) model.zeroMetrics = Ok p'
        ∧ (0 ≤ model.Major (model.Version p'))%Z
        ∧ (0 ≤ model.Minor (model.Version p'))%Z
        ∧ (0 ≤ model.Release (model.Version p'))%Z.
Proof.
  destruct (model.getStatus (gateway "20.49.3" 0 0 gridUp) model.zeroMetrics)
    as [p'|] eqn:H; [|by vm_compute in H].
  exists p'. split; [done|].
  exact (getStatus_components_not_negative _ _ p' H).
Defined.

Lemma flattened_version_of_two_digit_components_witness :
  strconv.ParseInt
    (flattenedString
       (metricsWith {| model.Major := 1; model.Minor := 2; model.Release := 99 |} ∅))
  = Ok 10299%Z.
Proof.
  destruct (flattened_version_of_two_digit_components walk walk
              (metricsWith {| model.Major := 1; model.Minor := 2;
                              model.Release := 99 |} ∅)
              freshCounters) as [H _].
  { unfold twoDigitComponents. cbn. lia. }
  exact H.
Defined.

Lemma flattened_version_orders_like_versions_witness :
  (204903 < 210000)%Z
  ↔ versionLt {| model.Major := 20; model.Minor := 49; model.Release := 3 |}
              {| model.Major := 21; model.Minor := 0; model.Release := 0 |}.
Proof.
  destruct (flattened_version_orders_like_versions
              (metricsWith {| model.Major := 20; model.Minor := 49;
                              model.Release := 3 |} ∅)
              (metricsWith {| model.Major := 21; model.Minor := 0;
                              model.Release := 0 |} ∅)
              204903 210000) as [H _].
  - unfold twoDigitComponents. cbn. lia.
  - unfold twoDigitComponents. cbn. lia.
  - by vm_compute.
  - by vm_compute.
  - exact H.
Defined.

(** ** Fractional seconds *)

Section fractional_seconds.
Import powerwall json.

Lemma allChars_app (p : ascii → bool) (s t : string) :
  allChars p (s ++ t) = allChars p s && allChars p t.
Proof.
  induction s as [|c s IH]; [done|].
  change (String c s ++ t)%string with (String c (s ++ t)).
  cbn [allChars]. by rewrite IH, andb_assoc.
Qed.

Lemma digits_notPeriod (ds : string) :
  allDigits ds = true → allChars notPeriod ds = true.
Proof.
  induction ds as [|c ds IH]; [done|]. cbn [allDigits allChars].
  intros [Hc Hds]%andb_true_iff. rewrite IH by done.
  unfold notPeriod. destruct (Ascii.eqb_spec "." c) as [<-|]; [|done].
  by vm_compute in Hc.
Qed.

Lemma digits_anyCharNotNL (ds : string) :
  allDigits ds = true → allChars regexp.anyCharNotNL ds = true.
Proof.
  induction ds as [|c ds IH]; [done|]. cbn [allDigits allChars].
  intros [Hc Hds]%andb_true_iff. rewrite IH by done.
  unfold regexp.anyCharNotNL. destruct (Ascii.eqb_spec c "010") as [->|]; [|done].
  by vm_compute in Hc.
Qed.

Lemma notPeriod_suffix (w v1 v2 : string) :
  allChars notPeriod w = true → w = (v1 ++ v2)%string →
  startsWith (Ascii.eqb ".") v2 = false.
Proof.
  intros Hw ->. rewrite allChars_app in Hw.
  apply andb_true_iff in Hw as [_ Hv2]. destruct v2 as [|c v2]; [done|].
  cbn [allChars] in Hv2. apply andb_true_iff in Hv2 as [Hc _].
  cbn [startsWith]. unfold notPeriod in Hc. by apply negb_true_iff in Hc.
Qed.

(** The pattern of the fractional seconds on a string with one fraction
    in it and no period after that: group 1 is what precedes the
    fraction, group 2 what follows it. *)
Lemma stripFractionalSeconds_exact (pre ds post : string) :
  allChars regexp.anyCharNotNL pre = true → numeric ds →
  allChars regexp.anyCharNotNL post = true → allChars notPeriod post = true →
  startsWith regexp.digit post = false →
  regexp.FindStringSubmatch stripFractionalSeconds (pre ++ "." ++ ds ++ post)
  = [ (pre ++ "." ++ ds ++ post)%string; pre; post ].
Proof.
  intros Hpre [Hne Hds] Hpost Hnp Hstop.
  set (s := (pre ++ "." ++ ds ++ post)%string).
  set (lp := String.length pre). set (ld := String.length ds).
  set (lq := String.length post).
  set (final := regexp.Thread (S (0 + lp) + ld + lq) ""
                  (<[2 := (S (0 + lp) + ld, S (0 + lp) + ld + lq)]>
                     (<[1 := (0, 0 + lp)]> ∅))).
  assert (Hexec : regexp.exec stripFractionalSeconds (regexp.Thread 0 s ∅) Some
                  = Some final).
  { unfold stripFractionalSeconds, s. rewrite exec_concat_eq.
    change (regexp.exec regexp.BeginText ?t ?k) with (k t). cbv beta.
    rewrite exec_concat_eq, exec_capture_eq, exec_star_eq.
    apply iterate_class_greedy_last;
      [done | cbn [regexp.rest]; rewrite string_length_app; lia | |].
    - cbn [regexp.pos regexp.rest regexp.cap].
      change ("." ++ ds ++ post)%string with (String "." (ds ++ post)).
      rewrite exec_concat_eq, exec_lit_step, exec_concat_eq.
      apply plus_class_exact;
        [done | by rewrite <- allDigits_allChars | done |].
      rewrite exec_concat_eq, exec_capture_eq, exec_star_eq.
      cbn [regexp.pos regexp.rest regexp.cap].
      rewrite <- (string_app_nil_r post) at 2.
      apply iterate_class_exact; [done | done | lia |].
      reflexivity.
    - intros v1 v2 Hv Hv1. cbn [regexp.pos regexp.rest regexp.cap].
      rewrite exec_concat_eq. unfold regexp.lit. apply exec_class_stop.
      destruct v1 as [|c v1]; [done|].
      change ("." ++ ds ++ post)%string with (String "." (ds ++ post)) in Hv.
      change (String c v1 ++ v2)%string with (String c (v1 ++ v2)) in Hv.
      injection Hv as _ Hv.
      apply (notPeriod_suffix (ds ++ post) v1 v2); [|done].
      by rewrite allChars_app, digits_notPeriod, Hnp. }
  unfold regexp.FindStringSubmatch.
  assert (Hsearch : regexp.search stripFractionalSeconds 0 s = Some (0, final)).
  { destruct s; cbn [regexp.search]; by rewrite Hexec. }
  rewrite Hsearch. unfold final. cbn [regexp.pos regexp.cap].
  change (regexp.groups stripFractionalSeconds) with [(1, ""); (2, "")]%string.
  cbn [fmap list_fmap fst].
  rewrite lookup_insert_ne, lookup_insert_eq by done.
  rewrite lookup_insert_eq.
  replace (S (0 + lp) + ld + lq - 0) with (String.length s)
    by (unfold s; rewrite !string_length_app; cbn; lia).
  replace (0 + lp - 0) with lp by lia.
  replace (S (0 + lp) + ld + lq - (S (0 + lp) + ld)) with lq by lia.
  replace (S (0 + lp) + ld) with (String.length (pre ++ "." ++ ds)%string)
    by (rewrite !string_length_app; cbn; lia).
  f_equal; [|f_equal; [|f_equal]].
  - rewrite <- (string_app_nil_r s) at 2. apply substring_prefix.
  - apply substring_prefix.
  - unfold s, lq.
    replace (pre ++ "." ++ ds ++ post)%string
      with ((pre ++ "." ++ ds) ++ post ++ "")%string
      by by rewrite string_app_nil_r, !string_app_assoc.
    apply substring_middle.
Qed.

(** X22: of a timestamp with one fraction of a second, and no period and
    no line break elsewhere after it, the codec drops the fraction, and
    what it tries the layouts on, and names in its error, is the
    timestamp without it; so the digits of the fraction never matter. *)
Theorem Time_fraction_is_dropped (Parse : string → string → result time.Time)
    (t0 : Time) (pre ds post : string) :
  allChars regexp.anyCharNotNL pre = true → numeric ds →
  allChars regexp.anyCharNotNL post = true → allChars notPeriod post = true →
  startsWith regexp.digit post = false →
  Time_UnmarshalJSON Parse t0 (JString (pre ++ "." ++ ds ++ post))
  = match tryLayouts Parse layouts (pre ++ post) with
    | Some g => (None, {| t := g |})
    | None => (Some (Errorf "no layout matched timestamp %q" (pre ++ post)), t0)
    end
  ∧ ∀ ds' : string,
      numeric ds' →
      Time_UnmarshalJSON Parse t0 (JString (pre ++ "." ++ ds' ++ post))
      = Time_UnmarshalJSON Parse t0 (JString (pre ++ "." ++ ds ++ post)).
Proof.
  intros Hpre Hds Hpost Hnp Hstop.
  assert (Hdrop : ∀ ds0, numeric ds0 →
    Time_UnmarshalJSON Parse t0 (JString (pre ++ "." ++ ds0 ++ post))
    = match tryLayouts Parse layouts (pre ++ post) with
      | Some g => (None, {| t := g |})
      | None => (Some (Errorf "no layout matched timestamp %q" (pre ++ post)), t0)
      end).
  { intros ds0 Hds0. rewrite Time_UnmarshalJSON_nonempty by by destruct pre.
    unfold stripped. by rewrite stripFractionalSeconds_exact. }
  split; [by apply Hdrop|]. intros ds' Hds'. by rewrite !Hdrop.
Qed.
End fractional_seconds.

Lemma Time_fraction_is_dropped_witness :
  powerwall.Time_UnmarshalJSON time.Parse {| powerwall.t := time.zero |}
    (json.JString "2019-07-01T10:00:00.987-07:00")
  = powerwall.Time_UnmarshalJSON time.Parse {| powerwall.t := time.zero |}
      (json.JString "2019-07-01T10:00:00.123456789-07:00").
Proof.
  destruct (Time_fraction_is_dropped time.Parse {| powerwall.t := time.zero |}
              "2019-07-01T10:00:00" "123456789" "-07:00")
    as [_ H]; [by vm_compute | by split | by vm_compute..|].
  apply (H "987"). by split.
Defined.

(** ** Lazy repetition *)

Section lazy_matching.
Import regexp.
Context {R : Type}.

Lemma exec_quest_eq (r : Regexp) (t : thread) (k : thread → option R) :
  exec (Quest true r) t k
  = match exec r t k with Some x => Some x | None => k t end.
Proof. reflexivity. Qed.

(** A lazy loop over a class, followed by something that refuses the text
    while characters of the class are left, takes them all. *)
Lemma iterate_lazy_class (p : ascii → bool) (k : thread → option R) (r' : string)
    (cp : gmap nat (nat * nat)) :
  startsWith p r' = false →
  ∀ (ds : string) (i fuel : nat),
    allChars p ds = true →
    String.length ds < fuel →
    (∀ d1 d2, ds = (d1 ++ d2)%string → d2 ≠ EmptyString →
       k (Thread (i + String.length d1) (d2 ++ r') cp) = None) →
    iterate (exec (CharClass p)) false fuel (Thread i (ds ++ r') cp) k
    = k (Thread (i + String.length ds) r' cp).
Proof.
  intros Hstop.
  induction ds as [|c ds IH]; intros i fuel Hds Hfuel Hk.
  - destruct fuel as [|fuel]; [cbn in Hfuel; lia|].
    cbn [String.length]. rewrite Nat.add_0_r.
    change ("" ++ r')%string with r'. cbn [iterate].
    destruct (k (Thread i r' cp)); [done|]. by rewrite exec_class_stop.
  - destruct fuel as [|fuel]; [cbn in Hfuel; lia|].
    cbn [allChars] in Hds. apply andb_true_iff in Hds as [Hc Hds].
    cbn [String.length] in Hfuel. cbn [iterate].
    assert (k (Thread i (String c ds ++ r') cp) = None) as ->.
    { specialize (Hk EmptyString (String c ds) eq_refl ltac:(done)).
      cbn [String.length] in Hk. by rewrite Nat.add_0_r in Hk. }
    change (String c ds ++ r')%string with (String c (ds ++ r')).
    rewrite exec_class_step by done. cbn [rest String.length].
    assert ((String.length (ds ++ r') <? S (String.length (ds ++ r')))%nat = true)
      as -> by (apply Nat.ltb_lt; lia).
    rewrite (IH (S i) fuel Hds); [|lia|].
    + cbn [String.length]. by rewrite Nat.add_succ_r.
    + intros d1 d2 -> Hd2.
      specialize (Hk (String c d1) d2 eq_refl Hd2).
      cbn [String.length] in Hk. by rewrite Nat.add_succ_r in Hk.
Qed.

(** A lazy group of one or more characters of a class. *)
Lemma capture_lazy_class (p : ascii → bool) (k : thread → option R)
    (idx : nat) (name : string) (ds r' : string) (i : nat)
    (cp : gmap nat (nat * nat)) :
  ds ≠ EmptyString → allChars p ds = true → startsWith p r' = false →
  (∀ d1 d2, ds = (d1 ++ d2)%string → d1 ≠ EmptyString → d2 ≠ EmptyString →
     k (Thread (i + String.length d1) (d2 ++ r')
          (<[idx := (i, i + String.length d1)]> cp)) = None) →
  exec (Capture idx name (Plus false (CharClass p))) (Thread i (ds ++ r') cp) k
  = k (Thread (i + String.length ds) r'
         (<[idx := (i, i + String.length ds)]> cp)).
Proof.
  intros Hne Hds Hstop Hk. destruct ds as [|c ds]; [done|].
  cbn [allChars] in Hds. apply andb_true_iff in Hds as [Hc Hds].
  change (String c ds ++ r')%string with (String c (ds ++ r')).
  rewrite exec_capture_eq, exec_plus_eq, exec_class_step by done. cbn [rest].
  rewrite iterate_lazy_class;
    [|done | done | rewrite string_length_app; lia |].
  - cbn [pos rest cap String.length]. by rewrite Nat.add_succ_r.
  - intros d1 d2 -> Hd2. cbn [pos rest cap].
    specialize (Hk (String c d1) d2 eq_refl ltac:(done) Hd2).
    cbn [String.length] in Hk. by rewrite Nat.add_succ_r in Hk.
Qed.

(** A lazy group of one or more characters of a class finds nothing
    where no character of the class stands. *)
Lemma capture_lazy_class_none (p : ascii → bool) (k : thread → option R)
    (idx : nat) (name : string) (r' : string) (i : nat)
    (cp : gmap nat (nat * nat)) :
  startsWith p r' = false →
  exec (Capture idx name (Plus false (CharClass p))) (Thread i r' cp) k = None.
Proof. intros H. rewrite exec_capture_eq, exec_plus_eq. by apply exec_class_stop. Qed.
End lazy_matching.

(** ** The duration codec on every full form *)

Section lazy_digits.
Import regexp.
Context {R : Type}.

Lemma digit_start (a : ascii) (d2 r' : string) :
  d2 ≠ EmptyString → allChars digit d2 = true → digit a = false →
  startsWith (Ascii.eqb a) (d2 ++ r') = false.
Proof.
  intros Hne Hd Ha. destruct d2 as [|c d2]; [done|].
  cbn [allChars] in Hd. apply andb_true_iff in Hd as [Hc _].
  change (String c d2 ++ r')%string with (String c (d2 ++ r')). cbn [startsWith].
  destruct (Ascii.eqb_spec a c) as [->|]; [congruence|done].
Qed.

(** Lazy digits before a literal that is not a digit: the group takes
    the digits up to the literal. *)
Lemma lazy_digits_then_lit (K : thread → option R) (idx : nat) (name : string)
    (ds : string) (a : ascii) (r' : string) (i : nat) (cp : gmap nat (nat * nat)) :
  ds ≠ EmptyString → allChars digit ds = true → digit a = false →
  exec (Capture idx name (Plus false (CharClass digit)))
       (Thread i (ds ++ String a r') cp) (λ t1, exec (lit a) t1 K)
  = K (Thread (S (i + String.length ds)) r'
         (<[idx := (i, i + String.length ds)]> cp)).
Proof.
  intros Hne Hds Ha. rewrite capture_lazy_class; [apply exec_lit_step|done..| |].
  - done.
  - intros d1 d2 -> Hd1 Hd2. unfold lit. apply exec_class_stop, digit_start; [done| |done].
    rewrite allChars_app in Hds. by apply andb_true_iff in Hds as [_ ?].
Qed.

Lemma lazy_digits_then_lit_none (K : thread → option R) (idx : nat) (name : string)
    (ds : string) (a : ascii) (r' : string) (i : nat) (cp : gmap nat (nat * nat)) :
  allChars digit ds = true → digit a = false →
  startsWith digit r' = false → startsWith (Ascii.eqb a) r' = false →
  exec (Capture idx name (Plus false (CharClass digit)))
       (Thread i (ds ++ r') cp) (λ t1, exec (lit a) t1 K)
  = None.
Proof.
  intros Hds Ha Hr Hra. destruct ds as [|c ds].
  - by apply capture_lazy_class_none.
  - rewrite capture_lazy_class; [|done..|].
    + unfold lit. by apply exec_class_stop.
    + intros d1 d2 Hd Hd1 Hd2. unfold lit. apply exec_class_stop, digit_start; [done| |done].
      rewrite Hd, allChars_app in Hds. by apply andb_true_iff in Hds as [_ ?].
Qed.
End lazy_digits.

Section uptime.
Import regexp powerwall.

Lemma digit_anyCharNotNL (c : ascii) : digit c = true → anyCharNotNL c = true.
Proof.
  intros Hc. unfold anyCharNotNL.
  destruct (Ascii.eqb_spec c "010") as [->|]; [by vm_compute in Hc|done].
Qed.

(** The groups of the seconds and of the nanoseconds. *)
Lemma uptime_seconds (s n tail : string) (sep : ascii) (i : nat)
    (cp : gmap nat (nat * nat)) :
  numeric s → numeric n →
  anyCharNotNL sep = true → digit sep = false → sep ≠ "s"%char →
  let ls := String.length s in let ln := String.length n in
  let a3 := S (i + ls) in let a4 := S (a3 + ln) in
  exec (Concat
          (Capture 5 ""
             (Concat (Capture 6 "seconds" (Plus false (CharClass digit)))
                     (CharClass anyCharNotNL)))
          (Capture 7 ""
             (Concat (Capture 8 "nanoseconds" (Plus false (CharClass digit)))
                     (lit "s"))))
       (Thread i (s ++ String sep (n ++ String "s" tail)) cp) Some
  = Some (Thread a4 tail
            (<[7 := (a3, a4)]> (<[8 := (a3, a3 + ln)]>
            (<[5 := (i, a3)]> (<[6 := (i, i + ls)]> cp))))).
Proof.
  intros [Hs Hds] [Hn Hdn] Hany Hsep Hns. cbv zeta.
  rewrite allDigits_allChars in Hds, Hdn.
  rewrite exec_concat_eq, exec_capture_eq, exec_concat_eq.
  rewrite capture_lazy_class; [|done..|].
  - cbn [pos rest cap]. rewrite exec_class_step by done. cbn [pos rest cap].
    rewrite exec_capture_eq, exec_concat_eq.
    rewrite lazy_digits_then_lit by done. reflexivity.
  - intros d1 d2 Hd Hd1 Hd2. rewrite Hd, allChars_app in Hds.
    apply andb_true_iff in Hds as [_ Hdd2].
    destruct d2 as [|c d2]; [done|]. cbn [allChars] in Hdd2.
    apply andb_true_iff in Hdd2 as [Hc Hdd2].
    change (String c d2 ++ String sep (n ++ String "s" tail))%string
      with (String c (d2 ++ String sep (n ++ String "s" tail))).
    rewrite exec_class_step by by apply digit_anyCharNotNL.
    cbn [pos rest cap]. rewrite exec_capture_eq, exec_concat_eq.
    apply lazy_digits_then_lit_none; [done|done|done|].
    cbn [startsWith]. by destruct (Ascii.eqb_spec "s" sep) as [<-|].
Qed.

Lemma uptimeRegex_exec (h m s n tail : string) (sep : ascii) :
  numeric h → numeric m → numeric s → numeric n →
  anyCharNotNL sep = true → digit sep = false → sep ≠ "s"%char →
  let lh := String.length h in let lm := String.length m in
  let ls := String.length s in let ln := String.length n in
  let a1 := S (0 + lh) in let a2 := S (a1 + lm) in
  let a3 := S (a2 + ls) in let a4 := S (a3 + ln) in
  exec uptimeRegex
    (Thread 0 (h ++ String "h" (m ++ String "m" (s ++ String sep (n ++ String "s" tail)))) ∅)
    Some
  = Some (Thread a4 tail
            (<[7 := (a3, a4)]> (<[8 := (a3, a3 + ln)]>
            (<[5 := (a2, a3)]> (<[6 := (a2, a2 + ls)]>
            (<[3 := (a1, a2)]> (<[4 := (a1, a1 + lm)]>
            (<[1 := (0, a1)]> (<[2 := (0, 0 + lh)]> ∅))))))))).
Proof.
  intros [Hh Hdh] [Hm Hdm] Hs Hn Hany Hsep Hns. cbv zeta.
  rewrite allDigits_allChars in Hdh, Hdm.
  unfold uptimeRegex.
  rewrite exec_concat_eq, exec_quest_eq, exec_capture_eq, exec_concat_eq.
  rewrite lazy_digits_then_lit by done. cbn [pos rest cap].
  rewrite exec_concat_eq, exec_quest_eq, exec_capture_eq, exec_concat_eq.
  rewrite lazy_digits_then_lit by done. cbn [pos rest cap].
  by rewrite uptime_seconds.
Qed.
End uptime.

Section uptime_decode.
Import regexp powerwall json.

Ltac sub pre w post :=
  trans (substring (String.length pre) (String.length w) (pre ++ w ++ post)%string);
  [ f_equal;
    first [ by rewrite ?string_app_assoc
          | rewrite ?string_length_app; cbn [String.length]; lia ]
  | apply substring_middle ].

Lemma uptimeRegex_exact (h m s n tail : string) (sep : ascii) :
  numeric h → numeric m → numeric s → numeric n →
  anyCharNotNL sep = true → digit sep = false → sep ≠ "s"%char →
  FindStringSubmatch uptimeRegex
    (h ++ "h" ++ m ++ "m" ++ s ++ String sep "" ++ n ++ "s" ++ tail)
  = [ (h ++ "h" ++ m ++ "m" ++ s ++ String sep "" ++ n ++ "s")%string;
      (h ++ "h")%string; h; (m ++ "m")%string; m;
      (s ++ String sep "")%string; s; (n ++ "s")%string; n ].
Proof.
  intros Hh Hm Hs Hn Hany Hsep Hns.
  pose proof (uptimeRegex_exec h m s n tail sep Hh Hm Hs Hn Hany Hsep Hns) as Hexec.
  cbv zeta in Hexec.
  set (text := (h ++ "h" ++ m ++ "m" ++ s ++ String sep "" ++ n ++ "s" ++ tail)%string).
  change (h ++ String "h" (m ++ String "m" (s ++ String sep (n ++ String "s" tail))))%string
    with text in Hexec.
  unfold FindStringSubmatch.
  assert (Hsearch : search uptimeRegex 0 text = Some (0, _))
    by (destruct text; cbn [search]; rewrite Hexec; reflexivity).
  rewrite Hsearch. cbn [pos cap].
  change (groups uptimeRegex)
    with [(1, ""); (2, "hours"); (3, ""); (4, "minutes"); (5, ""); (6, "seconds");
          (7, ""); (8, "nanoseconds")]%string.
  cbn [fmap list_fmap fst].
  repeat (first [rewrite lookup_insert_eq | rewrite lookup_insert_ne by done]).
  unfold text.
  f_equal; [|f_equal; [|f_equal; [|f_equal; [|f_equal; [|f_equal; [|f_equal;
    [|f_equal; [|f_equal]]]]]]]].
  - sub EmptyString (h ++ "h" ++ m ++ "m" ++ s ++ String sep "" ++ n ++ "s")%string tail.
  - sub EmptyString (h ++ "h")%string (m ++ "m" ++ s ++ String sep "" ++ n ++ "s" ++ tail)%string.
  - sub EmptyString h ("h" ++ m ++ "m" ++ s ++ String sep "" ++ n ++ "s" ++ tail)%string.
  - sub (h ++ "h")%string (m ++ "m")%string (s ++ String sep "" ++ n ++ "s" ++ tail)%string.
  - sub (h ++ "h")%string m ("m" ++ s ++ String sep "" ++ n ++ "s" ++ tail)%string.
  - sub (h ++ "h" ++ m ++ "m")%string (s ++ String sep "")%string (n ++ "s" ++ tail)%string.
  - sub (h ++ "h" ++ m ++ "m")%string s (String sep "" ++ n ++ "s" ++ tail)%string.
  - sub (h ++ "h" ++ m ++ "m" ++ s ++ String sep "")%string (n ++ "s")%string tail.
  - sub (h ++ "h" ++ m ++ "m" ++ s ++ String sep "")%string n ("s" ++ tail)%string.
Qed.

(** X23: a duration written as digits, h, digits, m, digits, one
    separator, digits, s, with a separator that is neither a digit nor s
    nor a line break, decodes to the hours plus the minutes plus the
    seconds plus the digits after the separator counted as nanoseconds,
    wrapped to 64 bits; whatever follows the final s is ignored. *)
Theorem Duration_decodes_every_full_form (d0 : Duration)
    (h m s n tail : string) (sep : ascii) :
  numeric h → numeric m → numeric s → numeric n →
  anyCharNotNL sep = true → digit sep = false → sep ≠ "s"%char →
  forallb (λ x, decimal x <? 2 ^ 63)%Z [h; m; s; n] = true →
  Duration_UnmarshalJSON d0
    (JString (h ++ "h" ++ m ++ "m" ++ s ++ String sep "" ++ n ++ "s" ++ tail))
  = (None, {| d := int64 (decimal h * time.Hour + decimal m * time.Minute
                          + decimal s * time.Second
                          + decimal n * time.Nanosecond) |}).
Proof.
  intros Hh Hm Hs Hn Hany Hsep Hns Hfit.
  cbn [forallb] in Hfit. rewrite !andb_true_iff in Hfit.
  destruct Hfit as (Fh & Fm & Fs & Fn & _).
  eapply Duration_all_groups.
  - by apply uptimeRegex_exact.
  - by rewrite ParseInt_numeric, Fh.
  - by rewrite ParseInt_numeric, Fm.
  - by rewrite ParseInt_numeric, Fs.
  - by rewrite ParseInt_numeric, Fn.
Qed.
End uptime_decode.

Lemma Duration_decodes_every_full_form_witness :
  powerwall.Duration_UnmarshalJSON {| powerwall.d := 0 |}
    (json.JString "1h2m3:45s and more")
  = (None, {| powerwall.d := 3723000000045 |}).
Proof.
  apply (Duration_decodes_every_full_form {| powerwall.d := 0 |}
           "1" "2" "3" "45" " and more" ":");
    first [by split | by vm_compute].
Defined.
